(** * The external scanner of tree-sitter-markdown (src/scanner.cc)

    A shallow embedding of [struct Scanner] and of its member functions
    [serialize], [deserialize], [advance] and [scan], followed by the
    properties of the scanner's state machine.

    Conventions of the embedding:
    - [uint8_t] fields are integers of [Z] kept in [0, 256) with the
      wrap-around of every assignment written out ([u8]);
    - a [Block] is the value of its one-byte tag, in [0, 256).  The model
      is the code on the tags of [enum Block], 0 to 17, the only ones that
      a scanner started fresh ever holds; on a tag
      above 127 the one-sided comparison of [list_item_indentation], which
      is called behind [is_list_item] only, would depend on the signedness
      of [char];
    - [size_t] locals that count consumed input ([level], [digits],
      [extra_indentation], ...) are plain integers: they are bounded by the
      length of the input;
    - [vector<Block>] is a list, bottom (outermost block) first;
    - the diagnostic trace that [scan] writes to [std::cerr] (lines
      323-327) is not part of the model; it indexes [BLOCK_NAME] by the
      tags of the stack, which is defined for the tags of [enum Block]. *)

From Stdlib Require Import ZArith List Bool Lia ZifyBool Ascii.
Import ListNotations.
Local Open Scope Z_scope.

(** ** Tokens ([enum TokenType]) *)

Module Token.
Definition LINE_ENDING : Z := 0.
Definition INDENTATION : Z := 1.
Definition VIRTUAL_SPACE : Z := 2.
Definition MATCHING_DONE : Z := 3.
Definition BLOCK_CLOSE : Z := 4.
Definition BLOCK_CLOSE_LOOSE : Z := 5.
Definition BLOCK_CONTINUATION : Z := 6.
Definition LAZY_CONTINUATION : Z := 7.
Definition BLOCK_QUOTE_START : Z := 8.
Definition INDENTED_CHUNK_START : Z := 9.
Definition ATX_H1_MARKER : Z := 10.
Definition ATX_H2_MARKER : Z := 11.
Definition ATX_H3_MARKER : Z := 12.
Definition ATX_H4_MARKER : Z := 13.
Definition ATX_H5_MARKER : Z := 14.
Definition ATX_H6_MARKER : Z := 15.
Definition SETEXT_H1_UNDERLINE : Z := 16.
Definition SETEXT_H2_UNDERLINE : Z := 17.
Definition SETEXT_H2_UNDERLINE_OR_THEMATIC_BREAK : Z := 18.
Definition THEMATIC_BREAK : Z := 19.
Definition LIST_MARKER_MINUS : Z := 20.
Definition LIST_MARKER_PLUS : Z := 21.
Definition LIST_MARKER_STAR : Z := 22.
Definition LIST_MARKER_PARENTHETHIS : Z := 23.
Definition LIST_MARKER_DOT : Z := 24.
Definition FENCED_CODE_BLOCK_START : Z := 25.
Definition BLANK_LINE : Z := 26.
Definition CODE_SPAN_START : Z := 27.
Definition CODE_SPAN_CLOSE : Z := 28.
Definition LAST_TOKEN_WHITESPACE : Z := 29.
Definition LAST_TOKEN_PUNCTUATION : Z := 30.
Definition EMPHASIS_OPEN_STAR : Z := 31.
Definition EMPHASIS_OPEN_UNDERSCORE : Z := 32.
Definition EMPHASIS_CLOSE_STAR : Z := 33.
Definition EMPHASIS_CLOSE_UNDERSCORE : Z := 34.
End Token.
Import Token.

(** The [valid_symbols] array of a call, indexed by token. *)
Definition ValidSymbols : Type := Z -> bool.

(** ** Blocks ([enum Block : char]) *)

Abbreviation Block := Z (only parsing).

Definition BLOCK_QUOTE : Block := 0.
Definition INDENTED_CODE_BLOCK : Block := 1.
Definition TIGHT_LIST_ITEM : Block := 2.
Definition TIGHT_LIST_ITEM_MAX_INDENTATION : Block := 8.
Definition LOOSE_LIST_ITEM : Block := 9.
Definition LOOSE_LIST_ITEM_MAX_INDENTATION : Block := 15.
Definition FENCED_CODE_BLOCK_TILDE : Block := 16.
Definition FENCED_CODE_BLOCK_BACKTICK : Block := 17.

(** Conversion to [uint8_t], and to a one-byte [Block]. *)
Definition u8 (x : Z) : Z := x mod 256.
Definition to_Block (x : Z) : Block := x mod 256.

Definition is_list_item (block : Block) : bool :=
  (block >=? TIGHT_LIST_ITEM) && (block <=? LOOSE_LIST_ITEM_MAX_INDENTATION).

Definition list_item_indentation (block : Block) : Z :=
  if block <=? TIGHT_LIST_ITEM_MAX_INDENTATION
  then u8 (block - TIGHT_LIST_ITEM + 2)
  else u8 (block - LOOSE_LIST_ITEM + 2).

Definition is_tight_list_item (block : Block) : bool :=
  (block >=? TIGHT_LIST_ITEM) && (block <=? TIGHT_LIST_ITEM_MAX_INDENTATION).

Definition is_loose_list_item (block : Block) : bool :=
  (block >=? LOOSE_LIST_ITEM) && (block <=? LOOSE_LIST_ITEM_MAX_INDENTATION).

(** ** Characters *)

Definition chr (c : ascii) : Z := Z.of_nat (nat_of_ascii c).

Definition CR : Z := 13.
Definition LF : Z := 10.
Definition TAB : Z := 9.
Definition SPACE : Z := 32.

(** The conversion of the 32-bit lookahead to the [char] parameter of the
    two classifiers keeps the low byte; the classes lie below 128. *)
Definition to_char (c : Z) : Z := c mod 256.

Definition is_punctuation (c : Z) : bool :=
  let c := to_char c in
  ((c >=? chr "!") && (c <=? chr "/")) || ((c >=? chr ":") && (c <=? chr "@"))
  || ((c >=? chr "[") && (c <=? chr "`")) || ((c >=? chr "{") && (c <=? chr "~")).

Definition is_whitespace (c : Z) : bool :=
  let c := to_char c in
  (c =? SPACE) || (c =? TAB) || (c =? LF) || (c =? CR).

Definition is_space_or_tab (c : Z) : bool := (c =? SPACE) || (c =? TAB).
Definition is_line_end (c : Z) : bool := (c =? LF) || (c =? CR).

(** ** The scanner state ([struct Scanner]) *)

Record Scanner : Type := mkScanner {
  open_blocks : list Block;
  matched : Z;
  indentation : Z;
  column : Z;
  code_span_delimiter_length : Z;
  num_emphasis_delimiters : Z;
  num_emphasis_delimiters_left : Z;
  emphasis_delimiters_is_open : Z
}.

Definition set_open_blocks (s : Scanner) (v : list Block) : Scanner :=
  mkScanner v (matched s) (indentation s) (column s)
    (code_span_delimiter_length s) (num_emphasis_delimiters s)
    (num_emphasis_delimiters_left s) (emphasis_delimiters_is_open s).
Definition set_matched (s : Scanner) (v : Z) : Scanner :=
  mkScanner (open_blocks s) v (indentation s) (column s)
    (code_span_delimiter_length s) (num_emphasis_delimiters s)
    (num_emphasis_delimiters_left s) (emphasis_delimiters_is_open s).
Definition set_indentation (s : Scanner) (v : Z) : Scanner :=
  mkScanner (open_blocks s) (matched s) v (column s)
    (code_span_delimiter_length s) (num_emphasis_delimiters s)
    (num_emphasis_delimiters_left s) (emphasis_delimiters_is_open s).
Definition set_column (s : Scanner) (v : Z) : Scanner :=
  mkScanner (open_blocks s) (matched s) (indentation s) v
    (code_span_delimiter_length s) (num_emphasis_delimiters s)
    (num_emphasis_delimiters_left s) (emphasis_delimiters_is_open s).
Definition set_code_span_delimiter_length (s : Scanner) (v : Z) : Scanner :=
  mkScanner (open_blocks s) (matched s) (indentation s) (column s)
    v (num_emphasis_delimiters s)
    (num_emphasis_delimiters_left s) (emphasis_delimiters_is_open s).
Definition set_num_emphasis_delimiters (s : Scanner) (v : Z) : Scanner :=
  mkScanner (open_blocks s) (matched s) (indentation s) (column s)
    (code_span_delimiter_length s) v
    (num_emphasis_delimiters_left s) (emphasis_delimiters_is_open s).
Definition set_num_emphasis_delimiters_left (s : Scanner) (v : Z) : Scanner :=
  mkScanner (open_blocks s) (matched s) (indentation s) (column s)
    (code_span_delimiter_length s) (num_emphasis_delimiters s)
    v (emphasis_delimiters_is_open s).
Definition set_emphasis_delimiters_is_open (s : Scanner) (v : Z) : Scanner :=
  mkScanner (open_blocks s) (matched s) (indentation s) (column s)
    (code_span_delimiter_length s) (num_emphasis_delimiters s)
    (num_emphasis_delimiters_left s) v.

(** [open_blocks.size()], [open_blocks[i]], [push_back], [pop_back]. *)
Definition size (s : Scanner) : Z := Z.of_nat (length (open_blocks s)).
Definition block_at (s : Scanner) (i : Z) : Block :=
  nth (Z.to_nat i) (open_blocks s) 0.
Definition push_back (s : Scanner) (b : Block) : Scanner :=
  set_open_blocks s (open_blocks s ++ [b]).
Definition pop_back (s : Scanner) : Scanner :=
  set_open_blocks s (removelast (open_blocks s)).

(** Every [uint8_t] field holds a byte, and so does every block tag. *)
Definition is_byte (x : Z) : Prop := 0 <= x < 256.

Record wf_scanner (s : Scanner) : Prop := {
  wf_open_blocks : Forall is_byte (open_blocks s);
  wf_matched : is_byte (matched s);
  wf_indentation : is_byte (indentation s);
  wf_column : is_byte (column s);
  wf_code_span_delimiter_length : is_byte (code_span_delimiter_length s);
  wf_num_emphasis_delimiters : is_byte (num_emphasis_delimiters s);
  wf_num_emphasis_delimiters_left : is_byte (num_emphasis_delimiters_left s);
  wf_emphasis_delimiters_is_open : is_byte (emphasis_delimiters_is_open s)
}.

(** ** [serialize] and [deserialize] *)

Definition UINT8_MAX : Z := 255.

(** [serialize] writes the seven scalar fields and then the first
    [blocks_count] tags of the stack; it returns the bytes written, whose
    number is the returned length [i]. *)
Definition serialize (s : Scanner) : list Z * Z :=
  let i := 7 in
  let blocks_count := size s in
  let blocks_count :=
    if blocks_count >? UINT8_MAX - i then UINT8_MAX - i else blocks_count in
  ([ matched s; indentation s; column s; code_span_delimiter_length s;
     num_emphasis_delimiters s; num_emphasis_delimiters_left s;
     emphasis_delimiters_is_open s ]
     ++ firstn (Z.to_nat blocks_count) (open_blocks s),
   i + blocks_count).

(** [size_t] subtraction wraps modulo 2^64. *)
Definition size_t (x : Z) : Z := x mod 2 ^ 64.

(** [vector::resize] beyond [max_size()] throws [std::length_error]. *)
Definition vector_max_size : Z := 2 ^ 63 - 1.

(** The outcome of [deserialize]: the state restored, together with the
    number of leading bytes of [buffer] the call has read; or the exception
    of [resize], with the block count asked for and the bytes read before
    it; or a read outside the storage the buffer has. *)
Inductive DeserializeOutcome : Type :=
| Restored (s : Scanner) (bytes_read : Z)
| LengthError (blocks_count : Z) (bytes_read : Z)
| ReadOutsideBuffer (index : Z).

Definition fresh_scanner : Scanner := mkScanner [] 0 0 0 0 0 0 0.

(** [memcpy(open_blocks.data(), &buffer[i], blocks_count)]. *)
Definition copy_blocks (buffer : list Z) (i blocks_count : Z) : list Block :=
  firstn (Z.to_nat blocks_count) (skipn (Z.to_nat i) buffer).

Definition deserialize (buffer : list Z) (length : Z) : DeserializeOutcome :=
  if length >? 0 then
    match buffer with
    | b0 :: b1 :: b2 :: b3 :: b4 :: b5 :: b6 :: _ =>
        let i := 7 in
        let blocks_count := size_t (length - i) in
        if blocks_count >? vector_max_size then LengthError blocks_count i
        else if i + blocks_count >? Z.of_nat (List.length buffer)
        then ReadOutsideBuffer (Z.of_nat (List.length buffer))
        else Restored
               (mkScanner (copy_blocks buffer i blocks_count)
                  (u8 b0) (u8 b1) (u8 b2) (u8 b3) (u8 b4) (u8 b5) (u8 b6))
               (i + blocks_count)
    | _ => ReadOutsideBuffer (Z.of_nat (List.length buffer))
    end
  else Restored fresh_scanner 0.

(** ** The lexer ([TSLexer]) *)

(** Modelled from the spec: the lexer handle of the host, which
    tree_sitter/parser.h declares and the host implements (spec sections 2
    and 6: a lookahead, [advance(skip)], [mark_end()], [eof()] and the
    [result_symbol] field).  The input is the list of its characters; the
    lookahead at the end of the input is 0 and [advance] does nothing
    there; a skipping [advance] moves the start of the token. *)
Record Lexer : Type := mkLexer {
  text : list Z;
  position : nat;
  token_start : nat;
  token_end : option nat;
  result_symbol : Z
}.

Definition lookahead (l : Lexer) : Z := nth (position l) (text l) 0.
Definition eof (l : Lexer) : bool := (length (text l) <=? position l)%nat.
Definition remaining (l : Lexer) : nat := (length (text l) - position l)%nat.

Definition lexer_advance (l : Lexer) (skip : bool) : Lexer :=
  if eof l then l
  else mkLexer (text l) (S (position l))
         (if skip then S (position l) else token_start l)
         (token_end l) (result_symbol l).

Definition mark_end (l : Lexer) : Lexer :=
  mkLexer (text l) (position l) (token_start l) (Some (position l))
    (result_symbol l).

Definition set_result_symbol (l : Lexer) (t : Z) : Lexer :=
  mkLexer (text l) (position l) (token_start l) (token_end l) t.

(** [if (!check_block) lexer->mark_end(lexer);] *)
Definition mark_end_unless (check_block : bool) (l : Lexer) : Lexer :=
  if check_block then l else mark_end l.

(** ** [advance] *)

(** The columns the lookahead takes at the current column. *)
Definition advance_size (s : Scanner) (l : Lexer) : Z :=
  if lookahead l =? TAB
  then (if column s mod 4 =? 0 then 4 else 4 - column s mod 4)
  else 1.

Definition advance (s : Scanner) (l : Lexer) (skip : bool)
  : Z * Scanner * Lexer :=
  let size := advance_size s l in
  (size, set_column s (u8 (column s + size)), lexer_advance l skip).

(** ** Loops over the lookahead

    Every loop of [scan] tests the lookahead (and some locals) and, when it
    goes on, calls [advance] once.  [while_lookahead] runs such a loop with
    the number of characters left as fuel; [while_lookahead_exit] below
    shows that the fuel is never what stops it. *)

Section Loops.
Context {A : Type}.
Variable test : A -> Z -> bool.
Variable body : A -> Scanner -> Lexer -> A * Scanner * Lexer.

Fixpoint while_fuel (fuel : nat) (a : A) (s : Scanner) (l : Lexer)
  : A * Scanner * Lexer :=
  if test a (lookahead l) then
    match fuel with
    | O => (a, s, l)
    | S fuel' =>
        let '(a', s', l') := body a s l in while_fuel fuel' a' s' l'
    end
  else (a, s, l).

Definition while_lookahead (a : A) (s : Scanner) (l : Lexer)
  : A * Scanner * Lexer :=
  while_fuel (remaining l) a s l.
End Loops.

(** [while (lexer->lookahead == c) { advance(lexer, skip); level++; }] *)
Definition count_run (c : Z) (skip : bool) (s : Scanner) (l : Lexer)
  : Z * Scanner * Lexer :=
  while_lookahead (fun _ la => la =? c)
    (fun level s l =>
       let '(_, s, l) := advance s l skip in (level + 1, s, l))
    0 s l.

(** [while (lookahead == ' ' || lookahead == '\t')
       extra_indentation += advance(lexer, false);] *)
Definition count_whitespace (s : Scanner) (l : Lexer) : Z * Scanner * Lexer :=
  while_lookahead (fun _ la => is_space_or_tab la)
    (fun extra_indentation s l =>
       let '(n, s, l) := advance s l false in (extra_indentation + n, s, l))
    0 s l.

(** ** Results of [scan] *)

(** A call returns a boolean and leaves the scanner and the lexer changed,
    or it runs into undefined behaviour ([open_blocks[size() - 1]] and
    [pop_back()] on an empty vector). *)
Inductive Outcome : Type :=
| Returns (b : bool) (s : Scanner) (l : Lexer)
| Undefined.

(** A [case] of a [switch] returns from [scan] or leaves by [break]. *)
Inductive Flow : Type :=
| Return (o : Outcome)
| Break (s : Scanner) (l : Lexer).

(** ** [scan]: end of file (lines 170-182) *)

Definition close_symbol (block : Block) : Z :=
  if is_loose_list_item block then BLOCK_CLOSE_LOOSE else BLOCK_CLOSE.

Definition scan_eof (s : Scanner) (l : Lexer) : Outcome :=
  if size s >? 0 then
    let block := block_at s (size s - 1) in
    Returns true (pop_back s) (set_result_symbol l (close_symbol block))
  else Returns false s l.

(** ** [scan]: inside the line, [matched > open_blocks.size()]
    (lines 183-309) *)

Definition line_reset (s : Scanner) : Scanner :=
  set_column (set_indentation (set_matched s 0) 0) 0.

Definition case_cr (valid : ValidSymbols) (s : Scanner) (l : Lexer) : Flow :=
  if valid LINE_ENDING then
    let '(_, s, l) := advance s l true in
    let '(s, l) :=
      if lookahead l =? LF
      then let '(_, s, l) := advance s l true in (s, l)
      else (s, l) in
    let '(_, s, l) := advance s l true in
    Return (Returns true (line_reset s) (set_result_symbol l LINE_ENDING))
  else Break s l.

Definition case_lf (valid : ValidSymbols) (s : Scanner) (l : Lexer) : Flow :=
  if valid LINE_ENDING then
    let '(_, s, l) := advance s l true in
    Return (Returns true (line_reset s) (set_result_symbol l LINE_ENDING))
  else Break s l.

Definition case_code_span (valid : ValidSymbols) (s : Scanner) (l : Lexer)
  : Flow :=
  if valid CODE_SPAN_START || valid CODE_SPAN_CLOSE then
    let '(level, s, l) := count_run (chr "`") false s l in
    if (level =? code_span_delimiter_length s) && valid CODE_SPAN_CLOSE then
      Return (Returns true s (set_result_symbol l CODE_SPAN_CLOSE))
    else if valid CODE_SPAN_START then
      Return (Returns true (set_code_span_delimiter_length s (u8 level))
                (set_result_symbol l CODE_SPAN_START))
    else Break s l
  else Break s l.

(** [num_emphasis_delimiters_left--] *)
Definition dec_left (s : Scanner) : Scanner :=
  set_num_emphasis_delimiters_left s (u8 (num_emphasis_delimiters_left s - 1)).

(** One more delimiter of a run whose head has been emitted
    (lines 232-243 and 269-280). *)
Definition emphasis_next (valid : ValidSymbols) (OPEN CLOSE : Z)
  (s : Scanner) (l : Lexer) : Flow :=
  if negb (emphasis_delimiters_is_open s =? 0) && valid OPEN then
    let '(_, s, l) := advance s l true in
    Return (Returns true (dec_left s) (set_result_symbol l OPEN))
  else if valid CLOSE then
    let '(_, s, l) := advance s l true in
    Return (Returns true (dec_left s) (set_result_symbol l CLOSE))
  else Break s l.

(** The head of a run: the whole run is consumed and counted, the end of
    the token is marked after its first delimiter (lines 245-252 and
    282-289). *)
Definition emphasis_loop (c : Z) (s : Scanner) (l : Lexer)
  : unit * Scanner * Lexer :=
  while_lookahead (fun _ la => la =? c)
    (fun (_ : unit) s l =>
       let s := set_num_emphasis_delimiters s
                  (u8 (num_emphasis_delimiters s + 1)) in
       let '(_, s, l) := advance s l true in (tt, s, l))
    tt s l.

Definition emphasis_run (c : Z) (s : Scanner) (l : Lexer) : Scanner * Lexer :=
  let '(_, s, l) := advance s l true in
  let l := mark_end l in
  let s := set_num_emphasis_delimiters s 1 in
  let '(_, s, l) := emphasis_loop c s l in
  (set_num_emphasis_delimiters_left s (num_emphasis_delimiters s), l).

Definition emit_polarity (is_open : Z) (symbol : Z) (s : Scanner) (l : Lexer)
  : Flow :=
  Return (Returns true (dec_left (set_emphasis_delimiters_is_open s is_open))
            (set_result_symbol l symbol)).

Definition case_star_inline (valid : ValidSymbols) (s : Scanner) (l : Lexer)
  : Flow :=
  if num_emphasis_delimiters_left s >? 0 then
    emphasis_next valid EMPHASIS_OPEN_STAR EMPHASIS_CLOSE_STAR s l
  else if valid EMPHASIS_OPEN_STAR || valid EMPHASIS_CLOSE_STAR then
    let '(s, l) := emphasis_run (chr "*") s l in
    let next := lookahead l in
    if valid EMPHASIS_CLOSE_STAR && negb (valid LAST_TOKEN_WHITESPACE)
       && (negb (valid LAST_TOKEN_PUNCTUATION) || is_punctuation next
           || is_whitespace next)
    then emit_polarity 0 EMPHASIS_CLOSE_STAR s l
    else if negb (is_whitespace next)
            && (negb (is_punctuation next) || valid LAST_TOKEN_PUNCTUATION
                || valid LAST_TOKEN_WHITESPACE)
    then emit_polarity 1 EMPHASIS_OPEN_STAR s l
    else Break s l
  else Break s l.

Definition case_underscore_inline (valid : ValidSymbols) (s : Scanner)
  (l : Lexer) : Flow :=
  if num_emphasis_delimiters_left s >? 0 then
    emphasis_next valid EMPHASIS_OPEN_UNDERSCORE EMPHASIS_CLOSE_UNDERSCORE s l
  else if valid EMPHASIS_OPEN_UNDERSCORE || valid EMPHASIS_CLOSE_UNDERSCORE
  then
    let '(s, l) := emphasis_run (chr "_") s l in
    let next := lookahead l in
    let right_flanking :=
      negb (valid LAST_TOKEN_WHITESPACE)
      && (negb (valid LAST_TOKEN_PUNCTUATION) || is_punctuation next
          || is_whitespace next) in
    let left_flanking :=
      negb (is_whitespace next)
      && (negb (is_punctuation next) || valid LAST_TOKEN_PUNCTUATION
          || valid LAST_TOKEN_WHITESPACE) in
    if valid EMPHASIS_CLOSE_UNDERSCORE && right_flanking
       && (negb left_flanking || is_punctuation next)
    then emit_polarity 0 EMPHASIS_CLOSE_UNDERSCORE s l
    else if left_flanking
            && (negb right_flanking || valid LAST_TOKEN_PUNCTUATION)
    then emit_polarity 1 EMPHASIS_OPEN_UNDERSCORE s l
    else Break s l
  else Break s l.

Definition inline_switch (valid : ValidSymbols) (s : Scanner) (l : Lexer)
  : Flow :=
  let c := lookahead l in
  if c =? CR then case_cr valid s l
  else if c =? LF then case_lf valid s l
  else if c =? chr "`" then case_code_span valid s l
  else if c =? chr "*" then case_star_inline valid s l
  else if c =? chr "_" then case_underscore_inline valid s l
  else Break s l.

Definition scan_inline (valid : ValidSymbols) (s : Scanner) (l : Lexer)
  : Outcome :=
  if valid VIRTUAL_SPACE && (indentation s >? 0) then
    Returns true (set_indentation s (u8 (indentation s - 1)))
      (set_result_symbol l VIRTUAL_SPACE)
  else
    match inline_switch valid s l with
    | Return o => o
    | Break s l => Returns false s l
    end.

(** ** [scan]: the start of the line, [matched <= open_blocks.size()]
    (lines 310-775) *)

(** [bool matching = !check_block && matched < open_blocks.size();] *)
Definition matching_of (check_block : bool) (s : Scanner) : bool :=
  negb check_block && (matched s <? size s).

(** Lines 310-320: the leading whitespace of the line. *)
Definition indentation_loop (s : Scanner) (l : Lexer)
  : unit * Scanner * Lexer :=
  while_lookahead (fun _ la => is_space_or_tab la)
    (fun (_ : unit) s l =>
       let '(n, s, l) := advance s l true in
       (tt, set_indentation s (u8 (indentation s + n)), l))
    tt s l.

Definition scan_indentation (s : Scanner) (l : Lexer) : Outcome :=
  let '(_, s, l) := indentation_loop s l in
  Returns true s (set_result_symbol l INDENTATION).

(** Lines 329-348: an indented code block goes on, or a new one opens. *)
Definition indented_chunk (valid : ValidSymbols) (check_block : bool)
  (s : Scanner) (l : Lexer) : Flow :=
  let matching := matching_of check_block s in
  if (valid INDENTED_CHUNK_START && negb matching)
     || (valid BLOCK_CONTINUATION && matching
         && (block_at s (matched s) =? INDENTED_CODE_BLOCK))
  then
    if (indentation s >=? 4) && negb (lookahead l =? LF)
       && negb (lookahead l =? CR)
    then
      if matching then
        if negb check_block then
          Return (Returns true
                    (set_matched (set_indentation s (u8 (indentation s - 4)))
                       (u8 (matched s + 2)))
                    (set_result_symbol l BLOCK_CONTINUATION))
        else Return (Returns true s l)
      else if negb (valid LAZY_CONTINUATION) then
        if negb check_block then
          let s := push_back s INDENTED_CODE_BLOCK in
          Return (Returns true
                    (set_matched (set_indentation s (u8 (indentation s - 4)))
                       (u8 (matched s + 2)))
                    (set_result_symbol l INDENTED_CHUNK_START))
        else Return (Returns true s l)
      else Break s l
    else Break s l
  else Break s l.

(** Lines 349-362: a list item goes on. *)
Definition list_item_continuation (valid : ValidSymbols) (check_block : bool)
  (s : Scanner) (l : Lexer) : Flow :=
  let matching := matching_of check_block s in
  if valid BLOCK_CONTINUATION && matching
     && is_list_item (block_at s (matched s))
  then
    if indentation s >=? list_item_indentation (block_at s (matched s)) then
      let s := set_indentation s
                 (u8 (indentation s
                      - list_item_indentation (block_at s (matched s)))) in
      Return (Returns true (set_matched s (u8 (matched s + 1)))
                (set_result_symbol l BLOCK_CONTINUATION))
    else if is_line_end (lookahead l) then
      Return (Returns true
                (set_matched (set_indentation s 0) (u8 (matched s + 1)))
                (set_result_symbol l BLOCK_CONTINUATION))
    else Break s l
  else Break s l.

(** The loop of lines 370-374. *)
Definition loosen (block : Block) : Block :=
  if is_tight_list_item block
  then to_Block (block + (LOOSE_LIST_ITEM - TIGHT_LIST_ITEM))
  else block.

(** Lines 364-378. *)
Definition case_blank_line (valid : ValidSymbols) (check_block : bool)
  (s : Scanner) (l : Lexer) : Flow :=
  let matching := matching_of check_block s in
  if valid BLANK_LINE && negb matching then
    if negb check_block then
      let s := set_matched s (u8 (matched s + 1)) in
      Return (Returns true (set_open_blocks s (map loosen (open_blocks s)))
                (set_result_symbol l BLANK_LINE))
    else Return (Returns true s l)
  else Break s l.

(** Lines 379-397. *)
Definition case_block_quote (valid : ValidSymbols) (check_block : bool)
  (s : Scanner) (l : Lexer) : Flow :=
  let matching := matching_of check_block s in
  if (valid BLOCK_QUOTE_START && negb matching)
     || (valid BLOCK_CONTINUATION && matching
         && (block_at s (matched s) =? BLOCK_QUOTE))
  then
    if negb check_block then
      let '(_, s, l) := advance s l false in
      let s := set_indentation s 0 in
      let '(s, l) :=
        if is_space_or_tab (lookahead l) then
          let '(n, s, l) := advance s l true in
          (set_indentation s (u8 (indentation s + (n - 1))), l)
        else (s, l) in
      let '(s, l) :=
        if matching then (s, set_result_symbol l BLOCK_CONTINUATION)
        else (push_back s BLOCK_QUOTE, set_result_symbol l BLOCK_QUOTE_START)
      in
      Return (Returns true (set_matched s (u8 (matched s + 1))) l)
    else Return (Returns true s l)
  else Break s l.

(** The closing fence of lines 407-414 and 439-446. *)
Definition close_fence (s : Scanner) (l : Lexer) : Outcome :=
  let s := pop_back s in
  let l := set_result_symbol l BLOCK_CLOSE in
  let s := set_matched s (u8 (matched s + 1)) in
  let s := set_indentation s 0 in
  Returns true s (mark_end l).

(** The opening fence of lines 417-425 and 449-457. *)
Definition open_fence (check_block : bool) (fence : Block) (level : Z)
  (s : Scanner) (l : Lexer) : Outcome :=
  if negb check_block then
    let l := set_result_symbol l FENCED_CODE_BLOCK_START in
    let s := push_back s fence in
    let s := set_code_span_delimiter_length s (u8 level) in
    let s := set_matched s (u8 (matched s + 2)) in
    let s := set_indentation s 0 in
    Returns true s (mark_end l)
  else Returns true s l.

(** Lines 398-429. *)
Definition case_tilde (valid : ValidSymbols) (check_block : bool)
  (s : Scanner) (l : Lexer) : Flow :=
  let matching := matching_of check_block s in
  if (negb matching && valid FENCED_CODE_BLOCK_START)
     || (matching && valid BLOCK_CLOSE
         && (block_at s (matched s) =? FENCED_CODE_BLOCK_TILDE))
  then
    let l := mark_end_unless check_block l in
    let '(level, s, l) := count_run (chr "~") false s l in
    if matching then
      if (level >=? code_span_delimiter_length s)
         && is_line_end (lookahead l)
      then Return (close_fence s l)
      else Break s l
    else
      if level >=? 3
      then Return (open_fence check_block FENCED_CODE_BLOCK_TILDE level s l)
      else Break s l
  else Break s l.

(** Lines 430-461. *)
Definition case_backtick (valid : ValidSymbols) (check_block : bool)
  (s : Scanner) (l : Lexer) : Flow :=
  let matching := matching_of check_block s in
  if (negb matching && valid FENCED_CODE_BLOCK_START)
     || (matching && valid BLOCK_CLOSE
         && (block_at s (matched s) =? FENCED_CODE_BLOCK_BACKTICK))
  then
    let l := mark_end_unless check_block l in
    let '(level, s, l) := count_run (chr "`") false s l in
    if matching then
      if level >=? code_span_delimiter_length s
      then Return (close_fence s l)
      else Break s l
    else
      if (level >=? 3) && is_line_end (lookahead l)
      then Return (open_fence check_block FENCED_CODE_BLOCK_BACKTICK level s l)
      else Break s l
  else Break s l.

(** [while (lexer->lookahead == '#' && level <= 6)] of line 467. *)
Definition atx_loop (s : Scanner) (l : Lexer) : Z * Scanner * Lexer :=
  while_lookahead (fun level la => (la =? chr "#") && (level <=? 6))
    (fun level s l =>
       let '(_, s, l) := advance s l false in (level + 1, s, l))
    0 s l.

(** Lines 462-481. *)
Definition case_atx (valid : ValidSymbols) (check_block : bool)
  (s : Scanner) (l : Lexer) : Flow :=
  let matching := matching_of check_block s in
  if valid ATX_H1_MARKER && (indentation s <=? 3) && negb matching then
    let l := mark_end_unless check_block l in
    let '(level, s, l) := atx_loop s l in
    if (level <=? 6)
       && (is_space_or_tab (lookahead l) || is_line_end (lookahead l))
    then
      if negb check_block then
        let l := set_result_symbol l (ATX_H1_MARKER + (level - 1)) in
        let s := set_matched s (u8 (matched s + 1)) in
        let s := set_indentation s 0 in
        Return (Returns true s (mark_end l))
      else Return (Returns true s l)
    else Break s l
  else Break s l.

(** [while (lookahead == ' ' || lookahead == '\t') advance(lexer, true);]
    of lines 488-490. *)
Definition skip_whitespace (s : Scanner) (l : Lexer)
  : unit * Scanner * Lexer :=
  while_lookahead (fun _ la => is_space_or_tab la)
    (fun (_ : unit) s l =>
       let '(_, s, l) := advance s l true in (tt, s, l))
    tt s l.

(** Lines 482-498. *)
Definition case_setext_h1 (valid : ValidSymbols) (check_block : bool)
  (s : Scanner) (l : Lexer) : Flow :=
  let matching := matching_of check_block s in
  if negb check_block && valid SETEXT_H1_UNDERLINE && negb matching then
    let l := mark_end l in
    let '(_, s, l) := count_run (chr "=") false s l in
    let '(_, s, l) := skip_whitespace s l in
    if is_line_end (lookahead l) then
      let l := set_result_symbol l SETEXT_H1_UNDERLINE in
      let s := set_matched s (u8 (matched s + 1)) in
      Return (Returns true s (mark_end l))
    else Break s l
  else Break s l.

(** The list item of lines 510-520, 561-571, 626-636 and 699-709: the
    block pushed and the indentation left for the content of the item. *)
Definition open_list_item (extra_indentation : Z) (s : Scanner) : Scanner :=
  let extra_indentation := extra_indentation - 1 in
  let '(s, extra_indentation) :=
    if extra_indentation <=? 3
    then (set_indentation s 0, extra_indentation + indentation s)
    else (set_indentation s (u8 extra_indentation), indentation s) in
  let s := push_back s (to_Block (TIGHT_LIST_ITEM + extra_indentation)) in
  set_matched s (u8 (matched s + 1)).

(** Lines 499-525. *)
Definition case_plus (valid : ValidSymbols) (check_block : bool)
  (s : Scanner) (l : Lexer) : Flow :=
  let matching := matching_of check_block s in
  if negb matching && (indentation s <=? 3) && valid LIST_MARKER_PLUS then
    let l := mark_end_unless check_block l in
    let '(_, s, l) := advance s l false in
    let '(extra_indentation, s, l) := count_whitespace s l in
    if extra_indentation >=? 1 then
      if check_block then Return (Returns true s l)
      else
        let l := set_result_symbol l LIST_MARKER_PLUS in
        let s := open_list_item extra_indentation s in
        Return (Returns true s (mark_end l))
    else Break s l
  else Break s l.

(** Lines 539-542. *)
Definition digits_loop (s : Scanner) (l : Lexer) : Z * Scanner * Lexer :=
  while_lookahead (fun _ la => (la >=? chr "0") && (la <=? chr "9"))
    (fun digits s l =>
       let '(_, s, l) := advance s l false in (digits + 1, s, l))
    0 s l.

(** Lines 526-578. *)
Definition case_digit (valid : ValidSymbols) (check_block : bool)
  (s : Scanner) (l : Lexer) : Flow :=
  let matching := matching_of check_block s in
  if negb matching && (indentation s <=? 3)
     && (valid LIST_MARKER_PLUS || valid LIST_MARKER_PARENTHETHIS
         || valid LIST_MARKER_DOT)
  then
    let l := mark_end_unless check_block l in
    let '(digits, s, l) := digits_loop s l in
    if (digits >=? 1) && (digits <=? 9) then
      let '(success, s, l) :=
        if lookahead l =? chr "." then
          let '(_, s, l) := advance s l false in
          (true, s, set_result_symbol l LIST_MARKER_DOT)
        else if lookahead l =? chr ")" then
          let '(_, s, l) := advance s l false in
          (true, s, set_result_symbol l LIST_MARKER_PARENTHETHIS)
        else (false, s, l) in
      if success then
        let '(extra_indentation, s, l) := count_whitespace s l in
        if extra_indentation >=? 1 then
          if check_block then Return (Returns true s l)
          else
            let s := open_list_item extra_indentation s in
            Return (Returns true s (mark_end l))
        else Break s l
      else Break s l
    else Break s l
  else Break s l.

(** The locals of the loop of the ['-'] case (lines 582-585). *)
Record MinusLocals : Type := mkMinusLocals {
  whitespace_after_minus : bool;
  minus_after_whitespace : bool;
  minus_count : Z;
  minus_extra_indentation : Z
}.

(** Lines 587-605. *)
Definition minus_loop (check_block : bool) (s : Scanner) (l : Lexer)
  : MinusLocals * Scanner * Lexer :=
  while_lookahead (fun _ la => (la =? chr "-") || is_space_or_tab la)
    (fun v s l =>
       if lookahead l =? chr "-" then
         let l :=
           if (minus_count v =? 1) && (minus_extra_indentation v >=? 1)
           then mark_end_unless check_block l else l in
         let '(_, s, l) := advance s l false in
         (mkMinusLocals (whitespace_after_minus v) (whitespace_after_minus v)
            (minus_count v + 1) (minus_extra_indentation v), s, l)
       else
         let '(n, s, l) := advance s l false in
         (mkMinusLocals true (minus_after_whitespace v) (minus_count v)
            (if minus_count v =? 1
             then minus_extra_indentation v + n
             else minus_extra_indentation v), s, l))
    (mkMinusLocals false false 0 0) s l.

(** [THEMATIC_BREAK], [SETEXT_H2_UNDERLINE_OR_THEMATIC_BREAK] and
    [SETEXT_H2_UNDERLINE] share their four statements. *)
Definition emit_line_token (symbol : Z) (s : Scanner) (l : Lexer) : Outcome :=
  let l := set_result_symbol l symbol in
  let l := mark_end l in
  let s := set_indentation s 0 in
  Returns true (set_matched s (u8 (matched s + 1))) l.

(** Lines 579-654. *)
Definition case_minus (valid : ValidSymbols) (check_block : bool)
  (s : Scanner) (l : Lexer) : Flow :=
  let matching := matching_of check_block s in
  if negb matching && (indentation s <=? 3)
     && (valid LIST_MARKER_MINUS || valid SETEXT_H2_UNDERLINE
         || valid SETEXT_H2_UNDERLINE_OR_THEMATIC_BREAK
         || valid THEMATIC_BREAK)
  then
    let l := mark_end_unless check_block l in
    let '(v, s, l) := minus_loop check_block s l in
    let line_end := is_line_end (lookahead l) in
    let extra_indentation :=
      if (minus_count v =? 1) && line_end
      then 1 else minus_extra_indentation v in
    let thematic_break := (minus_count v >=? 3) && line_end in
    let underline :=
      (minus_count v >=? 1) && negb (minus_after_whitespace v) && line_end in
    let list_marker_minus :=
      (minus_count v >=? 1) && (extra_indentation >=? 1) in
    if check_block then
      if thematic_break || underline || list_marker_minus
      then Return (Returns true s l)
      else Break s l
    else
      if valid THEMATIC_BREAK && thematic_break && negb underline then
        Return (emit_line_token THEMATIC_BREAK s l)
      else if valid LIST_MARKER_MINUS && list_marker_minus then
        let l := if minus_count v =? 1 then mark_end l else l in
        let s := open_list_item extra_indentation s in
        Return (Returns true s (set_result_symbol l LIST_MARKER_MINUS))
      else if valid SETEXT_H2_UNDERLINE_OR_THEMATIC_BREAK && thematic_break
              && underline
      then Return (emit_line_token SETEXT_H2_UNDERLINE_OR_THEMATIC_BREAK s l)
      else if valid SETEXT_H2_UNDERLINE && underline then
        Return (emit_line_token SETEXT_H2_UNDERLINE s l)
      else Break s l
  else Break s l.

(** Lines 661-677: the locals are [star_count] and [extra_indentation]. *)
Definition star_loop (check_block : bool) (s : Scanner) (l : Lexer)
  : (Z * Z) * Scanner * Lexer :=
  while_lookahead (fun _ la => (la =? chr "*") || is_space_or_tab la)
    (fun '(star_count, extra_indentation) s l =>
       if lookahead l =? chr "*" then
         let l :=
           if (star_count =? 1) && (extra_indentation >=? 1)
           then mark_end_unless check_block l else l in
         let '(_, s, l) := advance s l false in
         ((star_count + 1, extra_indentation), s, l)
       else
         let '(n, s, l) := advance s l false in
         ((star_count,
           if star_count =? 1 then extra_indentation + n
           else extra_indentation), s, l))
    (0, 0) s l.

(** Lines 655-716. *)
Definition case_star (valid : ValidSymbols) (check_block : bool)
  (s : Scanner) (l : Lexer) : Flow :=
  let matching := matching_of check_block s in
  if negb matching && (indentation s <=? 3)
     && (valid LIST_MARKER_STAR || valid THEMATIC_BREAK)
  then
    let l := mark_end_unless check_block l in
    let '((star_count, extra_indentation), s, l) :=
      star_loop check_block s l in
    let line_end := is_line_end (lookahead l) in
    let extra_indentation :=
      if (star_count =? 1) && line_end then 1 else extra_indentation in
    let thematic_break := (star_count >=? 3) && line_end in
    let list_marker_star := (star_count >=? 1) && (extra_indentation >=? 1) in
    if check_block then
      if thematic_break || list_marker_star
      then Return (Returns true s l)
      else Break s l
    else
      if valid THEMATIC_BREAK && thematic_break then
        Return (emit_line_token THEMATIC_BREAK s l)
      else if valid LIST_MARKER_STAR && list_marker_star then
        let l := if star_count =? 1 then mark_end l else l in
        let s := open_list_item extra_indentation s in
        let l := set_result_symbol l LIST_MARKER_STAR in
        Return (Returns true s (if star_count =? 1 then mark_end l else l))
      else Break s l
  else Break s l.

(** Lines 721-730. *)
Definition underscore_loop (s : Scanner) (l : Lexer) : Z * Scanner * Lexer :=
  while_lookahead (fun _ la => (la =? chr "_") || is_space_or_tab la)
    (fun underscore_count s l =>
       if lookahead l =? chr "_" then
         let '(_, s, l) := advance s l false in
         (underscore_count + 1, s, l)
       else
         let '(_, s, l) := advance s l false in (underscore_count, s, l))
    0 s l.

(** Lines 717-742. *)
Definition case_underscore (valid : ValidSymbols) (check_block : bool)
  (s : Scanner) (l : Lexer) : Flow :=
  let matching := matching_of check_block s in
  if negb matching && (indentation s <=? 3) && valid THEMATIC_BREAK then
    let l := mark_end_unless check_block l in
    let '(underscore_count, s, l) := underscore_loop s l in
    let line_end := is_line_end (lookahead l) in
    if (underscore_count >=? 3) && line_end then
      if negb check_block
      then Return (emit_line_token THEMATIC_BREAK s l)
      else Return (Returns true s l)
    else Break s l
  else Break s l.

(** The [switch] of lines 363-743. *)
Definition block_switch (valid : ValidSymbols) (check_block : bool)
  (s : Scanner) (l : Lexer) : Flow :=
  let c := lookahead l in
  if (c =? LF) || (c =? CR) then case_blank_line valid check_block s l
  else if c =? chr ">" then case_block_quote valid check_block s l
  else if c =? chr "~" then case_tilde valid check_block s l
  else if c =? chr "`" then case_backtick valid check_block s l
  else if c =? chr "#" then case_atx valid check_block s l
  else if c =? chr "=" then case_setext_h1 valid check_block s l
  else if c =? chr "+" then case_plus valid check_block s l
  else if (c >=? chr "0") && (c <=? chr "9")
  then case_digit valid check_block s l
  else if c =? chr "-" then case_minus valid check_block s l
  else if c =? chr "*" then case_star valid check_block s l
  else if c =? chr "_" then case_underscore valid check_block s l
  else Break s l.

(** Lines 762-769: the deepest block is closed.  The vector is empty here
    when the probe of line 753 has popped its only block. *)
Definition close_block (s : Scanner) (l : Lexer) : Outcome :=
  if size s >? 0 then
    let block := block_at s (size s - 1) in
    Returns true (pop_back s) (set_result_symbol l (close_symbol block))
  else Undefined.

(** Lines 744-775, reached after the [switch]; [probe] is the call
    [scan(lexer, valid_symbols, true)] of line 753. *)
Definition scan_tail (probe : Scanner -> Lexer -> Outcome)
  (valid : ValidSymbols) (check_block : bool) (matching : bool)
  (s : Scanner) (l : Lexer) : Outcome :=
  if negb check_block && matching && valid BLOCK_CONTINUATION
     && ((block_at s (matched s) =? FENCED_CODE_BLOCK_TILDE)
         || (block_at s (matched s) =? FENCED_CODE_BLOCK_BACKTICK))
  then
    let s := set_matched s (u8 (matched s + 2)) in
    Returns true (set_indentation s 0)
      (set_result_symbol l BLOCK_CONTINUATION)
  else if matching then
    let l := mark_end l in
    if valid LAZY_CONTINUATION then
      match probe s l with
      | Undefined => Undefined
      | Returns false s l =>
          let l := set_result_symbol l LAZY_CONTINUATION in
          let s := set_indentation s 0 in
          Returns true (set_matched s (u8 (size s + 1))) l
      | Returns true s l => close_block s l
      end
    else close_block s l
  else if negb check_block then
    Returns true (set_matched s (u8 (matched s + 1)))
      (set_result_symbol l MATCHING_DONE)
  else Returns false s l.

(** The body of [scan], with the recursive call as a parameter. *)
Definition scan_body (probe : Scanner -> Lexer -> Outcome)
  (valid : ValidSymbols) (check_block : bool) (s : Scanner) (l : Lexer)
  : Outcome :=
  if eof l then scan_eof s l
  else if matched s >? size s then scan_inline valid s l
  else if valid INDENTATION && is_space_or_tab (lookahead l)
  then scan_indentation s l
  else
    let matching := matching_of check_block s in
    match indented_chunk valid check_block s l with
    | Return o => o
    | Break s l =>
        match list_item_continuation valid check_block s l with
        | Return o => o
        | Break s l =>
            match block_switch valid check_block s l with
            | Return o => o
            | Break s l => scan_tail probe valid check_block matching s l
            end
        end
    end.

(** The call of line 753 has [check_block = true], so that its [matching]
    is false and it never reaches line 753 itself ([probe_never_recurses]
    below): the recursion of [scan] is one call deep. *)
Definition scan_probe (valid : ValidSymbols) (s : Scanner) (l : Lexer)
  : Outcome :=
  scan_body (fun _ _ => Undefined) valid true s l.

Definition scan (valid : ValidSymbols) (check_block : bool)
  (s : Scanner) (l : Lexer) : Outcome :=
  scan_body (scan_probe valid) valid check_block s l.

(** [tree_sitter_markdown_external_scanner_scan] *)
Definition external_scanner_scan (valid : ValidSymbols) (s : Scanner)
  (l : Lexer) : Outcome :=
  scan valid false s l.

(** ** Calls on concrete inputs *)

(** The mask in which exactly the listed tokens are valid. *)
Definition valid_of (tokens : list Z) : ValidSymbols :=
  fun t => existsb (Z.eqb t) tokens.

(** A lexer at the start of the given characters. *)
Definition lexer_of (chars : list ascii) : Lexer :=
  mkLexer (map chr chars) 0 0 None 0.

(** Modelled from the spec: the host, which owns the lexer (it is not part
    of this repository's sources), lexes the next token from the end of the
    token the scanner has just emitted: the position marked by [mark_end],
    or where the call stopped when it marked none. *)
Definition host_resume (l : Lexer) : Lexer :=
  let p := match token_end l with Some p => p | None => position l end in
  mkLexer (text l) p p None (result_symbol l).

(** ** The steps of the state machine

    What a call does to the stack and to [matched], case by case; the
    theorems below read the properties of [scan] off this relation once
    [scan_transition] has shown that every call that returns [true] makes
    one of these steps. *)

(** Everything but [column] is as before. *)
Record frame (s s' : Scanner) : Prop := {
  frame_open_blocks : open_blocks s' = open_blocks s;
  frame_matched : matched s' = matched s;
  frame_indentation : indentation s' = indentation s;
  frame_code_span : code_span_delimiter_length s' = code_span_delimiter_length s;
  frame_num : num_emphasis_delimiters s' = num_emphasis_delimiters s;
  frame_left :
    num_emphasis_delimiters_left s' = num_emphasis_delimiters_left s;
  frame_is_open :
    emphasis_delimiters_is_open s' = emphasis_delimiters_is_open s
}.

(** The lexer has gone forward in the same text, with the same result
    symbol. *)
Record lexer_frame (l l' : Lexer) : Prop := {
  frame_text : text l' = text l;
  frame_result_symbol : result_symbol l' = result_symbol l;
  frame_position : (position l <= position l')%nat
}.

(** [indentation] is as before, or it has been assigned a byte. *)
Definition indentation_kept (s s' : Scanner) : Prop :=
  indentation s' = indentation s \/ is_byte (indentation s').

(** A call that leaves the stack and [matched] alone. *)
Definition quiet (s s' : Scanner) : Prop :=
  open_blocks s' = open_blocks s /\ matched s' = matched s.

Definition is_fence (block : Block) : bool :=
  (block =? FENCED_CODE_BLOCK_TILDE) || (block =? FENCED_CODE_BLOCK_BACKTICK).

(** The block [open_list_item] pushes for a marker followed by
    [extra_indentation] columns of whitespace at indentation [indent]. *)
Definition list_item_block (indent extra_indentation : Z) : Block :=
  to_Block (TIGHT_LIST_ITEM
            + (if extra_indentation - 1 <=? 3
               then extra_indentation - 1 + indent else indent)).

(** The [extra_indentation] that [scan] has measured behind a list marker
    when it calls [open_list_item], for each of the four cases. *)
Definition plus_extra (s : Scanner) (l : Lexer) : Z :=
  let '(_, s, l) := advance s (mark_end_unless false l) false in
  fst (fst (count_whitespace s l)).

Definition digit_extra (tok : Z) (s : Scanner) (l : Lexer) : Z :=
  let '(_, s, l) := digits_loop s (mark_end_unless false l) in
  let '(_, s, l) := advance s l false in
  fst (fst (count_whitespace s (set_result_symbol l tok))).

Definition minus_extra (s : Scanner) (l : Lexer) : Z :=
  let '(v, _, l) := minus_loop false s (mark_end_unless false l) in
  if (minus_count v =? 1) && is_line_end (lookahead l)
  then 1 else minus_extra_indentation v.

Definition star_extra (s : Scanner) (l : Lexer) : Z :=
  let '((star_count, extra_indentation), _, l) :=
    star_loop false s (mark_end_unless false l) in
  if (star_count =? 1) && is_line_end (lookahead l)
  then 1 else extra_indentation.

Definition marker_extra (s : Scanner) (l : Lexer) (tok : Z) : Z :=
  if tok =? LIST_MARKER_PLUS then plus_extra s l
  else if tok =? LIST_MARKER_MINUS then minus_extra s l
  else if tok =? LIST_MARKER_STAR then star_extra s l
  else digit_extra tok s l.

(** The tokens that open a list item, with what the mask holds for each. *)
Definition list_marker (valid : ValidSymbols) (tok : Z) : Prop :=
  (tok = LIST_MARKER_PLUS /\ valid LIST_MARKER_PLUS = true)
  \/ (tok = LIST_MARKER_MINUS /\ valid LIST_MARKER_MINUS = true)
  \/ (tok = LIST_MARKER_STAR /\ valid LIST_MARKER_STAR = true)
  \/ ((tok = LIST_MARKER_DOT \/ tok = LIST_MARKER_PARENTHETHIS)
      /\ (valid LIST_MARKER_PLUS || valid LIST_MARKER_PARENTHETHIS
          || valid LIST_MARKER_DOT) = true).

(** The characters of each list marker: the bullet at the lookahead, or
    digits at the lookahead and the delimiter behind them. *)
Definition marker_chars (tok : Z) (s : Scanner) (l : Lexer) : bool :=
  if tok =? LIST_MARKER_PLUS then lookahead l =? chr "+"
  else if tok =? LIST_MARKER_MINUS then lookahead l =? chr "-"
  else if tok =? LIST_MARKER_STAR then lookahead l =? chr "*"
  else
    let '(_, _, l1) := digits_loop s (mark_end_unless false l) in
    (lookahead l >=? chr "0") && (lookahead l <=? chr "9")
    && (if tok =? LIST_MARKER_DOT then lookahead l1 =? chr "."
        else lookahead l1 =? chr ")").

Inductive Transition (valid : ValidSymbols) (s : Scanner) (l : Lexer)
  : Scanner -> Z -> Prop :=
| T_eof s' :
    eof l = true -> size s > 0 ->
    open_blocks s' = removelast (open_blocks s) -> matched s' = matched s ->
    Transition valid s l s' (close_symbol (block_at s (size s - 1)))
| T_virtual_space s' :
    eof l = false -> matched s > size s -> valid VIRTUAL_SPACE = true ->
    quiet s s' ->
    Transition valid s l s' VIRTUAL_SPACE
| T_line_ending s' :
    eof l = false -> matched s > size s -> valid LINE_ENDING = true ->
    open_blocks s' = open_blocks s ->
    matched s' = 0 -> indentation s' = 0 -> column s' = 0 ->
    Transition valid s l s' LINE_ENDING
| T_inline s' tok :
    eof l = false -> matched s > size s -> valid tok = true ->
    tok = CODE_SPAN_START \/ tok = CODE_SPAN_CLOSE
    \/ tok = EMPHASIS_OPEN_STAR \/ tok = EMPHASIS_OPEN_UNDERSCORE
    \/ tok = EMPHASIS_CLOSE_STAR \/ tok = EMPHASIS_CLOSE_UNDERSCORE ->
    quiet s s' ->
    Transition valid s l s' tok
| T_emphasis_open s' tok :
    eof l = false -> matched s > size s ->
    (tok = EMPHASIS_OPEN_STAR /\ valid EMPHASIS_CLOSE_STAR = true)
    \/ (tok = EMPHASIS_OPEN_UNDERSCORE
        /\ valid EMPHASIS_CLOSE_UNDERSCORE = true) ->
    quiet s s' ->
    Transition valid s l s' tok
| T_indentation s' :
    eof l = false -> matched s <= size s -> valid INDENTATION = true ->
    quiet s s' ->
    Transition valid s l s' INDENTATION
| T_continuation_indented s' :
    eof l = false -> matched s < size s ->
    valid BLOCK_CONTINUATION = true ->
    block_at s (matched s) = INDENTED_CODE_BLOCK ->
    open_blocks s' = open_blocks s -> matched s' = u8 (matched s + 2) ->
    Transition valid s l s' BLOCK_CONTINUATION
| T_indented_chunk s' :
    eof l = false -> matched s = size s ->
    valid INDENTED_CHUNK_START = true ->
    open_blocks s' = open_blocks s ++ [INDENTED_CODE_BLOCK] ->
    matched s' = u8 (matched s + 2) ->
    Transition valid s l s' INDENTED_CHUNK_START
| T_continuation s' :
    eof l = false -> matched s < size s ->
    valid BLOCK_CONTINUATION = true ->
    is_list_item (block_at s (matched s)) = true
    \/ block_at s (matched s) = BLOCK_QUOTE ->
    open_blocks s' = open_blocks s -> matched s' = u8 (matched s + 1) ->
    Transition valid s l s' BLOCK_CONTINUATION
| T_blank_line s' :
    eof l = false -> matched s = size s -> valid BLANK_LINE = true ->
    open_blocks s' = map loosen (open_blocks s) ->
    matched s' = u8 (matched s + 1) ->
    Transition valid s l s' BLANK_LINE
| T_block_quote_start s' :
    eof l = false -> matched s = size s -> valid BLOCK_QUOTE_START = true ->
    open_blocks s' = open_blocks s ++ [BLOCK_QUOTE] ->
    matched s' = u8 (matched s + 1) ->
    Transition valid s l s' BLOCK_QUOTE_START
| T_fence_close s' :
    eof l = false -> matched s < size s -> valid BLOCK_CLOSE = true ->
    is_fence (block_at s (matched s)) = true ->
    open_blocks s' = removelast (open_blocks s) ->
    matched s' = u8 (matched s + 1) -> indentation s' = 0 ->
    Transition valid s l s' BLOCK_CLOSE
| T_fence_open s' fence :
    eof l = false -> matched s = size s ->
    valid FENCED_CODE_BLOCK_START = true ->
    open_blocks s' = open_blocks s ++ [fence] -> is_fence fence = true ->
    matched s' = u8 (matched s + 2) ->
    Transition valid s l s' FENCED_CODE_BLOCK_START
| T_atx s' level :
    eof l = false -> matched s = size s -> valid ATX_H1_MARKER = true ->
    indentation s <= 3 -> 1 <= level <= 6 ->
    open_blocks s' = open_blocks s -> matched s' = u8 (matched s + 1) ->
    Transition valid s l s' (ATX_H1_MARKER + (level - 1))
| T_line_token s' tok :
    eof l = false -> matched s = size s -> valid tok = true ->
    tok = SETEXT_H1_UNDERLINE
    \/ (indentation s <= 3
        /\ (tok = THEMATIC_BREAK \/ tok = SETEXT_H2_UNDERLINE
            \/ tok = SETEXT_H2_UNDERLINE_OR_THEMATIC_BREAK)) ->
    open_blocks s' = open_blocks s -> matched s' = u8 (matched s + 1) ->
    Transition valid s l s' tok
| T_list_marker s' tok extra_indentation :
    eof l = false -> matched s = size s -> list_marker valid tok ->
    marker_chars tok s l = true ->
    indentation s <= 3 ->
    open_blocks s'
    = open_blocks s ++ [list_item_block (indentation s) extra_indentation] ->
    1 <= extra_indentation ->
    extra_indentation = marker_extra s l tok ->
    indentation s'
    = (if extra_indentation - 1 <=? 3 then 0 else u8 (extra_indentation - 1)) ->
    matched s' = u8 (matched s + 1) ->
    Transition valid s l s' tok
| T_continuation_fenced s' :
    eof l = false -> matched s < size s ->
    valid BLOCK_CONTINUATION = true ->
    is_fence (block_at s (matched s)) = true ->
    open_blocks s' = open_blocks s -> matched s' = u8 (matched s + 2) ->
    Transition valid s l s' BLOCK_CONTINUATION
| T_lazy s' :
    eof l = false -> matched s < size s ->
    valid LAZY_CONTINUATION = true ->
    open_blocks s' = open_blocks s -> matched s' = u8 (size s + 1) ->
    Transition valid s l s' LAZY_CONTINUATION
| T_close s' :
    eof l = false -> matched s < size s ->
    open_blocks s' = removelast (open_blocks s) -> matched s' = matched s ->
    Transition valid s l s' (close_symbol (block_at s (size s - 1)))
| T_close_after_probe s' :
    eof l = false -> matched s < size s -> size s >= 2 ->
    valid LAZY_CONTINUATION = true -> valid BLOCK_CLOSE = true ->
    is_fence (block_at s (matched s)) = true ->
    open_blocks s' = removelast (removelast (open_blocks s)) ->
    matched s' = matched s ->
    Transition valid s l s' (close_symbol (block_at s (size s - 2)))
| T_matching_done s' :
    eof l = false -> matched s = size s ->
    open_blocks s' = open_blocks s -> matched s' = u8 (matched s + 1) ->
    Transition valid s l s' MATCHING_DONE.

(** The only way into undefined behaviour: the single open block is a
    fence, and the probe for a lazy continuation has closed it at the end
    of the input. *)
Definition undefined_call (valid : ValidSymbols) (s : Scanner) : Prop :=
  size s = 1 /\ matched s < size s
  /\ is_fence (block_at s (matched s)) = true
  /\ valid LAZY_CONTINUATION = true /\ valid BLOCK_CLOSE = true.

(** ** Sequences of calls *)

(** The scanner after a call made by the host, with the token emitted when
    the call returned [true]. *)
Definition call (s : Scanner) (tok : option Z) (s' : Scanner) : Prop :=
  exists valid l b l',
    external_scanner_scan valid s l = Returns b s' l'
    /\ tok = (if b then Some (result_symbol l') else None).

(** The states a scanner goes through from its creation. *)
Inductive reachable : Scanner -> Prop :=
| reachable_fresh : reachable fresh_scanner
| reachable_call s tok s' : reachable s -> call s tok s' -> reachable s'.


(** Indented and fenced code blocks hold no other block. *)
Definition is_leaf (block : Block) : bool :=
  (block =? INDENTED_CODE_BLOCK) || is_fence block.

(** The shape of the stack of a reachable scanner: a leaf block is the
    deepest one, and the line never starts a block inside it. *)
Record stack_shape (s : Scanner) : Prop := {
  shape_matched : is_byte (matched s);
  shape_indentation : is_byte (indentation s);
  shape_inner :
    forall i, 0 <= i < size s - 1 -> is_leaf (block_at s i) = false;
  shape_top :
    size s > 0 -> is_leaf (block_at s (size s - 1)) = true ->
    matched s <> size s
}.

(** What a [case] of the [switch] does when [scan] only probes
    ([check_block = true]): nothing but [column] changes. *)
Definition flow_frames (s : Scanner) (fl : Flow) : Prop :=
  match fl with
  | Return (Returns b s' _) => b = true /\ frame s s'
  | Return Undefined => False
  | Break s' _ => frame s s'
  end.

(** What a [case] does in a call of the host ([check_block = false]): it
    returns after one of the steps, or it leaves by [break] with nothing
    but [column] changed - and, while a block is being matched, with the
    lexer moved only by the search for a closing fence. *)
Definition flow_transition (valid : ValidSymbols) (s : Scanner) (l : Lexer)
  (fl : Flow) : Prop :=
  match fl with
  | Return (Returns b s' l') =>
      b = true /\ Transition valid s l s' (result_symbol l')
      /\ indentation_kept s s'
  | Return Undefined => False
  | Break s' l' =>
      frame s s'
      /\ (matched s < size s ->
          (s' = s /\ l' = l)
          \/ (is_fence (block_at s (matched s)) = true
              /\ valid BLOCK_CLOSE = true))
  end.

(** What a [case] of the [switch] inside the line does. *)
Definition inline_result (valid : ValidSymbols) (s : Scanner) (l : Lexer)
  (fl : Flow) : Prop :=
  match fl with
  | Return (Returns b s' l') =>
      b = true /\ Transition valid s l s' (result_symbol l')
      /\ indentation_kept s s'
  | Return Undefined => False
  | Break s' _ => quiet s s' /\ indentation s' = indentation s
  end.



(** ** Runs of characters in the input *)

(** The characters from the lookahead on. *)
Definition rest (l : Lexer) : list Z := skipn (position l) (text l).

(** The length of the run of [c] that a list of characters starts with. *)
Fixpoint run_length (c : Z) (chars : list Z) : nat :=
  match chars with
  | x :: chars' => if x =? c then S (run_length c chars') else O
  | [] => O
  end.




(** ** The whitespace behind a list marker *)

(** The columns of the spaces and tabs that [chars] starts with, the first
    of them standing at column [col]; a tab goes to the next multiple of
    four. *)
Fixpoint whitespace_columns (col : Z) (chars : list Z) : Z :=
  match chars with
  | c :: chars =>
      if is_space_or_tab c then
        let size :=
          if c =? TAB then (if col mod 4 =? 0 then 4 else 4 - col mod 4)
          else 1 in
        size + whitespace_columns (u8 (col + size)) chars
      else 0
  | [] => 0
  end.

(** What is left of [chars] behind its leading spaces and tabs. *)
Fixpoint skip_spaces (chars : list Z) : list Z :=
  match chars with
  | c :: chars' => if is_space_or_tab c then skip_spaces chars' else chars
  | [] => []
  end.

(** The number of digits that [chars] starts with. *)
Fixpoint digit_run (chars : list Z) : nat :=
  match chars with
  | c :: chars =>
      if (c >=? chr "0") && (c <=? chr "9") then S (digit_run chars) else O
  | [] => O
  end.

(** The count [s] of the list-item rule, read off the text of the line:
    the columns of whitespace behind the marker - behind the digits and the
    delimiter of an ordered one - and 1 for a ['-'] or ['*'] that has only
    whitespace between it and the end of its line. *)
Definition post_marker_columns (tok : Z) (s : Scanner) (l : Lexer) : Z :=
  if (tok =? LIST_MARKER_DOT) || (tok =? LIST_MARKER_PARENTHETHIS) then
    let digits := digit_run (rest l) in
    whitespace_columns (u8 (column s + Z.of_nat digits + 1))
      (skipn (S digits) (rest l))
  else
    let after := tl (rest l) in
    if negb (tok =? LIST_MARKER_PLUS)
       && is_line_end (hd 0 (skip_spaces after))
    then 1
    else whitespace_columns (u8 (column s + 1)) after.

(** The content indent of the rule as the specification words it:
    [indent_at_line_start + w + min(s, 4)]. *)
Definition claimed_content_indent (indent w s : Z) : Z :=
  indent + w + Z.min s 4.


(** ** Runs of emphasis delimiters *)

(** The calls the host makes for the rest of a run: each has its own mask
    and starts where the token before it ended.  The tokens are
    collected until a call emits none. *)
Fixpoint run_calls (masks : list ValidSymbols) (s : Scanner) (l : Lexer)
  : list Z * Scanner * Lexer :=
  match masks with
  | [] => ([], s, l)
  | valid :: masks =>
      match scan valid false s l with
      | Returns true s' l' =>
          let '(tokens, s'', l'') := run_calls masks s' (host_resume l') in
          (result_symbol l' :: tokens, s'', l'')
      | _ => ([], s, l)
      end
  end.

(** The two kinds of delimiter with their tokens. *)
Definition emphasis_tokens (c OPEN CLOSE : Z) : Prop :=
  (c = chr "*" /\ OPEN = EMPHASIS_OPEN_STAR /\ CLOSE = EMPHASIS_CLOSE_STAR)
  \/ (c = chr "_" /\ OPEN = EMPHASIS_OPEN_UNDERSCORE
      /\ CLOSE = EMPHASIS_CLOSE_UNDERSCORE).

(** The flanking rules, on the mask and the character behind the run. *)
Definition right_flanking (valid : ValidSymbols) (next : Z) : bool :=
  negb (valid LAST_TOKEN_WHITESPACE)
  && (negb (valid LAST_TOKEN_PUNCTUATION) || is_punctuation next
      || is_whitespace next).

Definition left_flanking (valid : ValidSymbols) (next : Z) : bool :=
  negb (is_whitespace next)
  && (negb (is_punctuation next) || valid LAST_TOKEN_PUNCTUATION
      || valid LAST_TOKEN_WHITESPACE).

(** Whether the head of a run of [c] is a closing delimiter. *)
Definition head_closes (c : Z) (valid : ValidSymbols) (next : Z) : bool :=
  if c =? chr "*"
  then valid EMPHASIS_CLOSE_STAR && right_flanking valid next
  else valid EMPHASIS_CLOSE_UNDERSCORE && right_flanking valid next
       && (negb (left_flanking valid next) || is_punctuation next).

(** ** Block tags *)

(** The values of [enum Block], which are the indices of [BLOCK_NAME]. *)
Definition is_block (b : Block) : Prop :=
  BLOCK_QUOTE <= b <= FENCED_CODE_BLOCK_BACKTICK.

(** ** Lines of markers *)

(** The number of [c] among the [c], spaces and tabs that [chars] starts
    with, and what follows them. *)
Fixpoint marker_count (c : Z) (chars : list Z) : nat :=
  match chars with
  | x :: chars =>
      if x =? c then S (marker_count c chars)
      else if is_space_or_tab x then marker_count c chars
      else O
  | [] => O
  end.

Fixpoint skip_markers (c : Z) (chars : list Z) : list Z :=
  match chars with
  | x :: chars' =>
      if (x =? c) || is_space_or_tab x then skip_markers c chars' else chars
  | [] => []
  end.

(** Whether the last [c] of the [c], spaces and tabs that [chars] starts
    with stands behind a space or tab ([spaced]: one has been seen
    already). *)
Fixpoint marker_after_space (c : Z) (spaced : bool) (chars : list Z) : bool :=
  match chars with
  | x :: chars =>
      if x =? c then
        if (0 <? marker_count c chars)%nat
        then marker_after_space c spaced chars else spaced
      else if is_space_or_tab x then marker_after_space c true chars
      else false
  | [] => false
  end.

(** The token of a line that starts with ['-'], by what the mask holds
    and what the line is: [k] its number of ['-'], [line_end] whether
    nothing but ['-'], spaces and tabs comes before its end, [spaced]
    whether a ['-'] stands behind a space or tab, and [e] the
    [extra_indentation] of the list-item rule. *)
Definition dash_line_token (valid : ValidSymbols) (k : nat)
  (line_end spaced : bool) (e : Z) : Z :=
  let thematic_break := (3 <=? k)%nat && line_end in
  let underline := negb spaced && line_end in
  if valid THEMATIC_BREAK && thematic_break && negb underline
  then THEMATIC_BREAK
  else if valid LIST_MARKER_MINUS && (1 <=? e) then LIST_MARKER_MINUS
  else if valid SETEXT_H2_UNDERLINE_OR_THEMATIC_BREAK && thematic_break
          && underline
  then SETEXT_H2_UNDERLINE_OR_THEMATIC_BREAK
  else if valid SETEXT_H2_UNDERLINE && underline then SETEXT_H2_UNDERLINE
  else MATCHING_DONE.

(** The same for a line that starts with ['*']. *)
Definition star_line_token (valid : ValidSymbols) (k : nat)
  (line_end : bool) (e : Z) : Z :=
  if valid THEMATIC_BREAK && (3 <=? k)%nat && line_end then THEMATIC_BREAK
  else if valid LIST_MARKER_STAR && (1 <=? e) then LIST_MARKER_STAR
  else MATCHING_DONE.

(** Whether the head of a run of [c] is an opening delimiter, where it
    is not a closing one (lines 259-260 and 299). *)
Definition head_opens (c : Z) (valid : ValidSymbols) (next : Z) : bool :=
  if c =? chr "*" then left_flanking valid next
  else left_flanking valid next
       && (negb (right_flanking valid next) || valid LAST_TOKEN_PUNCTUATION).

(** The token the flanking rules choose for the head of a run, if any. *)
Definition head_token (c OPEN CLOSE : Z) (valid : ValidSymbols) (next : Z)
  : option Z :=
  if head_closes c valid next then Some CLOSE
  else if head_opens c valid next then Some OPEN
  else None.

(** ** The closing fence of the specification *)



(** * Properties *)

(** ** Bytes *)

Lemma u8_byte (x : Z) : is_byte (u8 x).
Proof. unfold is_byte, u8. apply Z.mod_pos_bound. lia. Qed.

Lemma u8_id (x : Z) : is_byte x -> u8 x = x.
Proof. unfold is_byte, u8. intros H. apply Z.mod_small. exact H. Qed.

Lemma u8_le (x : Z) : 0 <= x -> u8 x <= x.
Proof. unfold u8. intros H. apply Z.mod_le; lia. Qed.

Lemma u8_succ_neq (x : Z) : 0 <= x -> u8 (x + 1) <> x.
Proof.
  unfold u8. intros H E.
  pose proof (Z.div_mod (x + 1) 256 ltac:(lia)).
  pose proof (Z.mod_pos_bound (x + 1) 256 ltac:(lia)). lia.
Qed.

(** ** The lexer *)

Lemma lookahead_eof (l : Lexer) : eof l = true -> lookahead l = 0.
Proof.
  unfold eof, lookahead. intros H. apply Nat.leb_le in H.
  apply nth_overflow. exact H.
Qed.

Lemma lookahead_nonzero (l : Lexer) : lookahead l <> 0 -> eof l = false.
Proof.
  intros H. destruct (eof l) eqn:E; [|reflexivity].
  apply lookahead_eof in E. contradiction.
Qed.

Lemma remaining_advance (l : Lexer) (skip : bool) :
  eof l = false -> remaining (lexer_advance l skip) = pred (remaining l).
Proof.
  unfold lexer_advance, remaining. intros E. rewrite E. cbn [text position].
  unfold eof in E. apply Nat.leb_gt in E. lia.
Qed.

Lemma remaining_mark_end_unless (c : bool) (l : Lexer) :
  remaining (mark_end_unless c l) = remaining l.
Proof. destruct c; reflexivity. Qed.

Lemma lookahead_mark_end_unless (c : bool) (l : Lexer) :
  lookahead (mark_end_unless c l) = lookahead l.
Proof. destruct c; reflexivity. Qed.

Lemma eof_mark_end_unless (c : bool) (l : Lexer) :
  eof (mark_end_unless c l) = eof l.
Proof. destruct c; reflexivity. Qed.

Lemma result_mark_end_unless (c : bool) (l : Lexer) :
  result_symbol (mark_end_unless c l) = result_symbol l.
Proof. destruct c; reflexivity. Qed.

(** ** [advance] *)

Lemma frame_refl (s : Scanner) : frame s s.
Proof. constructor; reflexivity. Qed.

Lemma frame_trans (s1 s2 s3 : Scanner) : frame s1 s2 -> frame s2 s3 -> frame s1 s3.
Proof. intros [] []. constructor; congruence. Qed.

Lemma advance_size_bounds (s : Scanner) (l : Lexer) :
  1 <= advance_size s l <= 4.
Proof.
  unfold advance_size.
  destruct (lookahead l =? TAB); [|lia].
  pose proof (Z.mod_pos_bound (column s) 4 ltac:(lia)).
  destruct (column s mod 4 =? 0) eqn:E; lia.
Qed.

Lemma advance_spec (s : Scanner) (l : Lexer) (skip : bool) n s' l' :
  advance s l skip = (n, s', l') ->
  frame s s' /\ l' = lexer_advance l skip /\ n = advance_size s l
  /\ column s' = u8 (column s + n).
Proof.
  unfold advance. intros H. injection H as <- <- <-.
  split; [constructor; reflexivity|]. repeat split; reflexivity.
Qed.

(** ** Loops *)

Section LoopLemmas.
Context {A : Type}.
Variable test : A -> Z -> bool.
Variable body : A -> Scanner -> Lexer -> A * Scanner * Lexer.

(** An invariant of the body is an invariant of the loop. *)
Lemma while_fuel_invariant (I : A -> Scanner -> Lexer -> Prop) :
  (forall a s l a' s' l',
      I a s l -> test a (lookahead l) = true ->
      body a s l = (a', s', l') -> I a' s' l') ->
  forall fuel a s l a' s' l',
    I a s l -> while_fuel test body fuel a s l = (a', s', l') -> I a' s' l'.
Proof.
  intros Hbody. induction fuel as [|fuel IH]; intros a s l a' s' l' HI H;
    cbn in H; destruct (test a (lookahead l)) eqn:Et;
    try (injection H as <- <- <-; exact HI).
  destruct (body a s l) as [[a1 s1] l1] eqn:Eb.
  eapply IH; [|exact H]. eapply Hbody; eassumption.
Qed.

Lemma while_lookahead_invariant (I : A -> Scanner -> Lexer -> Prop) :
  (forall a s l a' s' l',
      I a s l -> test a (lookahead l) = true ->
      body a s l = (a', s', l') -> I a' s' l') ->
  forall a s l a' s' l',
    I a s l -> while_lookahead test body a s l = (a', s', l') -> I a' s' l'.
Proof. intros Hbody a s l. apply while_fuel_invariant. exact Hbody. Qed.

(** The test fails at the end of the input and the body consumes one
    character: the loop stops because its test fails, never for want
    of fuel. *)
Hypothesis test_eof : forall a, test a 0 = false.
Hypothesis body_consumes :
  forall a s l a' s' l',
    test a (lookahead l) = true -> body a s l = (a', s', l') ->
    remaining l' = pred (remaining l).

Lemma while_fuel_exit :
  forall fuel a s l a' s' l',
    (remaining l <= fuel)%nat ->
    while_fuel test body fuel a s l = (a', s', l') ->
    test a' (lookahead l') = false.
Proof.
  induction fuel as [|fuel IH]; intros a s l a' s' l' Hf H;
    cbn in H; destruct (test a (lookahead l)) eqn:Et;
    try (injection H as <- <- <-; exact Et).
  - exfalso. assert (E : eof l = true).
    { unfold eof. apply Nat.leb_le. unfold remaining in Hf. lia. }
    apply lookahead_eof in E. rewrite E, test_eof in Et. discriminate.
  - destruct (body a s l) as [[a1 s1] l1] eqn:Eb.
    eapply IH; [|exact H].
    rewrite (body_consumes _ _ _ _ _ _ Et Eb). lia.
Qed.

Lemma while_lookahead_exit a s l a' s' l' :
  while_lookahead test body a s l = (a', s', l') ->
  test a' (lookahead l') = false.
Proof. apply while_fuel_exit. lia. Qed.
End LoopLemmas.

(** ** The loops of [scan] *)

Lemma lexer_frame_refl (l : Lexer) : lexer_frame l l.
Proof. constructor; reflexivity || lia. Qed.

Lemma lexer_frame_trans (l1 l2 l3 : Lexer) :
  lexer_frame l1 l2 -> lexer_frame l2 l3 -> lexer_frame l1 l3.
Proof. intros [] []. constructor; try congruence. lia. Qed.

Lemma lexer_frame_advance (l : Lexer) (skip : bool) :
  lexer_frame l (lexer_advance l skip).
Proof.
  unfold lexer_advance. destruct (eof l); constructor; cbn; reflexivity || lia.
Qed.

Lemma lexer_frame_mark_end (l : Lexer) : lexer_frame l (mark_end l).
Proof. constructor; cbn; reflexivity || lia. Qed.

Lemma lexer_frame_mark_end_unless (c : bool) (l : Lexer) :
  lexer_frame l (mark_end_unless c l).
Proof. destruct c; [apply lexer_frame_refl | apply lexer_frame_mark_end]. Qed.

Lemma advance_frames (s : Scanner) (l : Lexer) (skip : bool) n s' l' :
  advance s l skip = (n, s', l') -> frame s s' /\ lexer_frame l l'.
Proof.
  intros H. apply advance_spec in H as (Hf & -> & _).
  split; [exact Hf | apply lexer_frame_advance].
Qed.

Lemma advance_remaining (s : Scanner) (l : Lexer) (skip : bool) n s' l' :
  lookahead l <> 0 -> advance s l skip = (n, s', l') ->
  remaining l' = pred (remaining l).
Proof.
  intros Hl H. apply advance_spec in H as (_ & -> & _).
  apply remaining_advance, lookahead_nonzero, Hl.
Qed.

(** A loop whose body keeps the frames keeps them. *)
Lemma while_lookahead_frames {A : Type} (test : A -> Z -> bool)
  (body : A -> Scanner -> Lexer -> A * Scanner * Lexer) :
  (forall a s l a' s' l',
      body a s l = (a', s', l') -> frame s s' /\ lexer_frame l l') ->
  forall a s l a' s' l',
    while_lookahead test body a s l = (a', s', l') ->
    frame s s' /\ lexer_frame l l'.
Proof.
  intros Hbody a s l a' s' l' H.
  apply (while_lookahead_invariant test body
           (fun _ s1 l1 => frame s s1 /\ lexer_frame l l1)) in H.
  - exact H.
  - intros a0 s0 l0 a1 s1 l1 [Hs Hl] _ Hb.
    apply Hbody in Hb as [Hs' Hl'].
    split; [eapply frame_trans | eapply lexer_frame_trans]; eassumption.
  - split; [apply frame_refl | apply lexer_frame_refl].
Qed.

(** The bodies of the loops: [advance], once, after a possible
    [mark_end]. *)
Ltac body_frames :=
  let a := fresh "a" in
  let H := fresh "H" in
  intros a ? ? ? ? ? H;
  match type of a with
  | (_ * _)%type => destruct a as [? ?]
  | _ => idtac
  end;
  cbv beta iota in H;
  repeat match type of H with
    | context [if ?c then _ else _] => destruct c
    end;
  cbv beta zeta in H;
  match type of H with
  | context [advance ?s ?l ?k] =>
      let E := fresh "E" in
      destruct (advance s l k) as [[? ?] ?] eqn:E;
      apply advance_frames in E as [? ?];
      injection H as <- <- <-;
      split;
      [ assumption
      | first
          [ assumption
          | eapply lexer_frame_trans;
            [apply lexer_frame_mark_end_unless | eassumption] ] ]
  end.

Lemma count_run_frames c skip s l level s' l' :
  count_run c skip s l = (level, s', l') -> frame s s' /\ lexer_frame l l'.
Proof. apply while_lookahead_frames. body_frames. Qed.

Lemma count_whitespace_frames s l extra s' l' :
  count_whitespace s l = (extra, s', l') -> frame s s' /\ lexer_frame l l'.
Proof. apply while_lookahead_frames. body_frames. Qed.

Lemma atx_loop_frames s l level s' l' :
  atx_loop s l = (level, s', l') -> frame s s' /\ lexer_frame l l'.
Proof. apply while_lookahead_frames. body_frames. Qed.

Lemma skip_whitespace_frames s l u s' l' :
  skip_whitespace s l = (u, s', l') -> frame s s' /\ lexer_frame l l'.
Proof. apply while_lookahead_frames. body_frames. Qed.

Lemma digits_loop_frames s l digits s' l' :
  digits_loop s l = (digits, s', l') -> frame s s' /\ lexer_frame l l'.
Proof. apply while_lookahead_frames. body_frames. Qed.

Lemma underscore_loop_frames s l n s' l' :
  underscore_loop s l = (n, s', l') -> frame s s' /\ lexer_frame l l'.
Proof. apply while_lookahead_frames. body_frames. Qed.

Lemma minus_loop_frames check_block s l v s' l' :
  minus_loop check_block s l = (v, s', l') -> frame s s' /\ lexer_frame l l'.
Proof. apply while_lookahead_frames. body_frames. Qed.

Lemma star_loop_frames check_block s l v s' l' :
  star_loop check_block s l = (v, s', l') -> frame s s' /\ lexer_frame l l'.
Proof. apply while_lookahead_frames. body_frames. Qed.

(** Every loop stops because its test fails on the lookahead it has
    reached: the fuel of [while_lookahead] is enough. *)
Ltac body_consumes :=
  let a := fresh "a" in
  let Ht := fresh "Ht" in
  let H := fresh "H" in
  let Hl := fresh "Hl" in
  intros a ? ?l ? ? ? Ht H;
  match type of a with
  | (_ * _)%type => destruct a as [? ?]
  | _ => idtac
  end;
  cbv beta iota in H, Ht;
  match type of Ht with
  | context [lookahead ?l] =>
      assert (Hl : lookahead l <> 0)
        by (let E := fresh in
            intros E; rewrite E in Ht; vm_compute in Ht;
            repeat match type of Ht with
              | context [if ?c then _ else _] => destruct c
              end; discriminate)
  end;
  repeat match type of H with
    | context [if ?c then _ else _] => destruct c
    end;
  cbv beta zeta in H;
  match type of H with
  | context [advance ?s ?l ?k] =>
      let E := fresh "E" in
      destruct (advance s l k) as [[? ?] ?] eqn:E;
      apply advance_remaining in E;
      [ injection H as <- <- <-; rewrite E;
        try rewrite remaining_mark_end_unless; reflexivity
      | try rewrite lookahead_mark_end_unless; exact Hl ]
  end.

Lemma count_run_exit c skip s l level s' l' :
  c <> 0 -> count_run c skip s l = (level, s', l') -> lookahead l' <> c.
Proof.
  intros Hc H. apply while_lookahead_exit in H.
  - apply Z.eqb_neq. exact H.
  - intros _. apply Z.eqb_neq. congruence.
  - intros a s0 l0 a' s0' l0' Ht Hb.
    apply Z.eqb_eq in Ht. cbv beta zeta in Hb.
    destruct (advance s0 l0 skip) as [[n s1] l1] eqn:E.
    injection Hb as <- <- <-.
    eapply advance_remaining; [|exact E]. congruence.
Qed.

Lemma count_whitespace_exit s l extra s' l' :
  count_whitespace s l = (extra, s', l') ->
  is_space_or_tab (lookahead l') = false.
Proof.
  intros H. apply while_lookahead_exit in H;
    [exact H | reflexivity | body_consumes].
Qed.

Lemma skip_whitespace_exit s l u s' l' :
  skip_whitespace s l = (u, s', l') ->
  is_space_or_tab (lookahead l') = false.
Proof.
  intros H. apply while_lookahead_exit in H;
    [exact H | reflexivity | body_consumes].
Qed.

Lemma indentation_loop_exit s l u s' l' :
  indentation_loop s l = (u, s', l') ->
  is_space_or_tab (lookahead l') = false.
Proof.
  intros H. apply while_lookahead_exit in H;
    [exact H | reflexivity | body_consumes].
Qed.

Lemma emphasis_loop_exit c s l u s' l' :
  c <> 0 -> emphasis_loop c s l = (u, s', l') -> lookahead l' <> c.
Proof.
  intros Hc H. apply while_lookahead_exit in H.
  - apply Z.eqb_neq. exact H.
  - intros _. apply Z.eqb_neq. congruence.
  - intros a s0 l0 a' s0' l0' Ht Hb.
    apply Z.eqb_eq in Ht. cbv beta zeta in Hb.
    destruct (advance (set_num_emphasis_delimiters s0
                         (u8 (num_emphasis_delimiters s0 + 1))) l0 true)
      as [[n s1] l1] eqn:E.
    injection Hb as <- <- <-.
    eapply advance_remaining; [|exact E]. congruence.
Qed.

Lemma atx_loop_exit s l level s' l' :
  atx_loop s l = (level, s', l') ->
  (lookahead l' =? chr "#") && (level <=? 6) = false.
Proof.
  intros H. apply while_lookahead_exit in H;
    [exact H | reflexivity | body_consumes].
Qed.

Lemma digits_loop_exit s l digits s' l' :
  digits_loop s l = (digits, s', l') ->
  (lookahead l' >=? chr "0") && (lookahead l' <=? chr "9") = false.
Proof.
  intros H. apply while_lookahead_exit in H;
    [exact H | reflexivity | body_consumes].
Qed.

Lemma underscore_loop_exit s l n s' l' :
  underscore_loop s l = (n, s', l') ->
  (lookahead l' =? chr "_") || is_space_or_tab (lookahead l') = false.
Proof.
  intros H. apply while_lookahead_exit in H;
    [exact H | reflexivity | body_consumes].
Qed.

Lemma minus_loop_exit check_block s l v s' l' :
  minus_loop check_block s l = (v, s', l') ->
  (lookahead l' =? chr "-") || is_space_or_tab (lookahead l') = false.
Proof.
  intros H. apply while_lookahead_exit in H;
    [exact H | reflexivity | body_consumes].
Qed.

Lemma star_loop_exit check_block s l v s' l' :
  star_loop check_block s l = (v, s', l') ->
  (lookahead l' =? chr "*") || is_space_or_tab (lookahead l') = false.
Proof.
  intros H. apply while_lookahead_exit in H;
    [exact H | reflexivity | body_consumes].
Qed.

(** ** Tactics for the case analysis of [scan] *)

(** The first atomic condition of a boolean expression is analysed. *)
Ltac destruct_atom c :=
  lazymatch c with
  | andb ?a _ => destruct_atom a
  | orb ?a _ => destruct_atom a
  | negb ?a => destruct_atom a
  | _ => let E := fresh "E" in destruct c eqn:E
  end.

(** The results of the calls of [advance] and of the loops are named and
    their frames recorded. *)
Ltac name_loop :=
  match goal with
  | |- context [advance ?s ?l ?k] =>
      let E := fresh "Ea" in
      destruct (advance s l k) as [[? ?] ?] eqn:E;
      pose proof (advance_frames _ _ _ _ _ _ E) as [? ?]
  | |- context [count_run ?c ?k ?s ?l] =>
      let E := fresh "El" in
      destruct (count_run c k s l) as [[? ?] ?] eqn:E;
      pose proof (count_run_frames _ _ _ _ _ _ _ E) as [? ?]
  | |- context [count_whitespace ?s ?l] =>
      let E := fresh "El" in
      destruct (count_whitespace s l) as [[? ?] ?] eqn:E;
      pose proof (count_whitespace_frames _ _ _ _ _ E) as [? ?]
  | |- context [atx_loop ?s ?l] =>
      let E := fresh "El" in
      destruct (atx_loop s l) as [[? ?] ?] eqn:E;
      pose proof (atx_loop_frames _ _ _ _ _ E) as [? ?]
  | |- context [skip_whitespace ?s ?l] =>
      let E := fresh "El" in
      destruct (skip_whitespace s l) as [[? ?] ?] eqn:E;
      pose proof (skip_whitespace_frames _ _ _ _ _ E) as [? ?]
  | |- context [digits_loop ?s ?l] =>
      let E := fresh "El" in
      destruct (digits_loop s l) as [[? ?] ?] eqn:E;
      pose proof (digits_loop_frames _ _ _ _ _ E) as [? ?]
  | |- context [underscore_loop ?s ?l] =>
      let E := fresh "El" in
      destruct (underscore_loop s l) as [[? ?] ?] eqn:E;
      pose proof (underscore_loop_frames _ _ _ _ _ E) as [? ?]
  | |- context [minus_loop ?c ?s ?l] =>
      let E := fresh "El" in
      destruct (minus_loop c s l) as [[? ?] ?] eqn:E;
      pose proof (minus_loop_frames _ _ _ _ _ _ E) as [? ?]
  | |- context [star_loop ?c ?s ?l] =>
      let E := fresh "El" in
      destruct (star_loop c s l) as [[[? ?] ?] ?] eqn:E;
      pose proof (star_loop_frames _ _ _ _ _ _ E) as [? ?]
  end.

Ltac case_step :=
  first
    [ progress cbv beta iota zeta
    | progress cbn [andb orb negb]
    | name_loop
    | match goal with
      | |- context [if ?c then _ else _] => destruct_atom c
      end ].

Ltac case_analysis := repeat case_step.

(** The equations of the frames are used from left to right. *)
Ltac scanner_fields :=
  cbn [open_blocks matched indentation column code_span_delimiter_length
       num_emphasis_delimiters num_emphasis_delimiters_left
       emphasis_delimiters_is_open
       set_open_blocks set_matched set_indentation set_column
       set_code_span_delimiter_length set_num_emphasis_delimiters
       set_num_emphasis_delimiters_left set_emphasis_delimiters_is_open
       push_back pop_back line_reset dec_left] in *.

Ltac use_frames :=
  repeat match goal with
    | H : frame _ _ |- _ =>
        let H1 := fresh in let H2 := fresh in let H3 := fresh in
        let H4 := fresh in let H5 := fresh in let H6 := fresh in
        let H7 := fresh in
        destruct H as [H1 H2 H3 H4 H5 H6 H7];
        scanner_fields;
        try rewrite !H1 in *; try rewrite !H2 in *; try rewrite !H3 in *;
        try rewrite !H4 in *; try rewrite !H5 in *; try rewrite !H6 in *;
        try rewrite !H7 in *
    end.


(** ** The probe of line 753 *)

Ltac solve_flow_frames :=
  cbn [flow_frames];
  lazymatch goal with
  | |- _ /\ _ => split; [reflexivity|]
  | |- _ => idtac
  end;
  first [assumption | constructor; scanner_fields; use_frames; reflexivity].

Lemma indented_chunk_probe valid s l :
  flow_frames s (indented_chunk valid true s l).
Proof.
  unfold indented_chunk, matching_of. case_analysis; solve_flow_frames.
Qed.

Lemma list_item_continuation_probe valid s l :
  flow_frames s (list_item_continuation valid true s l).
Proof.
  unfold list_item_continuation, matching_of.
  case_analysis; solve_flow_frames.
Qed.

Lemma case_blank_line_probe valid s l :
  flow_frames s (case_blank_line valid true s l).
Proof.
  unfold case_blank_line, matching_of. case_analysis; solve_flow_frames.
Qed.

Lemma case_block_quote_probe valid s l :
  flow_frames s (case_block_quote valid true s l).
Proof.
  unfold case_block_quote, matching_of. case_analysis; solve_flow_frames.
Qed.

Lemma case_tilde_probe valid s l :
  flow_frames s (case_tilde valid true s l).
Proof.
  unfold case_tilde, open_fence, matching_of.
  case_analysis; solve_flow_frames.
Qed.

Lemma case_backtick_probe valid s l :
  flow_frames s (case_backtick valid true s l).
Proof.
  unfold case_backtick, open_fence, matching_of.
  case_analysis; solve_flow_frames.
Qed.

Lemma case_atx_probe valid s l :
  flow_frames s (case_atx valid true s l).
Proof.
  unfold case_atx, matching_of. case_analysis; solve_flow_frames.
Qed.

Lemma case_setext_h1_probe valid s l :
  flow_frames s (case_setext_h1 valid true s l).
Proof.
  unfold case_setext_h1, matching_of. case_analysis; solve_flow_frames.
Qed.

Lemma case_plus_probe valid s l :
  flow_frames s (case_plus valid true s l).
Proof.
  unfold case_plus, matching_of. case_analysis; solve_flow_frames.
Qed.

Lemma case_digit_probe valid s l :
  flow_frames s (case_digit valid true s l).
Proof.
  unfold case_digit, matching_of. case_analysis; solve_flow_frames.
Qed.

Lemma case_minus_probe valid s l :
  flow_frames s (case_minus valid true s l).
Proof.
  unfold case_minus, matching_of. case_analysis; solve_flow_frames.
Qed.

Lemma case_star_probe valid s l :
  flow_frames s (case_star valid true s l).
Proof.
  unfold case_star, matching_of. case_analysis; solve_flow_frames.
Qed.

Lemma case_underscore_probe valid s l :
  flow_frames s (case_underscore valid true s l).
Proof.
  unfold case_underscore, matching_of. case_analysis; solve_flow_frames.
Qed.

Lemma block_switch_probe valid s l :
  flow_frames s (block_switch valid true s l).
Proof.
  unfold block_switch. cbv zeta.
  repeat match goal with
    | |- context [if ?c then _ else _] => destruct c
    end;
    auto using case_blank_line_probe, case_block_quote_probe,
      case_tilde_probe, case_backtick_probe, case_atx_probe,
      case_setext_h1_probe, case_plus_probe, case_digit_probe,
      case_minus_probe, case_star_probe, case_underscore_probe.
  cbn. apply frame_refl.
Qed.

Lemma quiet_refl (s : Scanner) : quiet s s.
Proof. split; reflexivity. Qed.

Lemma frame_quiet (s s' : Scanner) : frame s s' -> quiet s s'.
Proof. intros []. split; assumption. Qed.

Lemma quiet_trans (s1 s2 s3 : Scanner) : quiet s1 s2 -> quiet s2 s3 -> quiet s1 s3.
Proof. intros [] []. split; congruence. Qed.

Lemma indentation_loop_quiet s l u s' l' :
  indentation_loop s l = (u, s', l') ->
  quiet s s' /\ indentation_kept s s' /\ lexer_frame l l'.
Proof.
  intros H.
  apply (while_lookahead_invariant _ _
           (fun _ s1 l1 => quiet s s1 /\ indentation_kept s s1
                           /\ lexer_frame l l1)) in H.
  - exact H.
  - intros a s0 l0 a' s0' l0' (Hq & Hi & Hl) _ Hb. cbv beta in Hb.
    destruct (advance s0 l0 true) as [[n s1] l1] eqn:E.
    apply advance_frames in E as [Hf Hl1]. injection Hb as <- <- <-.
    repeat split.
    + destruct Hq, Hf. cbn. congruence.
    + destruct Hq, Hf. cbn. congruence.
    + right. cbn. apply u8_byte.
    + destruct Hl, Hl1. congruence.
    + destruct Hl, Hl1. congruence.
    + destruct Hl, Hl1. lia.
  - repeat split; try lia. left. reflexivity.
Qed.

Lemma emphasis_loop_quiet c s l u s' l' :
  emphasis_loop c s l = (u, s', l') ->
  quiet s s' /\ indentation s' = indentation s /\ lexer_frame l l'.
Proof.
  intros H.
  apply (while_lookahead_invariant _ _
           (fun _ s1 l1 => quiet s s1 /\ indentation s1 = indentation s
                           /\ lexer_frame l l1)) in H.
  - exact H.
  - intros a s0 l0 a' s0' l0' (Hq & Hi & Hl) _ Hb. cbv beta zeta in Hb.
    destruct (advance _ l0 true) as [[n s1] l1] eqn:E.
    apply advance_frames in E as [Hf Hl1]. injection Hb as <- <- <-.
    destruct Hf. cbn in *. repeat split.
    + destruct Hq. congruence.
    + destruct Hq. congruence.
    + congruence.
    + destruct Hl, Hl1. congruence.
    + destruct Hl, Hl1. congruence.
    + destruct Hl, Hl1. lia.
  - repeat split; lia.
Qed.

(** The recursion of [scan] is one call deep: a probe never reaches
    line 753. *)
Lemma probe_never_recurses probe1 probe2 valid s l :
  scan_body probe1 valid true s l = scan_body probe2 valid true s l.
Proof.
  unfold scan_body, scan_tail, matching_of. cbn [negb andb].
  reflexivity.
Qed.

Lemma frame_kept (s s' : Scanner) : frame s s' -> indentation_kept s s'.
Proof. intros []. left. assumption. Qed.

(** A probe inside the input leaves the stack and [matched] alone. *)
Lemma scan_probe_quiet valid s l :
  eof l = false -> matched s <= size s ->
  exists b s' l',
    scan_probe valid s l = Returns b s' l'
    /\ quiet s s' /\ indentation_kept s s'.
Proof.
  intros He Hm. unfold scan_probe, scan_body. rewrite He.
  destruct (matched s >? size s) eqn:Ep; [lia|].
  destruct (valid INDENTATION && is_space_or_tab (lookahead l)).
  { unfold scan_indentation.
    destruct (indentation_loop s l) as [[u s1] l1] eqn:E.
    apply indentation_loop_quiet in E as (Hq & Hk & _).
    do 3 eexists. split; [reflexivity | split; assumption]. }
  pose proof (indented_chunk_probe valid s l) as H1.
  destruct (indented_chunk valid true s l) as [[b s1 l1|]|s1 l1];
    cbn in H1; try contradiction.
  { destruct H1. do 3 eexists. split; [reflexivity|].
    split; auto using frame_quiet, frame_kept. }
  pose proof (list_item_continuation_probe valid s1 l1) as H2.
  destruct (list_item_continuation valid true s1 l1) as [[b s2 l2|]|s2 l2];
    cbn in H2; try contradiction.
  { destruct H2. do 3 eexists. split; [reflexivity|].
    split; eauto using frame_quiet, frame_kept, frame_trans. }
  pose proof (block_switch_probe valid s2 l2) as H3.
  destruct (block_switch valid true s2 l2) as [[b s3 l3|]|s3 l3];
    cbn in H3; try contradiction.
  { destruct H3. do 3 eexists. split; [reflexivity|].
    split; eauto 6 using frame_quiet, frame_kept, frame_trans. }
  unfold scan_tail, matching_of. cbn [negb andb].
  do 3 eexists. split; [reflexivity|].
  split; eauto 6 using frame_quiet, frame_kept, frame_trans.
Qed.

Lemma scan_probe_eof valid s l :
  eof l = true -> scan_probe valid s l = scan_eof s l.
Proof. intros He. unfold scan_probe, scan_body. rewrite He. reflexivity. Qed.

(** ** The calls of the host *)

Lemma open_list_item_spec (e : Z) (s : Scanner) :
  open_blocks (open_list_item e s)
  = open_blocks s ++ [list_item_block (indentation s) e]
  /\ indentation (open_list_item e s)
     = (if e - 1 <=? 3 then 0 else u8 (e - 1))
  /\ matched (open_list_item e s) = u8 (matched s + 1).
Proof.
  unfold open_list_item, list_item_block.
  destruct (e - 1 <=? 3); cbn; repeat split; reflexivity.
Qed.

Lemma atx_loop_level s l level s' l' :
  atx_loop s l = (level, s', l') -> lookahead l = chr "#" -> 1 <= level.
Proof.
  intros H Hl.
  pose proof (atx_loop_exit _ _ _ _ _ H) as Hx.
  apply (while_lookahead_invariant _ _
           (fun level _ l1 => 0 <= level /\ (level = 0 -> l1 = l))) in H.
  - destruct H as [H0 H1].
    destruct (Z.eq_dec level 0) as [E | E]; [|lia].
    rewrite (H1 E), Hl, E in Hx. discriminate.
  - intros a s0 l0 a' s0' l0' [H0 H1] _ Hb. cbv beta in Hb.
    destruct (advance s0 l0 false) as [[n s1] l1]. injection Hb as <- <- <-.
    split; lia.
  - split; [lia | reflexivity].
Qed.

Ltac use_list_item :=
  repeat match goal with
    | |- context [open_list_item ?e ?s] =>
        let H1 := fresh in let H2 := fresh in let H3 := fresh in
        destruct (open_list_item_spec e s) as (H1 & H2 & H3);
        rewrite ?H1, ?H2, ?H3; clear H1 H2 H3
    end.

Ltac use_lexer_frames :=
  repeat match goal with
    | H : lexer_frame _ _ |- _ =>
        let H1 := fresh in let H2 := fresh in let H3 := fresh in
        destruct H as [H1 H2 H3];
        cbn [result_symbol set_result_symbol mark_end] in H2;
        try rewrite !H2 in *; clear H1 H3
    end.

Ltac use_conditions :=
  repeat match goal with
    | H : _ = true |- _ => rewrite H
    | H : _ = false |- _ => rewrite H
    end.

(** The measure of a list marker is read off the equations of the loops. *)
Ltac solve_marker_extra :=
  lazymatch goal with
  | |- _ = marker_extra _ _ _ =>
      unfold marker_extra, plus_extra, digit_extra, minus_extra, star_extra;
      cbn [Z.eqb Pos.eqb LIST_MARKER_PLUS LIST_MARKER_MINUS LIST_MARKER_STAR
           LIST_MARKER_DOT LIST_MARKER_PARENTHETHIS];
      repeat match goal with
        | H : advance _ _ _ = _ |- _ => rewrite H
        | H : digits_loop _ _ = _ |- _ => rewrite H
        | H : count_whitespace _ _ = _ |- _ => rewrite H
        | H : minus_loop _ _ _ = _ |- _ => rewrite H
        | H : star_loop _ _ _ = _ |- _ => rewrite H
        end;
      cbn [fst snd];
      repeat match goal with
        | H : _ = true |- _ => rewrite H
        | H : _ = false |- _ => rewrite H
        end;
      reflexivity
  end.

Ltac solve_marker_chars :=
  lazymatch goal with
  | |- marker_chars _ _ _ = true =>
      unfold marker_chars;
      cbn [Z.eqb Pos.eqb LIST_MARKER_PLUS LIST_MARKER_MINUS LIST_MARKER_STAR
           LIST_MARKER_DOT LIST_MARKER_PARENTHETHIS];
      repeat match goal with
        | H : digits_loop _ _ = _ |- _ => rewrite H
        end;
      repeat match goal with
        | H : _ = true |- _ => rewrite H
        end;
      reflexivity
  end.

Ltac solve_side :=
  try solve_marker_extra;
  try solve_marker_chars;
  scanner_fields;
  cbn [result_symbol set_result_symbol mark_end andb orb negb] in *;
  unfold size, block_at, list_marker, is_fence in *;
  use_list_item;
  use_frames;
  first [ assumption | reflexivity | lia
        | use_conditions; reflexivity
        | left; solve_side | right; solve_side
        | split; solve_side ].

Ltac solve_frame := constructor; scanner_fields; use_frames; reflexivity.

Ltac solve_lexer_frame :=
  repeat match goal with
    | H : lexer_frame _ _ |- _ => destruct H
    end;
  unfold mark_end_unless in *;
  cbn [text result_symbol position mark_end set_result_symbol] in *;
  constructor; [congruence | congruence | lia].

Ltac solve_break :=
  split;
  [ solve_frame
  | let Hm := fresh in
    intros Hm;
    first [ left; split; reflexivity
          | exfalso; lia
          | right; unfold is_fence; split; [lia | assumption] ] ].

(** The step of a call is found from the token. *)
Ltac step_of_token :=
  lazymatch goal with
  | |- Transition _ _ _ _ VIRTUAL_SPACE => eapply T_virtual_space
  | |- Transition _ _ _ _ LINE_ENDING => eapply T_line_ending
  | |- Transition _ _ _ _ CODE_SPAN_START => eapply T_inline
  | |- Transition _ _ _ _ CODE_SPAN_CLOSE => eapply T_inline
  | |- Transition _ _ _ _ EMPHASIS_CLOSE_STAR => eapply T_inline
  | |- Transition _ _ _ _ EMPHASIS_CLOSE_UNDERSCORE => eapply T_inline
  | |- Transition _ _ _ _ EMPHASIS_OPEN_STAR =>
      first [eapply T_inline; solve_side | eapply T_emphasis_open]
  | |- Transition _ _ _ _ EMPHASIS_OPEN_UNDERSCORE =>
      first [eapply T_inline; solve_side | eapply T_emphasis_open]
  | |- Transition _ _ _ _ INDENTATION => eapply T_indentation
  | |- Transition _ _ _ _ BLOCK_CONTINUATION =>
      first [ eapply T_continuation_indented; solve_side
            | eapply T_continuation; solve_side
            | eapply T_continuation_fenced ]
  | |- Transition _ _ _ _ INDENTED_CHUNK_START => eapply T_indented_chunk
  | |- Transition _ _ _ _ BLANK_LINE => eapply T_blank_line
  | |- Transition _ _ _ _ BLOCK_QUOTE_START => eapply T_block_quote_start
  | |- Transition _ _ _ _ BLOCK_CLOSE => eapply T_fence_close
  | |- Transition _ _ _ _ FENCED_CODE_BLOCK_START => eapply T_fence_open
  | |- Transition _ _ _ _ (ATX_H1_MARKER + _) => eapply T_atx
  | |- Transition _ _ _ _ SETEXT_H1_UNDERLINE => eapply T_line_token
  | |- Transition _ _ _ _ SETEXT_H2_UNDERLINE => eapply T_line_token
  | |- Transition _ _ _ _ SETEXT_H2_UNDERLINE_OR_THEMATIC_BREAK =>
      eapply T_line_token
  | |- Transition _ _ _ _ THEMATIC_BREAK => eapply T_line_token
  | |- Transition _ _ _ _ LIST_MARKER_MINUS => eapply T_list_marker
  | |- Transition _ _ _ _ LIST_MARKER_PLUS => eapply T_list_marker
  | |- Transition _ _ _ _ LIST_MARKER_STAR => eapply T_list_marker
  | |- Transition _ _ _ _ LIST_MARKER_DOT => eapply T_list_marker
  | |- Transition _ _ _ _ LIST_MARKER_PARENTHETHIS => eapply T_list_marker
  | |- Transition _ _ _ _ LAZY_CONTINUATION => eapply T_lazy
  | |- Transition _ _ _ _ MATCHING_DONE => eapply T_matching_done
  end.

Ltac solve_kept :=
  unfold indentation_kept;
  use_list_item;
  scanner_fields;
  first
    [ left; use_frames; first [reflexivity | assumption | congruence]
    | right;
      first
        [ apply u8_byte
        | unfold is_byte; lia
        | match goal with
          | |- context [if ?c then _ else _] =>
              destruct c; [unfold is_byte; lia | apply u8_byte]
          end ] ].

Ltac solve_return :=
  split; [reflexivity|];
  cbn [result_symbol set_result_symbol mark_end];
  try rewrite !result_mark_end_unless;
  use_lexer_frames;
  split; [step_of_token; solve_side | solve_kept].

Ltac solve_flow :=
  cbn [flow_transition];
  lazymatch goal with
  | |- _ /\ Transition _ _ _ _ _ /\ _ => solve_return
  | |- _ => solve_break
  end.

Lemma indented_chunk_transition valid s l :
  eof l = false -> matched s <= size s ->
  flow_transition valid s l (indented_chunk valid false s l).
Proof.
  intros He Hm. unfold indented_chunk, matching_of.
  case_analysis; solve_flow.
Qed.

Lemma list_item_continuation_transition valid s l :
  eof l = false -> matched s <= size s ->
  flow_transition valid s l (list_item_continuation valid false s l).
Proof.
  intros He Hm. unfold list_item_continuation, matching_of.
  case_analysis; solve_flow.
Qed.

Lemma case_blank_line_transition valid s l :
  eof l = false -> matched s <= size s ->
  flow_transition valid s l (case_blank_line valid false s l).
Proof.
  intros He Hm. unfold case_blank_line, matching_of.
  case_analysis; solve_flow.
Qed.

Lemma case_block_quote_transition valid s l :
  eof l = false -> matched s <= size s ->
  flow_transition valid s l (case_block_quote valid false s l).
Proof.
  intros He Hm. unfold case_block_quote, matching_of.
  case_analysis; solve_flow.
Qed.

Lemma case_tilde_transition valid s l :
  eof l = false -> matched s <= size s ->
  flow_transition valid s l (case_tilde valid false s l).
Proof.
  intros He Hm. unfold case_tilde, close_fence, open_fence, matching_of.
  case_analysis; solve_flow.
Qed.

Lemma case_backtick_transition valid s l :
  eof l = false -> matched s <= size s ->
  flow_transition valid s l (case_backtick valid false s l).
Proof.
  intros He Hm. unfold case_backtick, close_fence, open_fence, matching_of.
  case_analysis; solve_flow.
Qed.

Lemma case_setext_h1_transition valid s l :
  eof l = false -> matched s <= size s ->
  flow_transition valid s l (case_setext_h1 valid false s l).
Proof.
  intros He Hm. unfold case_setext_h1, matching_of.
  case_analysis; solve_flow.
Qed.

Lemma case_plus_transition valid s l :
  eof l = false -> matched s <= size s -> (lookahead l =? chr "+") = true ->
  flow_transition valid s l (case_plus valid false s l).
Proof.
  intros He Hm Hfirst. unfold case_plus, matching_of.
  case_analysis; solve_flow.
Qed.

Lemma case_digit_transition valid s l :
  eof l = false -> matched s <= size s -> (lookahead l >=? chr "0") && (lookahead l <=? chr "9") = true ->
  flow_transition valid s l (case_digit valid false s l).
Proof.
  intros He Hm Hfirst. unfold case_digit, matching_of.
  case_analysis; solve_flow.
Qed.

Lemma case_minus_transition valid s l :
  eof l = false -> matched s <= size s -> (lookahead l =? chr "-") = true ->
  flow_transition valid s l (case_minus valid false s l).
Proof.
  intros He Hm Hfirst. unfold case_minus, emit_line_token, matching_of.
  case_analysis; solve_flow.
Qed.

Lemma case_star_transition valid s l :
  eof l = false -> matched s <= size s -> (lookahead l =? chr "*") = true ->
  flow_transition valid s l (case_star valid false s l).
Proof.
  intros He Hm Hfirst. unfold case_star, emit_line_token, matching_of.
  case_analysis; solve_flow.
Qed.

Lemma case_underscore_transition valid s l :
  eof l = false -> matched s <= size s ->
  flow_transition valid s l (case_underscore valid false s l).
Proof.
  intros He Hm. unfold case_underscore, emit_line_token, matching_of.
  case_analysis; solve_flow.
Qed.

Lemma case_atx_transition valid s l :
  eof l = false -> matched s <= size s -> lookahead l = chr "#" ->
  flow_transition valid s l (case_atx valid false s l).
Proof.
  intros He Hm Hl. unfold case_atx, matching_of.
  case_analysis;
    try match goal with
      | H : atx_loop _ _ = _ |- _ =>
          apply atx_loop_level in H;
          [|rewrite lookahead_mark_end_unless; exact Hl]
      end;
    solve_flow.
Qed.

Lemma block_switch_transition valid s l :
  eof l = false -> matched s <= size s ->
  flow_transition valid s l (block_switch valid false s l).
Proof.
  intros He Hm. unfold block_switch. cbv zeta.
  repeat match goal with
    | |- context [if ?c then _ else _] => destruct c eqn:?
    end;
    auto using case_blank_line_transition, case_block_quote_transition,
      case_tilde_transition, case_backtick_transition,
      case_setext_h1_transition, case_plus_transition,
      case_digit_transition, case_minus_transition, case_star_transition,
      case_underscore_transition.
  - apply case_atx_transition; try assumption. lia.
  - cbn. split; [apply frame_refl|]. intros _. left. split; reflexivity.
Qed.

(** *** The stack as a list *)

Lemma length_removelast {A : Type} (xs : list A) :
  length (removelast xs) = pred (length xs).
Proof.
  rewrite removelast_firstn_len, length_firstn. lia.
Qed.

Lemma nth_removelast {A : Type} (xs : list A) (i : nat) (d : A) :
  (i < pred (length xs))%nat -> nth i (removelast xs) d = nth i xs d.
Proof.
  intros H. rewrite removelast_firstn_len, nth_firstn.
  destruct (Nat.ltb_spec i (pred (length xs))); [reflexivity | lia].
Qed.

Lemma size_nonneg (s : Scanner) : 0 <= size s.
Proof. unfold size. lia. Qed.

Lemma size_pop_back (s : Scanner) : size s > 0 -> size (pop_back s) = size s - 1.
Proof.
  unfold size, pop_back. cbn. rewrite length_removelast. lia.
Qed.

Lemma block_at_pop_back (s : Scanner) (i : Z) :
  0 <= i < size s - 1 -> block_at (pop_back s) i = block_at s i.
Proof.
  unfold size, block_at, pop_back. cbn. intros H.
  apply nth_removelast. lia.
Qed.

Lemma size_push_back (s : Scanner) (b : Block) :
  size (push_back s b) = size s + 1.
Proof. unfold size, push_back. cbn. rewrite length_app. cbn. lia. Qed.

(** *** Inside the line *)

Lemma emphasis_run_quiet c s l s' l' :
  emphasis_run c s l = (s', l') ->
  quiet s s' /\ indentation s' = indentation s.
Proof.
  unfold emphasis_run. intros H.
  destruct (advance s l true) as [[n s1] l1] eqn:Ea.
  apply advance_frames in Ea as [[] _].
  destruct (emphasis_loop _ _ _) as [[u s2] l2] eqn:El.
  apply emphasis_loop_quiet in El as ([] & Hi & _).
  injection H as <- <-. cbn in *. repeat split; cbn; congruence.
Qed.

Ltac solve_inline :=
  cbn [inline_result];
  lazymatch goal with
  | |- _ /\ Transition _ _ _ _ _ /\ _ =>
      split; [reflexivity|];
      cbn [result_symbol set_result_symbol mark_end];
      split; [step_of_token; solve_side | solve_kept]
  | |- _ => split; [split|]; solve_side
  end.

Lemma case_cr_transition valid s l :
  eof l = false -> matched s > size s ->
  inline_result valid s l (case_cr valid s l).
Proof.
  intros He Hm. unfold case_cr. case_analysis; solve_inline.
Qed.

Lemma case_lf_transition valid s l :
  eof l = false -> matched s > size s ->
  inline_result valid s l (case_lf valid s l).
Proof.
  intros He Hm. unfold case_lf. case_analysis; solve_inline.
Qed.

Lemma case_code_span_transition valid s l :
  eof l = false -> matched s > size s ->
  inline_result valid s l (case_code_span valid s l).
Proof.
  intros He Hm. unfold case_code_span. case_analysis; solve_inline.
Qed.

Lemma emphasis_next_transition valid s l OPEN CLOSE :
  eof l = false -> matched s > size s ->
  (OPEN = EMPHASIS_OPEN_STAR /\ CLOSE = EMPHASIS_CLOSE_STAR)
  \/ (OPEN = EMPHASIS_OPEN_UNDERSCORE /\ CLOSE = EMPHASIS_CLOSE_UNDERSCORE) ->
  inline_result valid s l (emphasis_next valid OPEN CLOSE s l).
Proof.
  intros He Hm HOC. unfold emphasis_next.
  case_analysis; destruct HOC as [[-> ->] | [-> ->]]; solve_inline.
Qed.

Lemma case_star_inline_transition valid s l :
  eof l = false -> matched s > size s ->
  inline_result valid s l (case_star_inline valid s l).
Proof.
  intros He Hm. unfold case_star_inline.
  destruct (num_emphasis_delimiters_left s >? 0).
  { apply emphasis_next_transition; auto. }
  destruct (valid EMPHASIS_OPEN_STAR) eqn:Eo;
    destruct (valid EMPHASIS_CLOSE_STAR) eqn:Ec; cbn [orb];
    try (cbn; split; [apply quiet_refl | reflexivity]);
    destruct (emphasis_run (chr "*") s l) as [s1 l1] eqn:Er;
    apply emphasis_run_quiet in Er as [[Hb Hmm] Hi];
    unfold emit_polarity; case_analysis; solve_inline.
Qed.

Lemma case_underscore_inline_transition valid s l :
  eof l = false -> matched s > size s ->
  inline_result valid s l (case_underscore_inline valid s l).
Proof.
  intros He Hm. unfold case_underscore_inline.
  destruct (num_emphasis_delimiters_left s >? 0).
  { apply emphasis_next_transition; auto. }
  destruct (valid EMPHASIS_OPEN_UNDERSCORE) eqn:Eo;
    destruct (valid EMPHASIS_CLOSE_UNDERSCORE) eqn:Ec; cbn [orb];
    try (cbn; split; [apply quiet_refl | reflexivity]);
    destruct (emphasis_run (chr "_") s l) as [s1 l1] eqn:Er;
    apply emphasis_run_quiet in Er as [[Hb Hmm] Hi];
    unfold emit_polarity; case_analysis; solve_inline.
Qed.

Lemma scan_inline_transition valid s l :
  eof l = false -> matched s > size s ->
  match scan_inline valid s l with
  | Returns true s' l' =>
      Transition valid s l s' (result_symbol l') /\ indentation_kept s s'
  | Returns false s' _ => quiet s s' /\ indentation s' = indentation s
  | Undefined => False
  end.
Proof.
  intros He Hm. unfold scan_inline.
  assert (H : inline_result valid s l (inline_switch valid s l)).
  { unfold inline_switch. cbv zeta.
    repeat match goal with
      | |- context [if ?c then _ else _] => destruct c
      end;
      auto using case_cr_transition, case_lf_transition,
        case_code_span_transition, case_star_inline_transition,
        case_underscore_inline_transition.
    cbn. split; [apply quiet_refl | reflexivity]. }
  destruct (valid VIRTUAL_SPACE && (indentation s >? 0)) eqn:Ev.
  - apply andb_prop in Ev as [Ev Ei]. cbn [result_symbol set_result_symbol].
    split.
    + apply T_virtual_space; auto. split; reflexivity.
    + right. cbn. apply u8_byte.
  - destruct (inline_switch valid s l) as [[[] s1 l1|]|s1 l1]; cbn in H;
      try tauto. destruct H; discriminate.
Qed.

(** *** After the [switch] *)

Lemma quiet_size (s s' : Scanner) : quiet s s' -> size s' = size s.
Proof. intros [H _]. unfold size. rewrite H. reflexivity. Qed.

Lemma quiet_block_at (s s' : Scanner) (i : Z) :
  quiet s s' -> block_at s' i = block_at s i.
Proof. intros [H _]. unfold block_at. rewrite H. reflexivity. Qed.

Lemma kept_trans (s1 s2 s3 : Scanner) :
  indentation_kept s1 s2 -> indentation_kept s2 s3 -> indentation_kept s1 s3.
Proof.
  unfold indentation_kept. intros [H1 | H1] [H2 | H2]; auto.
  - left. congruence.
  - right. rewrite H2. exact H1.
Qed.

Lemma close_block_transition valid s l s' l' :
  eof l = false -> 0 <= matched s < size s -> quiet s s' ->
  indentation_kept s s' ->
  match close_block s' l' with
  | Returns true s'' l'' =>
      Transition valid s l s'' (result_symbol l'') /\ indentation_kept s s''
  | Returns false _ _ => False
  | Undefined => undefined_call valid s
  end.
Proof.
  intros He Hm Hq Hk. unfold close_block.
  rewrite (quiet_size _ _ Hq), (quiet_block_at _ _ _ Hq).
  destruct (size s >? 0) eqn:E; [|lia].
  cbn [result_symbol set_result_symbol].
  destruct Hq as [Hb Hmm].
  split; [|exact Hk].
  apply T_close; try assumption; try lia; cbn; congruence.
Qed.

Lemma scan_tail_transition valid s l s' l' :
  eof l = false -> 0 <= matched s <= size s -> frame s s' ->
  (matched s < size s ->
   (s' = s /\ l' = l)
   \/ (is_fence (block_at s (matched s)) = true
       /\ valid BLOCK_CLOSE = true)) ->
  match scan_tail (scan_probe valid) valid false (matched s <? size s) s' l'
  with
  | Returns true s'' l'' =>
      Transition valid s l s'' (result_symbol l'') /\ indentation_kept s s''
  | Returns false _ _ => False
  | Undefined => undefined_call valid s
  end.
Proof.
  intros He Hm Hf Hbr. unfold scan_tail. cbn [negb andb].
  pose proof (frame_quiet _ _ Hf) as Hq.
  pose proof (frame_kept _ _ Hf) as Hk.
  pose proof (quiet_size _ _ Hq) as Hsize.
  assert (Hmat : matched s' = matched s) by (destruct Hf; congruence).
  assert (Hzero : forall t m, indentation_kept s (set_matched (set_indentation t 0) m))
    by (intros; right; cbn; unfold is_byte; lia).
  rewrite (quiet_block_at _ _ _ Hq), Hmat.
  destruct (matched s <? size s) eqn:Em; cbn [andb].
  - fold (is_fence (block_at s (matched s))).
    destruct (valid BLOCK_CONTINUATION) eqn:Ebc; cbn [andb];
      [destruct (is_fence (block_at s (matched s))) eqn:Efe|].
    + cbn [result_symbol set_result_symbol].
      split; [|right; cbn; unfold is_byte; lia].
      apply T_continuation_fenced; try assumption; try lia;
        destruct Hf; cbn; congruence.
    + destruct (valid LAZY_CONTINUATION) eqn:El;
        [|apply close_block_transition; assumption || lia].
      destruct Hbr as [[-> ->] | [Hfe _]]; [lia| |congruence].
      destruct (scan_probe_quiet valid s (mark_end l) He ltac:(lia))
        as (b & s2 & l2 & -> & Hq2 & Hk2).
      destruct b.
      * apply close_block_transition; try assumption; lia.
      * cbn [result_symbol set_result_symbol].
        split; [|apply Hzero].
        destruct Hq2.
        apply T_lazy; try assumption; try lia; unfold size; cbn; congruence.
    + destruct (valid LAZY_CONTINUATION) eqn:El;
        [|apply close_block_transition; assumption || lia].
      destruct (eof l') eqn:He'.
      * (* the search for a closing fence has reached the end *)
        destruct Hbr as [[-> ->] | [Hfe Hbc]]; [lia|congruence|].
        rewrite scan_probe_eof by exact He'.
        unfold scan_eof. rewrite Hsize.
        destruct (size s >? 0) eqn:E0; [|lia].
        unfold close_block. rewrite size_pop_back, Hsize by lia.
        destruct (size s - 1 >? 0) eqn:E1.
        -- cbn [result_symbol set_result_symbol].
           rewrite block_at_pop_back by lia.
           rewrite (quiet_block_at _ _ _ Hq).
           replace (size s - 1 - 1) with (size s - 2) by lia.
           split; [|destruct Hf; left; cbn; congruence].
           apply T_close_after_probe; try assumption; try lia;
             destruct Hf; cbn; congruence.
        -- repeat split; try assumption; lia.
      * assert (Hm' : matched s' <= size s') by lia.
        destruct (scan_probe_quiet valid s' (mark_end l') He' Hm')
          as (b & s2 & l2 & -> & Hq2 & Hk2).
        pose proof (quiet_trans _ _ _ Hq Hq2) as Hq3.
        pose proof (kept_trans _ _ _ Hk Hk2) as Hk3.
        destruct b.
        -- apply close_block_transition; try assumption; lia.
        -- cbn [result_symbol set_result_symbol].
           split; [|apply Hzero].
           destruct Hq3.
           apply T_lazy; try assumption; try lia; unfold size; cbn;
             congruence.
  - cbn [result_symbol set_result_symbol].
    split; [|destruct Hf; left; cbn; congruence].
    apply T_matching_done; try assumption; try lia; destruct Hf; cbn; congruence.
Qed.

(** *** Every call makes one of the steps *)

Lemma indented_chunk_break valid check_block s l s' l' :
  indented_chunk valid check_block s l = Break s' l' -> s' = s /\ l' = l.
Proof.
  unfold indented_chunk.
  repeat match goal with
    | |- context [if ?c then _ else _] => destruct c
    end; intros H; inversion H; split; reflexivity.
Qed.

Lemma list_item_continuation_break valid check_block s l s' l' :
  list_item_continuation valid check_block s l = Break s' l' ->
  s' = s /\ l' = l.
Proof.
  unfold list_item_continuation.
  repeat match goal with
    | |- context [if ?c then _ else _] => destruct c
    end; intros H; inversion H; split; reflexivity.
Qed.

Theorem scan_transition valid s l :
  0 <= matched s ->
  match scan valid false s l with
  | Returns true s' l' =>
      Transition valid s l s' (result_symbol l') /\ indentation_kept s s'
  | Returns false s' _ => quiet s s' /\ indentation s' = indentation s
  | Undefined => undefined_call valid s
  end.
Proof.
  intros H0. unfold scan, scan_body.
  destruct (eof l) eqn:He.
  { unfold scan_eof. destruct (size s >? 0) eqn:E.
    - cbn [result_symbol set_result_symbol].
      split; [|left; reflexivity].
      apply T_eof; try assumption; try lia; reflexivity.
    - split; [apply quiet_refl | reflexivity]. }
  destruct (matched s >? size s) eqn:Ep.
  { pose proof (scan_inline_transition valid s l He ltac:(lia)) as H.
    destruct (scan_inline valid s l) as [[] s1 l1|];
      first [exact H | contradiction]. }
  assert (Hm : matched s <= size s) by lia.
  destruct (valid INDENTATION && is_space_or_tab (lookahead l)) eqn:Ei.
  { unfold scan_indentation.
    destruct (indentation_loop s l) as [[u s1] l1] eqn:E.
    apply indentation_loop_quiet in E as (Hq & Hk & _).
    cbn [result_symbol set_result_symbol].
    split; [|exact Hk].
    apply T_indentation; try assumption.
    apply andb_prop in Ei. tauto. }
  cbv zeta. unfold matching_of. cbn [negb andb].
  pose proof (indented_chunk_transition valid s l He Hm) as H1.
  destruct (indented_chunk valid false s l) as [[b s1 l1|]|s1 l1] eqn:E1;
    cbn in H1; try contradiction.
  { destruct H1 as [-> H1]. exact H1. }
  apply indented_chunk_break in E1 as [-> ->]. clear H1.
  pose proof (list_item_continuation_transition valid s l He Hm) as H2.
  destruct (list_item_continuation valid false s l) as [[b s2 l2|]|s2 l2]
    eqn:E2; cbn in H2; try contradiction.
  { destruct H2 as [-> H2]. exact H2. }
  apply list_item_continuation_break in E2 as [-> ->]. clear H2.
  pose proof (block_switch_transition valid s l He Hm) as H3.
  destruct (block_switch valid false s l) as [[b s3 l3|]|s3 l3];
    cbn in H3; try contradiction.
  { destruct H3 as [-> H3]. exact H3. }
  destruct H3 as [Hf Hbr].
  pose proof (scan_tail_transition valid s l s3 l3 He ltac:(lia) Hf Hbr) as H4.
  destruct (scan_tail _ _ _ _ _ _) as [[] s4 l4|];
    first [exact H4 | contradiction].
Qed.

(** ** The mask of valid symbols *)

(** C1, as the claim states it, fails: at the end of the input the
    scanner closes the open block quote with [BLOCK_CLOSE] although no
    token at all is valid. *)
Lemma scan_emits_invalid_block_close :
  let valid := valid_of [] in
  let s := mkScanner [BLOCK_QUOTE] 2 0 0 0 0 0 0 in
  let l := lexer_of [] in
  exists s' l',
    scan valid false s l = Returns true s' l'
    /\ result_symbol l' = BLOCK_CLOSE
    /\ valid (result_symbol l') = false.
Proof. cbv zeta. do 2 eexists. repeat split. Qed.

(** The token of a call that returns [true], against the mask: it is a
    token of the mask, or one that is emitted without its bit being
    looked at. *)
Lemma scan_token_cases valid s l s' l' :
  0 <= matched s ->
  scan valid false s l = Returns true s' l' ->
  let tok := result_symbol l' in
  valid tok = true
  \/ tok = BLOCK_CLOSE \/ tok = BLOCK_CLOSE_LOOSE \/ tok = MATCHING_DONE
  \/ (ATX_H2_MARKER <= tok <= ATX_H6_MARKER /\ valid ATX_H1_MARKER = true)
  \/ ((tok = LIST_MARKER_DOT \/ tok = LIST_MARKER_PARENTHETHIS)
      /\ (valid LIST_MARKER_PLUS || valid LIST_MARKER_PARENTHETHIS
          || valid LIST_MARKER_DOT) = true)
  \/ (tok = EMPHASIS_OPEN_STAR /\ valid EMPHASIS_CLOSE_STAR = true)
  \/ (tok = EMPHASIS_OPEN_UNDERSCORE
      /\ valid EMPHASIS_CLOSE_UNDERSCORE = true).
Proof.
  intros H0 H. pose proof (scan_transition valid s l H0) as T.
  rewrite H in T. destruct T as [T _]. cbv zeta. clear H.
  generalize dependent (result_symbol l'). intros tok T.
  assert (Hclose : forall b, close_symbol b = BLOCK_CLOSE
                             \/ close_symbol b = BLOCK_CLOSE_LOOSE).
  { intros b. unfold close_symbol. destruct (is_loose_list_item b); auto. }
  inversion T; subst; auto 10;
    try (destruct (Hclose (block_at s (size s - 1))) as [-> | ->]; auto 10).
  - (* an ATX heading of any level *)
    destruct (Z.eq_dec level 1) as [-> | Hl]; [left; assumption|].
    do 4 right. left. unfold ATX_H1_MARKER, ATX_H2_MARKER, ATX_H6_MARKER.
    split; [lia | assumption].
  - (* a list marker *)
    match goal with
    | Hl : list_marker _ _ |- _ =>
        destruct Hl as [[-> Hv] | [[-> Hv] | [[-> Hv] | [Ht Hv]]]]; auto 10
    end.
  - destruct (Hclose (block_at s (size s - 2))) as [-> | ->]; auto 10.
Qed.

(** C1, amended: a call that returns [true] has emitted a token of the
    mask, or one of [BLOCK_CLOSE], [BLOCK_CLOSE_LOOSE] and
    [MATCHING_DONE], which the close at the end of the input, the
    unwinding and the fall-through emit without looking at the mask.
    Nothing is said of the markers [ATX_H2_MARKER] to [ATX_H6_MARKER], of
    the two markers of ordered lists and of the two opening emphasis
    tokens, which the code emits on the bit of another token. *)
Theorem scan_honours_valid_symbols valid s l s' l' :
  0 <= matched s ->
  scan valid false s l = Returns true s' l' ->
  let tok := result_symbol l' in
  ~ ATX_H2_MARKER <= tok <= ATX_H6_MARKER ->
  tok <> LIST_MARKER_DOT -> tok <> LIST_MARKER_PARENTHETHIS ->
  tok <> EMPHASIS_OPEN_STAR -> tok <> EMPHASIS_OPEN_UNDERSCORE ->
  valid tok = true
  \/ tok = BLOCK_CLOSE \/ tok = BLOCK_CLOSE_LOOSE \/ tok = MATCHING_DONE.
Proof.
  intros H0 H. cbv zeta. intros Hatx Hdot Hpar Hos Hou.
  pose proof (scan_token_cases valid s l s' l' H0 H) as C. cbv zeta in C.
  tauto.
Qed.

(** The theorem at the close of a block quote at the end of the input,
    under a mask that holds [ATX_H1_MARKER] alone. *)
Lemma scan_honours_valid_symbols_witness :
  let valid := valid_of [ATX_H1_MARKER] in
  let s := mkScanner [BLOCK_QUOTE] 2 0 0 0 0 0 0 in
  let tok := BLOCK_CLOSE in
  (0 <= matched s
   /\ ~ ATX_H2_MARKER <= tok <= ATX_H6_MARKER
   /\ tok <> LIST_MARKER_DOT /\ tok <> LIST_MARKER_PARENTHETHIS
   /\ tok <> EMPHASIS_OPEN_STAR /\ tok <> EMPHASIS_OPEN_UNDERSCORE)
  /\ (valid tok = true
      \/ tok = BLOCK_CLOSE \/ tok = BLOCK_CLOSE_LOOSE
      \/ tok = MATCHING_DONE).
Proof.
  cbv zeta.
  assert (Hatx : ~ ATX_H2_MARKER <= BLOCK_CLOSE <= ATX_H6_MARKER)
    by (unfold ATX_H2_MARKER, BLOCK_CLOSE; lia).
  split; [repeat split; first [exact Hatx | discriminate | cbn; lia]|].
  exact (scan_honours_valid_symbols (valid_of [ATX_H1_MARKER])
           (mkScanner [BLOCK_QUOTE] 2 0 0 0 0 0 0) (lexer_of [])
           _ _ ltac:(cbn; lia) eq_refl Hatx
           ltac:(discriminate) ltac:(discriminate)
           ltac:(discriminate) ltac:(discriminate)).
Defined.

(** ** The bound on [matched] *)

Lemma size_of_open_blocks (s s' : Scanner) :
  open_blocks s' = open_blocks s -> size s' = size s.
Proof. unfold size. intros ->. reflexivity. Qed.

Lemma size_of_push (s s' : Scanner) (b : Block) :
  open_blocks s' = open_blocks s ++ [b] -> size s' = size s + 1.
Proof. unfold size. intros ->. rewrite length_app. cbn. lia. Qed.

Lemma size_of_pop (s s' : Scanner) :
  open_blocks s' = removelast (open_blocks s) ->
  size s' = Z.max 0 (size s - 1).
Proof. unfold size. intros ->. rewrite length_removelast. lia. Qed.

Lemma size_of_pop2 (s s' : Scanner) :
  open_blocks s' = removelast (removelast (open_blocks s)) ->
  size s' = Z.max 0 (size s - 2).
Proof. unfold size. intros ->. rewrite !length_removelast. lia. Qed.

Lemma size_of_loosen (s s' : Scanner) :
  open_blocks s' = map loosen (open_blocks s) -> size s' = size s.
Proof. unfold size. intros ->. rewrite length_map. reflexivity. Qed.

(** The size of the new stack, from the equation a step gives. *)
Ltac new_size :=
  match goal with
  | H : open_blocks ?s' = open_blocks ?s |- _ =>
      pose proof (size_of_open_blocks _ _ H)
  | H : open_blocks ?s' = open_blocks ?s ++ [_] |- _ =>
      pose proof (size_of_push _ _ _ H)
  | H : open_blocks ?s' = removelast (removelast (open_blocks ?s)) |- _ =>
      pose proof (size_of_pop2 _ _ H)
  | H : open_blocks ?s' = removelast (open_blocks ?s) |- _ =>
      pose proof (size_of_pop _ _ H)
  | H : open_blocks ?s' = map loosen (open_blocks ?s) |- _ =>
      pose proof (size_of_loosen _ _ H)
  | H : quiet ?s ?s' |- _ =>
      pose proof (quiet_size _ _ H); destruct H
  end.

Lemma transition_matched_bound valid s l s' tok :
  Transition valid s l s' tok ->
  0 <= matched s <= size s + 1 -> eof l = false ->
  0 <= matched s' <= size s' + 1.
Proof.
  intros T Hm He.
  inversion T; subst; try congruence; new_size;
    try match goal with
      | H : matched s' = u8 ?x |- _ =>
          pose proof (u8_le x ltac:(lia)); pose proof (u8_byte x);
          unfold is_byte in *
      end;
    lia.
Qed.

(** C3, as the claim states it, fails: at the end of the input the block
    quote is closed and [matched] stays at 2, above the empty stack. *)
Lemma matched_bound_lost_at_eof :
  let s := mkScanner [BLOCK_QUOTE] 2 0 0 0 0 0 0 in
  exists s' l',
    scan (valid_of []) false s (lexer_of []) = Returns true s' l'
    /\ matched s <= size s + 1
    /\ ~ matched s' <= size s' + 1.
Proof.
  cbv zeta. do 2 eexists. split; [reflexivity|].
  split; cbn; lia.
Qed.

(** C3, amended: every call keeps [matched <= open_blocks.size() + 1]
    but the one the counterexample shows, at the end of the input with a
    block open and [matched] already one above the size of the stack.
    A call that does not return is one that [undefined_call]
    describes. *)
Theorem scan_keeps_matched_bound valid s l :
  0 <= matched s <= size s + 1 ->
  (eof l = true -> 0 < size s -> matched s <= size s) ->
  match scan valid false s l with
  | Returns _ s' _ => 0 <= matched s' <= size s' + 1
  | Undefined => undefined_call valid s
  end.
Proof.
  intros Hm Hend. destruct (eof l) eqn:He.
  - unfold scan, scan_body. rewrite He. unfold scan_eof.
    destruct (size s >? 0) eqn:E; [|exact Hm].
    rewrite size_pop_back by lia.
    cbn [matched pop_back set_open_blocks]. specialize (Hend eq_refl). lia.
  - pose proof (scan_transition valid s l ltac:(lia)) as T.
    destruct (scan valid false s l) as [[] s' l'|]; [| |exact T].
    + destruct T as [T _]. eapply transition_matched_bound; eassumption.
    + destruct T as [T _]. pose proof (quiet_size _ _ T). destruct T. lia.
Qed.

(** The theorem at the close of a block quote at the end of the input,
    with [matched] at the size of the stack, and at a heading in the
    middle of the input. *)
Lemma scan_keeps_matched_bound_witness :
  let s := mkScanner [BLOCK_QUOTE] 1 0 2 0 0 0 0 in
  let l := lexer_of ["#"; " "; "a"]%char in
  (0 <= matched s <= size s + 1
   /\ (eof (lexer_of []) = true -> 0 < size s -> matched s <= size s)
   /\ eof l = false)
  /\ match scan (valid_of []) false s (lexer_of []) with
     | Returns _ s' _ => 0 <= matched s' <= size s' + 1
     | Undefined => undefined_call (valid_of []) s
     end
  /\ match scan (valid_of [ATX_H1_MARKER]) false s l with
     | Returns _ s' _ => 0 <= matched s' <= size s' + 1
     | Undefined => undefined_call (valid_of [ATX_H1_MARKER]) s
     end.
Proof.
  cbv zeta.
  split; [split; [cbn; lia | split; [intros _ _; cbn; lia | reflexivity]]|].
  split.
  - apply (scan_keeps_matched_bound (valid_of [])
             (mkScanner [BLOCK_QUOTE] 1 0 2 0 0 0 0) (lexer_of []));
      [cbn; lia | intros _ _; cbn; lia].
  - apply (scan_keeps_matched_bound (valid_of [ATX_H1_MARKER])
             (mkScanner [BLOCK_QUOTE] 1 0 2 0 0 0 0)
             (lexer_of ["#"; " "; "a"]%char));
      [cbn; lia | discriminate].
Defined.

(** ** [serialize] and [deserialize] *)

Lemma serialize_eq (s : Scanner) :
  serialize s
  = ([ matched s; indentation s; column s; code_span_delimiter_length s;
       num_emphasis_delimiters s; num_emphasis_delimiters_left s;
       emphasis_delimiters_is_open s ]
       ++ firstn (Z.to_nat (Z.min (size s) 248)) (open_blocks s),
     7 + Z.min (size s) 248).
Proof.
  unfold serialize, UINT8_MAX.
  destruct (size s >? 255 - 7) eqn:E.
  - replace (Z.min (size s) 248) with (255 - 7) by lia. reflexivity.
  - replace (Z.min (size s) 248) with (size s) by lia. reflexivity.
Qed.

Lemma set_open_blocks_same (s : Scanner) : set_open_blocks s (open_blocks s) = s.
Proof. destruct s. reflexivity. Qed.

(** C2: [deserialize] restores from the bytes of [serialize], whatever
    follows them in the buffer, the state that was serialized, with the
    stack cut down to its first 248 blocks; all of the buffer that is read
    is the bytes written, and these are at most 255. *)
Theorem serialize_deserialize (s : Scanner) (rest : list Z) :
  wf_scanner s ->
  let '(buffer, length) := serialize s in
  deserialize (buffer ++ rest) length
  = Restored (set_open_blocks s (firstn 248 (open_blocks s))) length
  /\ length <= 255
  /\ ((List.length (open_blocks s) <= 248)%nat ->
      set_open_blocks s (firstn 248 (open_blocks s)) = s).
Proof.
  intros [Hb Hm Hi Hc Hd Hn Hl Ho].
  rewrite serialize_eq.
  pose proof (size_nonneg s) as Hs.
  set (n := Z.min (size s) 248).
  assert (Hn' : 0 <= n <= 248 /\ n <= size s
                /\ (size s <= 248 -> n = size s) /\ (size s > 248 -> n = 248))
    by (unfold n; lia).
  split; [|split; [lia|]].
  - unfold deserialize.
    destruct (7 + n >? 0) eqn:Epos; [|lia].
    cbn [app].
    replace (size_t (7 + n - 7)) with n
      by (unfold size_t; rewrite Z.mod_small; lia).
    destruct (n >? vector_max_size) eqn:Emax;
      [unfold vector_max_size in Emax; lia|].
    assert (Hlen : List.length
                     (firstn (Z.to_nat n) (open_blocks s)) = Z.to_nat n).
    { rewrite length_firstn. unfold size in *. lia. }
    match goal with
    | |- context [7 + n >? Z.of_nat ?x] =>
        destruct (7 + n >? Z.of_nat x) eqn:Eread
    end.
    { exfalso. revert Eread. cbn [List.length].
      rewrite length_app, Hlen. lia. }
    rewrite !u8_id by assumption.
    f_equal. unfold set_open_blocks. f_equal.
    unfold copy_blocks. change (Z.to_nat 7) with 7%nat. cbn [skipn].
    rewrite firstn_app, Hlen, Nat.sub_diag, firstn_O.
    rewrite app_nil_r, firstn_firstn, Nat.min_id.
    unfold size in *.
    destruct (Z_le_gt_dec (Z.of_nat (List.length (open_blocks s))) 248).
    + rewrite !firstn_all2 by lia. reflexivity.
    + f_equal. lia.
  - intros Hsmall. rewrite firstn_all2 by lia. apply set_open_blocks_same.
Qed.

Lemma serialize_deserialize_witness :
  let s := mkScanner [BLOCK_QUOTE; 4; FENCED_CODE_BLOCK_TILDE] 2 1 5 3 2 1 1 in
  wf_scanner s
  /\ deserialize (fst (serialize s) ++ [7; 7]) (snd (serialize s))
     = Restored s 10.
Proof.
  cbv zeta.
  assert (W : wf_scanner
                (mkScanner [BLOCK_QUOTE; 4; FENCED_CODE_BLOCK_TILDE]
                   2 1 5 3 2 1 1)).
  { constructor; cbn; unfold is_byte;
      repeat constructor; unfold BLOCK_QUOTE, FENCED_CODE_BLOCK_TILDE; lia. }
  split; [exact W|].
  exact (proj1 (serialize_deserialize _ [7; 7] W)).
Defined.

(** At the lengths that [serialize] never returns, from 1 to 6, the seven
    scalar bytes are read all the same, beyond the [length] first ones,
    and [length - i] wraps around to a block count near 2^64, which
    [resize] refuses. *)
Lemma deserialize_short_length (buffer : list Z) (length : Z) :
  1 <= length <= 6 -> (7 <= List.length buffer)%nat ->
  deserialize buffer length = LengthError (2 ^ 64 + length - 7) 7
  /\ length < 7.
Proof.
  intros Hl Hb. split; [|lia]. unfold deserialize.
  destruct (length >? 0) eqn:E; [|lia].
  do 7 (destruct buffer as [|? buffer]; [cbn in Hb; lia|]).
  assert (Hs : size_t (length - 7) = 2 ^ 64 + length - 7).
  { unfold size_t.
    replace (length - 7) with (2 ^ 64 + length - 7 + (-1) * 2 ^ 64) by lia.
    rewrite Z.mod_add by lia. apply Z.mod_small. lia. }
  rewrite Hs.
  destruct (_ >? vector_max_size) eqn:Em; [reflexivity|].
  unfold vector_max_size in Em. lia.
Qed.

(** C10, as the claim states it, fails: at length 3 seven bytes are
    read, and the block count is not 0 but [2^64 - 4]. *)
Lemma deserialize_short_length_counterexample :
  exists blocks_count bytes_read,
    deserialize [1; 0; 0; 0; 0; 0; 0; 2; 2] 3
    = LengthError blocks_count bytes_read
    /\ 3 < bytes_read /\ blocks_count = 2 ^ 64 - 4.
Proof.
  exists (2 ^ 64 + 3 - 7), 7.
  split; [|split; lia].
  apply (deserialize_short_length [1; 0; 0; 0; 0; 0; 0; 2; 2] 3);
    [lia | cbn; lia].
Qed.

(** C10, amended: at the lengths [deserialize] is called with - 0 by the
    constructor, and by the host a length that [serialize] has returned,
    which is 7 at least - it reads the [length] first bytes of the
    buffer and no others: none at length 0, where the state is the fresh
    one, and else the seven scalar fields and [length - 7] blocks, a
    count that does not wrap around. *)
Theorem deserialize_reads_length (buffer : list Z) (length : Z) :
  length = 0 \/ 7 <= length < 2 ^ 32 ->
  length <= Z.of_nat (List.length buffer) ->
  exists s,
    deserialize buffer length = Restored s length
    /\ size s = Z.max 0 (length - 7)
    /\ open_blocks s = firstn (Z.to_nat (length - 7)) (skipn 7 buffer)
    /\ (length = 0 -> s = fresh_scanner).
Proof.
  intros [-> | Hl] Hb.
  - exists fresh_scanner. repeat split.
  - unfold deserialize. replace (length >? 0) with true by lia.
    do 7 (destruct buffer as [|? buffer]; [cbn [List.length] in Hb; lia|]).
    assert (Hs : size_t (length - 7) = length - 7)
      by (unfold size_t; apply Z.mod_small; lia).
    rewrite Hs.
    replace (length - 7 >? vector_max_size) with false
      by (unfold vector_max_size; lia).
    replace (7 + (length - 7) >? Z.of_nat (List.length _)) with false by lia.
    eexists. split; [f_equal; lia|].
    cbn [open_blocks]. unfold size, copy_blocks. cbn [open_blocks].
    change (Z.to_nat 7) with 7%nat. cbn [skipn].
    split; [|split; [reflexivity | lia]].
    rewrite length_firstn. cbn [List.length] in Hb. lia.
Qed.

(** The theorem at the nine bytes of a state with two open blocks. *)
Lemma deserialize_reads_length_witness :
  ((9 = 0 \/ 7 <= 9 < 2 ^ 32)
   /\ 9 <= Z.of_nat (List.length [1; 0; 0; 0; 0; 0; 0; 2; 2]))
  /\ exists s,
       deserialize [1; 0; 0; 0; 0; 0; 0; 2; 2] 9 = Restored s 9
       /\ open_blocks s = [2; 2].
Proof.
  split; [split; [right; lia | cbn; lia]|].
  destruct (deserialize_reads_length [1; 0; 0; 0; 0; 0; 0; 2; 2] 9
              ltac:(right; lia) ltac:(cbn; lia))
    as (s & H1 & _ & H3 & _).
  exists s. split; [exact H1 | exact H3].
Defined.

(** ** Line endings *)

(** C4, for ['\n']: the call emits [LINE_ENDING], consumes the one
    character and resets [matched], [indentation] and [column]. *)
Lemma scan_line_feed valid s l :
  eof l = false -> matched s > size s -> valid LINE_ENDING = true ->
  valid VIRTUAL_SPACE && (indentation s >? 0) = false ->
  lookahead l = LF ->
  exists s' l',
    scan valid false s l = Returns true s' l'
    /\ result_symbol l' = LINE_ENDING
    /\ position l' = S (position l)
    /\ matched s' = 0 /\ indentation s' = 0 /\ column s' = 0.
Proof.
  intros He Hm Hv Hvs Hl.
  unfold scan, scan_body, scan_inline, inline_switch.
  rewrite He, Hvs, Hl.
  destruct (matched s >? size s) eqn:E; [|lia].
  cbn [Z.eqb CR LF Pos.eqb]. unfold case_lf. rewrite Hv.
  unfold advance, lexer_advance. rewrite He.
  do 2 eexists. split; [reflexivity|]. cbn. repeat split.
Qed.

Lemma lexer_advance_position (l : Lexer) (skip : bool) :
  (position l <= length (text l))%nat ->
  position (lexer_advance l skip)
  = Nat.min (length (text l)) (S (position l))
  /\ text (lexer_advance l skip) = text l.
Proof.
  intros H. unfold lexer_advance. destruct (eof l) eqn:E; unfold eof in E.
  - apply Nat.leb_le in E. split; [lia | reflexivity].
  - apply Nat.leb_gt in E. cbn. split; [lia | reflexivity].
Qed.

(** C4, for ['\r']: [LINE_ENDING] is emitted and the line state reset, but
    the [advance] of line 196 comes on top of those of lines 192 and 194:
    one character more than the line ending is consumed whenever the input
    goes on after it. *)
Theorem scan_carriage_return valid s l :
  eof l = false -> matched s > size s -> valid LINE_ENDING = true ->
  valid VIRTUAL_SPACE && (indentation s >? 0) = false ->
  lookahead l = CR ->
  exists s' l',
    scan valid false s l = Returns true s' l'
    /\ result_symbol l' = LINE_ENDING
    /\ matched s' = 0 /\ indentation s' = 0 /\ column s' = 0
    /\ position l'
       = Nat.min (length (text l))
           (position l
            + (if (nth (S (position l)) (text l) 0 =? LF)%Z
               then 3 else 2))%nat.
Proof.
  intros He Hm Hv Hvs Hl.
  unfold scan, scan_body, scan_inline, inline_switch.
  rewrite He, Hvs, Hl.
  destruct (matched s >? size s) eqn:E; [|lia].
  cbn [Z.eqb CR LF Pos.eqb]. unfold case_cr. rewrite Hv.
  unfold advance. cbv zeta.
  pose proof He as Hlen. unfold eof in Hlen. apply Nat.leb_gt in Hlen.
  destruct (lexer_advance_position l true ltac:(lia)) as [Hp1 Ht1].
  assert (Hla : lookahead (lexer_advance l true)
                = nth (S (position l)) (text l) 0).
  { unfold lexer_advance. rewrite He. reflexivity. }
  rewrite Hla.
  destruct (nth (S (position l)) (text l) 0 =? LF) eqn:En.
  - assert (He1 : eof (lexer_advance l true) = false).
    { apply lookahead_nonzero. rewrite Hla. unfold LF in En. lia. }
    pose proof He1 as Hlen1. unfold eof in Hlen1. apply Nat.leb_gt in Hlen1.
    destruct (lexer_advance_position (lexer_advance l true) true
                ltac:(rewrite Hp1, Ht1; lia)) as [Hp2 Ht2].
    destruct (lexer_advance_position
                (lexer_advance (lexer_advance l true) true) true
                ltac:(rewrite Hp2, Ht2, Hp1, Ht1; lia)) as [Hp3 Ht3].
    do 2 eexists. split; [reflexivity|].
    cbn [result_symbol set_result_symbol line_reset matched indentation column
         set_matched set_indentation set_column position].
    repeat split. rewrite Hp3, Ht2, Ht1, Hp2, Ht1, Hp1. lia.
  - destruct (lexer_advance_position (lexer_advance l true) true
                ltac:(rewrite Hp1, Ht1; lia)) as [Hp2 Ht2].
    do 2 eexists. split; [reflexivity|].
    cbn [result_symbol set_result_symbol line_reset matched indentation column
         set_matched set_indentation set_column position].
    repeat split. rewrite Hp2, Ht1, Hp1. lia.
Qed.

(** The theorem at ["\ra b"]: the call for the line ending consumes the
    ['a'] too. *)
Lemma scan_carriage_return_witness :
  let valid := valid_of [LINE_ENDING] in
  let s := mkScanner [] 1 0 3 0 0 0 0 in
  let l := lexer_of ["013"; "a"; " "; "b"]%char in
  exists s' l',
    scan valid false s l = Returns true s' l'
    /\ result_symbol l' = LINE_ENDING
    /\ matched s' = 0 /\ indentation s' = 0 /\ column s' = 0
    /\ position l' = 2%nat.
Proof.
  cbv zeta.
  exact (scan_carriage_return (valid_of [LINE_ENDING])
           (mkScanner [] 1 0 3 0 0 0 0)
           (lexer_of ["013"; "a"; " "; "b"]%char)
           eq_refl ltac:(cbn; lia) eq_refl eq_refl eq_refl).
Defined.

(** ** The indentation of block openers *)

(** The tokens as numbers. *)
Ltac token_numbers :=
  unfold LINE_ENDING, INDENTATION, VIRTUAL_SPACE, MATCHING_DONE, BLOCK_CLOSE,
    BLOCK_CLOSE_LOOSE, BLOCK_CONTINUATION, LAZY_CONTINUATION,
    BLOCK_QUOTE_START, INDENTED_CHUNK_START, ATX_H1_MARKER, ATX_H2_MARKER,
    ATX_H3_MARKER, ATX_H4_MARKER, ATX_H5_MARKER, ATX_H6_MARKER,
    SETEXT_H1_UNDERLINE, SETEXT_H2_UNDERLINE,
    SETEXT_H2_UNDERLINE_OR_THEMATIC_BREAK, THEMATIC_BREAK, LIST_MARKER_MINUS,
    LIST_MARKER_PLUS, LIST_MARKER_STAR, LIST_MARKER_PARENTHETHIS,
    LIST_MARKER_DOT, FENCED_CODE_BLOCK_START, BLANK_LINE, CODE_SPAN_START,
    CODE_SPAN_CLOSE, LAST_TOKEN_WHITESPACE, LAST_TOKEN_PUNCTUATION,
    EMPHASIS_OPEN_STAR, EMPHASIS_OPEN_UNDERSCORE, EMPHASIS_CLOSE_STAR,
    EMPHASIS_CLOSE_UNDERSCORE in *.

Lemma close_symbol_cases (block : Z) :
  close_symbol block = BLOCK_CLOSE \/ close_symbol block = BLOCK_CLOSE_LOOSE.
Proof. unfold close_symbol. destruct (is_loose_list_item block); auto. Qed.

(** The openers that test [indentation <= 3] - ATX headings, thematic
    breaks, Setext H2 underlines and list markers - emit nothing beyond
    it. *)
Lemma guarded_openers_indentation valid s l s' l' :
  0 <= matched s ->
  scan valid false s l = Returns true s' l' ->
  let tok := result_symbol l' in
  ATX_H1_MARKER <= tok <= ATX_H6_MARKER
  \/ tok = THEMATIC_BREAK \/ tok = SETEXT_H2_UNDERLINE
  \/ tok = SETEXT_H2_UNDERLINE_OR_THEMATIC_BREAK
  \/ LIST_MARKER_MINUS <= tok <= LIST_MARKER_DOT ->
  indentation s <= 3.
Proof.
  intros H0 H. pose proof (scan_transition valid s l H0) as T.
  rewrite H in T. destruct T as [T _]. cbv zeta. clear H.
  generalize dependent (result_symbol l'). intros tok T Htok.
  inversion T; subst; try assumption;
    try match goal with
      | H : context [close_symbol ?b] |- _ =>
          destruct (close_symbol_cases b) as [E | E]; rewrite E in *
      end;
    unfold list_marker in *; token_numbers; lia.
Qed.

(** C5 at a block quote: the ['>'] case has no test of the indentation.
    Where no indented chunk can start - [INDENTED_CHUNK_START] is not
    valid, or a paragraph may go on ([LAZY_CONTINUATION] is valid) - a
    block quote opens at any indentation. *)
Theorem block_quote_opens_at_any_indentation valid s l :
  eof l = false -> matched s = size s -> lookahead l = chr ">" ->
  valid BLOCK_QUOTE_START = true ->
  valid INDENTED_CHUNK_START = false \/ valid LAZY_CONTINUATION = true ->
  exists s' l',
    scan valid false s l = Returns true s' l'
    /\ result_symbol l' = BLOCK_QUOTE_START
    /\ open_blocks s' = open_blocks s ++ [BLOCK_QUOTE].
Proof.
  intros He Hm Hl Hv Hic.
  unfold scan, scan_body. rewrite He.
  destruct (matched s >? size s) eqn:Ep; [lia|].
  rewrite Hl. replace (is_space_or_tab (chr ">")) with false by reflexivity.
  rewrite andb_false_r. cbv zeta.
  assert (E1 : indented_chunk valid false s l = Break s l).
  { unfold indented_chunk, matching_of. cbn [negb andb].
    replace (matched s <? size s) with false by lia.
    cbn [negb andb orb]. rewrite !andb_false_r, orb_false_r, andb_true_r.
    destruct Hic as [-> | Hlz]; [reflexivity|].
    rewrite Hlz. cbn [negb].
    repeat match goal with
      | |- context [if ?c then _ else _] => destruct c
      end; reflexivity. }
  rewrite E1.
  assert (E2 : list_item_continuation valid false s l = Break s l).
  { unfold list_item_continuation, matching_of. cbn [negb andb].
    replace (matched s <? size s) with false by lia.
    rewrite andb_false_r. reflexivity. }
  rewrite E2.
  unfold block_switch. rewrite Hl. cbv zeta.
  replace ((chr ">" =? LF) || (chr ">" =? CR)) with false by reflexivity.
  replace (chr ">" =? chr ">") with true by reflexivity.
  unfold case_block_quote, matching_of. cbn [negb andb].
  replace (matched s <? size s) with false by lia.
  rewrite Hv. cbn [negb andb orb].
  unfold advance. cbv zeta.
  destruct (is_space_or_tab _);
    do 2 eexists; (split; [reflexivity|]); split; reflexivity.
Qed.

(** The theorem at a line indented by four columns that may continue a
    paragraph. *)
Lemma block_quote_opens_at_any_indentation_witness :
  let valid := valid_of [BLOCK_QUOTE_START; INDENTED_CHUNK_START;
                         LAZY_CONTINUATION] in
  let s := mkScanner [] 0 4 4 0 0 0 0 in
  let l := mkLexer (map chr [" "; " "; " "; " "; ">"; " "; "a"]%char)
             4 4 None 0 in
  indentation s = 4
  /\ exists s' l',
       scan valid false s l = Returns true s' l'
       /\ result_symbol l' = BLOCK_QUOTE_START
       /\ open_blocks s' = open_blocks s ++ [BLOCK_QUOTE].
Proof.
  cbv zeta. split; [reflexivity|].
  exact (block_quote_opens_at_any_indentation
           (valid_of [BLOCK_QUOTE_START; INDENTED_CHUNK_START;
                      LAZY_CONTINUATION])
           (mkScanner [] 0 4 4 0 0 0 0)
           (mkLexer (map chr [" "; " "; " "; " "; ">"; " "; "a"]%char)
              4 4 None 0)
           eq_refl eq_refl eq_refl eq_refl (or_intror eq_refl)).
Defined.


(** ** The shape of the stack *)

Lemma block_at_same (s s' : Scanner) (i : Z) :
  open_blocks s' = open_blocks s -> block_at s' i = block_at s i.
Proof. unfold block_at. intros ->. reflexivity. Qed.

Lemma block_at_push_old (s s' : Scanner) (b i : Z) :
  open_blocks s' = open_blocks s ++ [b] -> 0 <= i < size s ->
  block_at s' i = block_at s i.
Proof.
  unfold block_at, size. intros -> H. apply app_nth1. lia.
Qed.

Lemma block_at_push_new (s s' : Scanner) (b : Z) :
  open_blocks s' = open_blocks s ++ [b] -> block_at s' (size s) = b.
Proof.
  unfold block_at, size. intros ->. rewrite Nat2Z.id, app_nth2 by lia.
  rewrite Nat.sub_diag. reflexivity.
Qed.

Lemma block_at_pop (s s' : Scanner) (i : Z) :
  open_blocks s' = removelast (open_blocks s) -> 0 <= i < size s - 1 ->
  block_at s' i = block_at s i.
Proof.
  unfold block_at, size. intros -> H. apply nth_removelast. lia.
Qed.

Lemma block_at_pop2 (s s' : Scanner) (i : Z) :
  open_blocks s' = removelast (removelast (open_blocks s)) ->
  0 <= i < size s - 2 -> block_at s' i = block_at s i.
Proof.
  unfold block_at, size. intros -> H.
  rewrite !nth_removelast; [reflexivity | lia |].
  rewrite length_removelast. lia.
Qed.

Lemma block_at_loosen (s s' : Scanner) (i : Z) :
  open_blocks s' = map loosen (open_blocks s) -> 0 <= i < size s ->
  block_at s' i = loosen (block_at s i).
Proof.
  unfold block_at, size. intros -> H.
  rewrite (nth_indep _ 0 (loosen 0)) by (rewrite length_map; lia).
  apply map_nth.
Qed.

(** The classes of blocks, as ranges of tags. *)
Ltac block_classes :=
  repeat progress
    unfold is_leaf, is_fence, is_list_item, is_tight_list_item,
      is_loose_list_item, loosen, list_item_block, to_Block, close_symbol,
      BLOCK_QUOTE, INDENTED_CODE_BLOCK, TIGHT_LIST_ITEM,
      TIGHT_LIST_ITEM_MAX_INDENTATION, LOOSE_LIST_ITEM,
      LOOSE_LIST_ITEM_MAX_INDENTATION, FENCED_CODE_BLOCK_TILDE,
      FENCED_CODE_BLOCK_BACKTICK in *.

Lemma is_leaf_loosen (b : Z) : is_leaf (loosen b) = is_leaf b.
Proof.
  block_classes.
  destruct ((b >=? 2) && (b <=? 8)) eqn:E; [|reflexivity].
  rewrite Z.mod_small by lia. lia.
Qed.




Lemma list_item_block_tight (indent e : Z) :
  0 <= indent <= 3 -> 1 <= e ->
  is_tight_list_item (list_item_block indent e) = true
  /\ list_item_indentation (list_item_block indent e)
     = (if e <=? 4 then indent + 1 + e else indent + 2).
Proof.
  intros Hi He. unfold list_item_indentation, u8. block_classes.
  destruct (e - 1 <=? 3) eqn:E1; destruct (e <=? 4) eqn:E2; try lia;
    rewrite (Z.mod_small (2 + _)) by lia;
    (split; [lia|]);
    match goal with
    | |- context [if ?c then _ else _] => destruct c eqn:E3; [|lia]
    end;
    rewrite Z.mod_small; lia.
Qed.

Lemma list_item_block_not_leaf (indent e : Z) :
  0 <= indent <= 3 -> 1 <= e -> is_leaf (list_item_block indent e) = false.
Proof.
  intros Hi He.
  destruct (list_item_block_tight indent e Hi He) as [H _].
  revert H. generalize (list_item_block indent e). intros b.
  block_classes. lia.
Qed.

(** A step keeps the shape of the stack. *)
Lemma transition_stack_shape valid s l s' tok :
  Transition valid s l s' tok -> indentation_kept s s' ->
  stack_shape s -> stack_shape s'.
Proof.
  intros T Hk [Hm Hi Hinner Htop].
  assert (Hi' : is_byte (indentation s'))
    by (destruct Hk as [-> | Hk]; assumption).
  assert (Hfence : forall b, is_fence b = true -> is_leaf b = true)
    by (intros b Hb; unfold is_leaf; rewrite Hb; apply orb_true_r).
  assert (Hat : matched s < size s ->
                is_leaf (block_at s (matched s)) = true ->
                matched s = size s - 1).
  { intros Hlt Hleaf. destruct (Z_lt_le_dec (matched s) (size s - 1)); [|lia].
    rewrite Hinner in Hleaf by (unfold is_byte in Hm; lia). discriminate. }
  assert (Hnot : matched s = size s -> size s > 0 ->
                 is_leaf (block_at s (size s - 1)) = false).
  { intros Heq Hpos.
    destruct (is_leaf (block_at s (size s - 1))) eqn:Et; [|reflexivity].
    exfalso. exact (Htop Hpos eq_refl Heq). }
  assert (Hall : matched s = size s -> forall i, 0 <= i < size s ->
                 is_leaf (block_at s i) = false).
  { intros Heq i Hir. destruct (Z.eq_dec i (size s - 1)) as [-> | Hne].
    - apply Hnot; lia.
    - apply Hinner. lia. }
  pose proof (size_nonneg s) as Hs0.
  pose proof (size_nonneg s') as Hs0'.
  unfold is_byte in Hm.
  inversion T; subst; new_size.
  all: constructor; try assumption;
    try match goal with
      | H : matched ?x = u8 _ |- is_byte (matched ?x) =>
          rewrite H; apply u8_byte
      | H : matched ?x = _ |- is_byte (matched ?x) =>
          rewrite H; unfold is_byte; lia
      end.
  (* the blocks below the deepest one *)
  all: try (intros i Hir;
            first
              [ rewrite (block_at_same s s' i) by assumption;
                apply Hinner; lia
              | erewrite block_at_pop by (eassumption || lia);
                apply Hinner; lia
              | erewrite block_at_pop2 by (eassumption || lia);
                apply Hinner; lia
              | erewrite block_at_push_old by (eassumption || lia);
                apply Hall; lia
              | erewrite block_at_loosen by (eassumption || lia);
                rewrite is_leaf_loosen; apply Hinner; lia ]).
  (* the deepest block *)
  all: intros Hpos Hleaf.
  all: try (erewrite block_at_pop in Hleaf by (eassumption || lia);
            rewrite Hinner in Hleaf by lia; discriminate).
  all: try (erewrite block_at_pop2 in Hleaf by (eassumption || lia);
            rewrite Hinner in Hleaf by lia; discriminate).
  all: try (erewrite block_at_loosen in Hleaf by (eassumption || lia);
            rewrite is_leaf_loosen in Hleaf;
            replace (size s' - 1) with (size s - 1) in Hleaf by lia;
            rewrite Hnot in Hleaf by lia; discriminate).
  all: try (rewrite (block_at_same s s') in Hleaf by assumption;
            replace (size s' - 1) with (size s - 1) in Hleaf by lia).
  (* the blocks pushed *)
  all: try (replace (size s' - 1) with (size s) in Hleaf by lia;
            erewrite block_at_push_new in Hleaf by eassumption).
  all: try (rewrite list_item_block_not_leaf in Hleaf
              by (unfold is_byte in Hi; lia); discriminate).
  all: try discriminate.
  (* [matched] against the size *)
  all: try match goal with
         | H : block_at _ (matched _) = INDENTED_CODE_BLOCK |- _ =>
             pose proof (Hat ltac:(lia) ltac:(rewrite H; reflexivity))
         | H : is_fence (block_at _ (matched _)) = true |- _ =>
             pose proof (Hat ltac:(lia) (Hfence _ H))
         | H : is_list_item (block_at _ (matched _)) = true
               \/ block_at _ (matched _) = BLOCK_QUOTE |- _ =>
             assert (matched s <> size s - 1)
               by (intros E; rewrite <- E in Hleaf; revert Hleaf;
                   destruct H as [H | H];
                   [ revert H; generalize (block_at s (matched s)); intro;
                     block_classes; lia
                   | rewrite H; discriminate ])
         end.
  all: try match goal with
         | H : matched _ = u8 ?x |- _ =>
             pose proof (u8_le x ltac:(lia));
             pose proof (u8_succ_neq (x - 1) ltac:(lia)) as Hne;
             replace (x - 1 + 1) with x in Hne by lia
         end.
  all: try (pose proof (fun H => Htop H Hleaf)).
  all: lia.
Qed.


Lemma call_stack_shape s tok s' : call s tok s' -> stack_shape s -> stack_shape s'.
Proof.
  intros (valid & l & b & l' & H & _) Hs.
  pose proof (scan_transition valid s l ltac:(destruct Hs as [[] _ _ _]; lia))
    as T.
  unfold external_scanner_scan in H. rewrite H in T. destruct b.
  - destruct T as [T Hk]. eapply transition_stack_shape; eassumption.
  - destruct T as [[Hb Hm] Hi]. destruct Hs as [H1 H2 H3 H4].
    pose proof (size_of_open_blocks _ _ Hb) as Hsz.
    constructor.
    + rewrite Hm. exact H1.
    + rewrite Hi. exact H2.
    + intros i Hir. rewrite (block_at_same _ _ i Hb). apply H3. lia.
    + rewrite Hsz, Hm, (block_at_same _ _ _ Hb). exact H4.
Qed.

Lemma fresh_stack_shape : stack_shape fresh_scanner.
Proof.
  constructor; cbn; unfold is_byte; lia.
Qed.

Lemma reachable_stack_shape s : reachable s -> stack_shape s.
Proof.
  induction 1 as [|s tok s' _ IH Hc];
    [apply fresh_stack_shape | eapply call_stack_shape; eassumption].
Qed.

(** ** Loose list items *)










(** ** Closing fences *)

Lemma rest_lookahead (l : Lexer) :
  eof l = false -> rest l = lookahead l :: skipn (S (position l)) (text l).
Proof.
  unfold eof, rest, lookahead. intros H. apply Nat.leb_gt in H.
  generalize dependent (position l). generalize (text l).
  induction l0 as [|x xs IH]; intros [|n] H; cbn in *; try lia;
    [reflexivity | apply IH; lia].
Qed.

Lemma rest_eof (l : Lexer) : eof l = true -> rest l = [].
Proof.
  unfold eof, rest. intros H. apply Nat.leb_le in H.
  apply skipn_all2. exact H.
Qed.

Lemma rest_advance (l : Lexer) (skip : bool) :
  eof l = false ->
  rest (lexer_advance l skip) = skipn (S (position l)) (text l).
Proof.
  intros H. unfold lexer_advance. rewrite H. reflexivity.
Qed.

(** [count_run] counts the run of [c] at the lookahead and stops behind
    it. *)
Lemma count_run_spec c skip s l level s' l' :
  c <> 0 -> count_run c skip s l = (level, s', l') ->
  level = Z.of_nat (run_length c (rest l))
  /\ position l' = (position l + run_length c (rest l))%nat
  /\ text l' = text l.
Proof.
  intros Hc. unfold count_run, while_lookahead.
  assert (G : forall fuel level0 s0 l0,
             (remaining l0 <= fuel)%nat ->
             while_fuel (fun _ la => la =? c)
               (fun level s l =>
                  let '(_, s, l) := advance s l skip in (level + 1, s, l))
               fuel level0 s0 l0 = (level, s', l') ->
             level = level0 + Z.of_nat (run_length c (rest l0))
             /\ position l' = (position l0 + run_length c (rest l0))%nat
             /\ text l' = text l0).
  { induction fuel as [|fuel IH]; intros level0 s0 l0 Hf H; cbn in H;
      destruct (lookahead l0 =? c) eqn:E.
    - exfalso. assert (He : eof l0 = true)
        by (unfold eof; apply Nat.leb_le; unfold remaining in Hf; lia).
      apply lookahead_eof in He. lia.
    - injection H as <- <- <-.
      destruct (eof l0) eqn:He.
      + rewrite rest_eof by exact He. cbn. repeat split; lia.
      + rewrite rest_lookahead by exact He. cbn. rewrite E. cbn.
        repeat split; lia.
    - assert (He : eof l0 = false) by (apply lookahead_nonzero; lia).
      unfold advance in H. cbv zeta in H.
      apply IH in H.
      + rewrite rest_advance in H by exact He.
        rewrite rest_lookahead by exact He. cbn [run_length]. rewrite E.
        destruct H as (H1 & H2 & H3). unfold lexer_advance in H2, H3.
        rewrite He in H2, H3. cbn [position text] in H2, H3.
        repeat split; lia || assumption.
      + rewrite remaining_advance by exact He. lia.
    - injection H as <- <- <-.
      destruct (eof l0) eqn:He.
      + rewrite rest_eof by exact He. cbn. repeat split; lia.
      + rewrite rest_lookahead by exact He. cbn. rewrite E. cbn.
        repeat split; lia. }
  intros H. apply G in H; [|lia]. destruct H as (H1 & H2 & H3).
  repeat split; lia || assumption.
Qed.









(** ** List markers *)

(** *** The loops, one round at a time *)

Lemma while_lookahead_stop {A : Type} (test : A -> Z -> bool)
  (body : A -> Scanner -> Lexer -> A * Scanner * Lexer) a s l :
  test a (lookahead l) = false -> while_lookahead test body a s l = (a, s, l).
Proof.
  intros H. unfold while_lookahead.
  destruct (remaining l); cbn [while_fuel]; rewrite H; reflexivity.
Qed.

Lemma while_lookahead_step {A : Type} (test : A -> Z -> bool)
  (body : A -> Scanner -> Lexer -> A * Scanner * Lexer) a s l a1 s1 l1 :
  test a (lookahead l) = true -> eof l = false ->
  body a s l = (a1, s1, l1) -> remaining l1 = pred (remaining l) ->
  while_lookahead test body a s l = while_lookahead test body a1 s1 l1.
Proof.
  intros Ht He Hb Hr. unfold while_lookahead. rewrite Hr.
  destruct (remaining l) eqn:E.
  - unfold remaining in E. unfold eof in He. apply Nat.leb_gt in He. lia.
  - cbn [while_fuel pred]. rewrite Ht, Hb. reflexivity.
Qed.

Lemma rest_cases (l : Lexer) :
  (eof l = true /\ lookahead l = 0 /\ rest l = [])
  \/ (eof l = false
      /\ rest l = lookahead l :: rest (lexer_advance l false)).
Proof.
  destruct (eof l) eqn:E.
  - left. auto using lookahead_eof, rest_eof.
  - right. split; [reflexivity|].
    rewrite rest_advance by exact E. apply rest_lookahead. exact E.
Qed.

Lemma space_or_tab_nonzero (c : Z) : is_space_or_tab c = true -> c <> 0.
Proof. unfold is_space_or_tab, SPACE, TAB. lia. Qed.

(** The whitespace loop measures [whitespace_columns] and stops behind
    the whitespace. *)
Lemma count_whitespace_columns s l e s' l' :
  count_whitespace s l = (e, s', l') ->
  e = whitespace_columns (column s) (rest l)
  /\ rest l' = skip_spaces (rest l).
Proof.
  unfold count_whitespace.
  assert (G : forall n a s0 l0,
             remaining l0 = n ->
             while_lookahead (fun _ la => is_space_or_tab la)
               (fun extra_indentation s l =>
                  let '(n, s, l) := advance s l false in
                  (extra_indentation + n, s, l))
               a s0 l0 = (e, s', l') ->
             e = a + whitespace_columns (column s0) (rest l0)
             /\ rest l' = skip_spaces (rest l0)).
  { induction n as [|n IH]; intros a s0 l0 Hn H;
      destruct (is_space_or_tab (lookahead l0)) eqn:E.
    - apply space_or_tab_nonzero, lookahead_nonzero in E.
      unfold eof in E. apply Nat.leb_gt in E. unfold remaining in Hn. lia.
    - rewrite while_lookahead_stop in H by exact E.
      injection H as <- <- <-.
      destruct (rest_cases l0) as [(_ & _ & ->) | (_ & ->)];
        cbn [whitespace_columns skip_spaces]; rewrite ?E; split; lia || reflexivity.
    - pose proof (lookahead_nonzero _ (space_or_tab_nonzero _ E)) as He.
      rewrite (while_lookahead_step _ _ _ _ _
                 (a + advance_size s0 l0)
                 (set_column s0 (u8 (column s0 + advance_size s0 l0)))
                 (lexer_advance l0 false)) in H;
        [| exact E | exact He | reflexivity
         | apply remaining_advance; exact He].
      apply IH in H; [|rewrite remaining_advance by exact He; lia].
      destruct (rest_cases l0) as [(He' & _) | (_ & ->)]; [congruence|].
      cbn [whitespace_columns skip_spaces]. rewrite E.
      cbn [column set_column] in H. unfold advance_size in H. cbv zeta.
      destruct H as [H1 H2]. split; [lia | exact H2].
    - rewrite while_lookahead_stop in H by exact E.
      injection H as <- <- <-.
      destruct (rest_cases l0) as [(_ & _ & ->) | (_ & ->)];
        cbn [whitespace_columns skip_spaces]; rewrite ?E; split; lia || reflexivity. }
  intros H. apply (G _ 0 s l eq_refl) in H. destruct H as [H1 H2].
  split; [lia | exact H2].
Qed.

Lemma u8_add_l (a b : Z) : u8 (u8 a + b) = u8 (a + b).
Proof. unfold u8. apply Zplus_mod_idemp_l. Qed.

(** The digits loop counts [digit_run] and stops behind the digits, one
    column further for each. *)
Lemma digits_loop_digits s l d s' l' :
  digits_loop s l = (d, s', l') ->
  d = Z.of_nat (digit_run (rest l))
  /\ rest l' = skipn (digit_run (rest l)) (rest l)
  /\ u8 (column s') = u8 (column s + d).
Proof.
  unfold digits_loop.
  assert (G : forall n a s0 l0,
             remaining l0 = n ->
             while_lookahead
               (fun _ la => (la >=? chr "0") && (la <=? chr "9"))
               (fun digits s l =>
                  let '(_, s, l) := advance s l false in (digits + 1, s, l))
               a s0 l0 = (d, s', l') ->
             d = a + Z.of_nat (digit_run (rest l0))
             /\ rest l' = skipn (digit_run (rest l0)) (rest l0)
             /\ u8 (column s')
                = u8 (column s0 + Z.of_nat (digit_run (rest l0)))).
  { induction n as [|n IH]; intros a s0 l0 Hn H;
      destruct ((lookahead l0 >=? chr "0") && (lookahead l0 <=? chr "9"))
        eqn:E.
    - assert (He : eof l0 = false)
        by (apply lookahead_nonzero; change (chr "0") with 48 in E; lia).
      unfold eof in He. apply Nat.leb_gt in He. unfold remaining in Hn. lia.
    - rewrite while_lookahead_stop in H by exact E.
      injection H as <- <- <-.
      destruct (rest_cases l0) as [(_ & _ & ->) | (_ & ->)];
        cbn [digit_run skipn]; rewrite ?E; cbn [skipn Z.of_nat];
        rewrite ?Z.add_0_r; auto.
    - assert (He : eof l0 = false)
        by (apply lookahead_nonzero; change (chr "0") with 48 in E; lia).
      assert (Hs : advance_size s0 l0 = 1)
        by (unfold advance_size; change (chr "0") with 48 in E;
            change (chr "9") with 57 in E;
            replace (lookahead l0 =? TAB) with false
              by (unfold TAB; lia); reflexivity).
      rewrite (while_lookahead_step _ _ _ _ _
                 (a + 1)
                 (set_column s0 (u8 (column s0 + advance_size s0 l0)))
                 (lexer_advance l0 false)) in H;
        [| exact E | exact He | reflexivity
         | apply remaining_advance; exact He].
      apply IH in H; [|rewrite remaining_advance by exact He; lia].
      destruct (rest_cases l0) as [(He' & _) | (_ & ->)]; [congruence|].
      cbn [digit_run skipn]. rewrite E. cbn [skipn].
      cbn [column set_column] in H. rewrite Hs in H.
      destruct H as (H1 & H2 & H3). rewrite u8_add_l in H3.
      repeat split; [lia | exact H2 | rewrite H3; f_equal; lia].
    - rewrite while_lookahead_stop in H by exact E.
      injection H as <- <- <-.
      destruct (rest_cases l0) as [(_ & _ & ->) | (_ & ->)];
        cbn [digit_run skipn]; rewrite ?E; cbn [skipn Z.of_nat];
        rewrite ?Z.add_0_r; auto. }
  intros H. apply (G _ 0 s l eq_refl) in H. destruct H as (H1 & H2 & H3).
  repeat split; [lia | exact H2 | rewrite H3; f_equal; lia].
Qed.

(** *** The loops of the ['-'] and ['*'] cases

    Both loops count the markers of the line and measure the whitespace
    behind the first of them. *)
Section MarkerLoop.
Context {A : Type}.
Variables (count extra : A -> Z) (c : Z).
Variable body : A -> Scanner -> Lexer -> A * Scanner * Lexer.

Hypothesis c_not_space : is_space_or_tab c = false.
Hypothesis c_not_line_end : is_line_end c = false.
Hypothesis c_nonzero : c <> 0.
Hypothesis body_marker :
  forall a s l, lookahead l = c ->
    exists a' l0,
      body a s l
      = (a', set_column s (u8 (column s + 1)), lexer_advance l0 false)
      /\ position l0 = position l /\ text l0 = text l
      /\ count a' = count a + 1 /\ extra a' = extra a.
Hypothesis body_space :
  forall a s l, lookahead l <> c ->
    exists a',
      body a s l
      = (a', set_column s (u8 (column s + advance_size s l)),
         lexer_advance l false)
      /\ count a' = count a
      /\ extra a'
         = (if count a =? 1 then extra a + advance_size s l else extra a).

Lemma marker_loop_tail a s l a' s' l' :
2 <= count a ->
while_lookahead (fun _ la => (la =? c) || is_space_or_tab la) body a s l
= (a', s', l') ->
2 <= count a' /\ extra a' = extra a.
Proof.
intros H2 H.
apply (while_lookahead_invariant _ body
         (fun a1 _ _ => 2 <= count a1 /\ extra a1 = extra a)) in H;
  [exact H | | split; [exact H2 | reflexivity]].
intros a0 s0 l0 a1 s1 l1 [I1 I2] _ Hb.
destruct (Z.eq_dec (lookahead l0) c) as [E | E].
- destruct (body_marker a0 s0 l0 E) as (a2 & l2 & Hb2 & _ & _ & Hc & He).
  rewrite Hb2 in Hb. injection Hb as <- _ _. split; lia.
- destruct (body_space a0 s0 l0 E) as (a2 & Hb2 & Hc & He).
  rewrite Hb2 in Hb. injection Hb as <- _ _.
  replace (count a0 =? 1) with false in He by lia. split; lia.
Qed.

Lemma marker_loop_second a s l a' s' l' :
count a = 1 -> lookahead l = c ->
while_lookahead (fun _ la => (la =? c) || is_space_or_tab la) body a s l
= (a', s', l') ->
extra a' = extra a + whitespace_columns (column s) (rest l)
/\ ((2 <= count a' /\ hd 0 (skip_spaces (rest l)) = c)
    \/ (count a' = 1 /\ lookahead l' = hd 0 (skip_spaces (rest l)))).
Proof.
intros Hc E1 H.
assert (He : eof l = false)
  by (apply lookahead_nonzero; rewrite E1; exact c_nonzero).
destruct (body_marker a s l E1) as (a2 & l2 & Hb & Hp & Ht & Hc2 & He2).
assert (Htest : (lookahead l =? c) || is_space_or_tab (lookahead l) = true)
  by (rewrite E1, Z.eqb_refl; reflexivity).
rewrite (while_lookahead_step
           (fun _ la => (la =? c) || is_space_or_tab la)
           body a s l _ _ _ Htest He Hb) in H.
- apply marker_loop_tail in H; [|lia].
  destruct (rest_cases l) as [(He' & _) | (_ & ->)]; [congruence|].
  cbn [whitespace_columns skip_spaces hd].
  rewrite E1, c_not_space. cbn [hd]. split; [lia | left; split; lia].
- unfold lexer_advance, eof, remaining. rewrite Hp, Ht.
  fold (eof l). rewrite He. cbn [text position]. lia.
Qed.

Lemma marker_loop_other a s l a' s' l' :
count a = 1 -> lookahead l <> c -> is_space_or_tab (lookahead l) = false ->
while_lookahead (fun _ la => (la =? c) || is_space_or_tab la) body a s l
= (a', s', l') ->
extra a' = extra a + whitespace_columns (column s) (rest l)
/\ ((2 <= count a' /\ hd 0 (skip_spaces (rest l)) = c)
    \/ (count a' = 1 /\ lookahead l' = hd 0 (skip_spaces (rest l)))).
Proof.
intros Hc E1 E2 H.
rewrite while_lookahead_stop in H
  by (apply orb_false_intro; [lia | exact E2]).
injection H as <- <- <-.
destruct (rest_cases l) as [(_ & Hl & ->) | (_ & ->)];
  cbn [whitespace_columns skip_spaces hd]; rewrite ?E2;
  cbn [hd]; split; try lia; right; split; auto.
Qed.

Lemma marker_loop_head a' s' l' :
forall n a s l,
  remaining l = n -> count a = 1 ->
  while_lookahead (fun _ la => (la =? c) || is_space_or_tab la) body a s l
  = (a', s', l') ->
  extra a' = extra a + whitespace_columns (column s) (rest l)
  /\ ((2 <= count a' /\ hd 0 (skip_spaces (rest l)) = c)
      \/ (count a' = 1 /\ lookahead l' = hd 0 (skip_spaces (rest l)))).
Proof.
induction n as [|n IH]; intros a s l Hn Hc H;
  (destruct (Z.eq_dec (lookahead l) c) as [E1 | E1];
   [ exact (marker_loop_second _ _ _ _ _ _ Hc E1 H)
   | destruct (is_space_or_tab (lookahead l)) eqn:E2;
     [| exact (marker_loop_other _ _ _ _ _ _ Hc E1 E2 H) ] ]);
  pose proof (lookahead_nonzero _ (space_or_tab_nonzero _ E2)) as He.
- exfalso. unfold eof in He. apply Nat.leb_gt in He.
  unfold remaining in Hn. lia.
- destruct (body_space a s l E1) as (a2 & Hb & Hc2 & He2).
  assert (Htest : (lookahead l =? c) || is_space_or_tab (lookahead l)
                  = true)
    by (rewrite E2; apply orb_true_r).
  rewrite (while_lookahead_step
             (fun _ la => (la =? c) || is_space_or_tab la)
             body a s l _ _ _ Htest He Hb) in H
    by (apply remaining_advance; exact He).
  apply IH in H;
    [| rewrite remaining_advance by exact He; lia | lia].
  destruct (rest_cases l) as [(He' & _) | (_ & ->)]; [congruence|].
  cbn [whitespace_columns skip_spaces]. rewrite E2.
  cbn [column set_column] in H. unfold advance_size in H, He2.
  cbv zeta. rewrite Hc, Z.eqb_refl in He2.
  destruct H as [H1 H2]. split; [lia | exact H2].
Qed.

(** From the marker at the lookahead, the loop ends with the
  [extra_indentation] of the rule: 1 when the marker is alone on its
  line, the columns of the whitespace behind it otherwise. *)
Lemma marker_loop_columns a s l a' s' l' :
lookahead l = c -> count a = 0 -> extra a = 0 ->
while_lookahead (fun _ la => (la =? c) || is_space_or_tab la) body a s l
= (a', s', l') ->
(if (count a' =? 1) && is_line_end (lookahead l') then 1 else extra a')
= (if is_line_end (hd 0 (skip_spaces (tl (rest l)))) then 1
   else whitespace_columns (u8 (column s + 1)) (tl (rest l))).
Proof.
intros Hl Hc He H.
assert (Hf : eof l = false)
  by (apply lookahead_nonzero; rewrite Hl; exact c_nonzero).
destruct (body_marker a s l Hl) as (a2 & l2 & Hb & Hp & Ht & Hc2 & He2).
assert (Hrest : rest (lexer_advance l2 false) = tl (rest l)).
{ unfold lexer_advance, eof, rest. rewrite Hp, Ht. fold (eof l).
  rewrite Hf. cbn [text position].
  fold (rest l). rewrite (rest_lookahead l Hf). reflexivity. }
assert (Htest : (lookahead l =? c) || is_space_or_tab (lookahead l) = true)
  by (rewrite Hl, Z.eqb_refl; reflexivity).
rewrite (while_lookahead_step
           (fun _ la => (la =? c) || is_space_or_tab la)
           body a s l _ _ _ Htest Hf Hb) in H.
- apply (marker_loop_head _ _ _ _ _ _ _ eq_refl) in H; [|lia].
  rewrite Hrest in H. cbn [column set_column] in H.
  destruct H as [H1 [[H2 H3] | [H2 H3]]].
  + replace (count a' =? 1) with false by lia. cbn [andb].
    rewrite H3.
    rewrite c_not_line_end. lia.
  + rewrite H2, H3, Z.eqb_refl. cbn [andb].
    destruct (is_line_end (hd 0 (skip_spaces (tl (rest l)))));
      [reflexivity | lia].
- unfold lexer_advance, eof, remaining. rewrite Hp, Ht.
  fold (eof l). rewrite Hf. cbn [text position]. lia.
Qed.
End MarkerLoop.

Lemma advance_size_other (s : Scanner) (l : Lexer) :
  lookahead l <> TAB -> advance_size s l = 1.
Proof.
  intros H. unfold advance_size.
  replace (lookahead l =? TAB) with false by lia. reflexivity.
Qed.

Lemma minus_extra_columns s l :
  lookahead l = chr "-" ->
  minus_extra s l
  = (if is_line_end (hd 0 (skip_spaces (tl (rest l)))) then 1
     else whitespace_columns (u8 (column s + 1)) (tl (rest l))).
Proof.
  intros Hl. unfold minus_extra.
  destruct (minus_loop false s (mark_end_unless false l))
    as [[v s1] l1] eqn:E.
  unfold minus_loop in E.
  apply (marker_loop_columns minus_count minus_extra_indentation (chr "-"))
    in E; try reflexivity; try exact E.
  - unfold chr. cbn. lia.
  - intros a s0 l0 H0. cbv beta. rewrite H0, Z.eqb_refl.
    cbv zeta. unfold advance.
    eexists. eexists. split; [|split; [|split; [|split]]].
    + cbv zeta. rewrite advance_size_other; [reflexivity|].
      destruct (_ && _); rewrite ?lookahead_mark_end_unless, H0;
        discriminate.
    + destruct (_ && _); reflexivity.
    + destruct (_ && _); reflexivity.
    + reflexivity.
    + reflexivity.
  - intros a s0 l0 H0. cbv beta.
    replace (lookahead l0 =? chr "-") with false by lia.
    unfold advance. cbv zeta. eexists. split; [reflexivity|].
    split; reflexivity.
  - rewrite lookahead_mark_end_unless. exact Hl.
Qed.

Lemma star_extra_columns s l :
  lookahead l = chr "*" ->
  star_extra s l
  = (if is_line_end (hd 0 (skip_spaces (tl (rest l)))) then 1
     else whitespace_columns (u8 (column s + 1)) (tl (rest l))).
Proof.
  intros Hl. unfold star_extra.
  destruct (star_loop false s (mark_end_unless false l))
    as [[[n e] s1] l1] eqn:E.
  unfold star_loop in E.
  apply (marker_loop_columns fst snd (chr "*")) in E;
    try reflexivity; try exact E.
  - unfold chr. cbn. lia.
  - intros [n0 e0] s0 l0 H0. cbv beta iota. rewrite H0, Z.eqb_refl.
    cbv zeta. unfold advance.
    eexists. eexists. split; [|split; [|split; [|split]]].
    + cbv zeta. rewrite advance_size_other; [reflexivity|].
      destruct (_ && _); rewrite ?lookahead_mark_end_unless, H0;
        discriminate.
    + destruct (_ && _); reflexivity.
    + destruct (_ && _); reflexivity.
    + reflexivity.
    + reflexivity.
  - intros [n0 e0] s0 l0 H0. cbv beta iota.
    replace (lookahead l0 =? chr "*") with false by lia.
    unfold advance. cbv zeta. eexists. split; [reflexivity|].
    split; reflexivity.
  - rewrite lookahead_mark_end_unless. exact Hl.
Qed.

Lemma rest_advance_tl (l0 l : Lexer) (skip : bool) :
  position l0 = position l -> text l0 = text l -> eof l = false ->
  rest (lexer_advance l0 skip) = tl (rest l).
Proof.
  intros Hp Ht He. unfold lexer_advance, eof, rest. rewrite Hp, Ht.
  fold (eof l). rewrite He. cbn [text position]. fold (rest l).
  rewrite (rest_lookahead l He). reflexivity.
Qed.

Lemma tl_skipn {A : Type} (n : nat) (xs : list A) :
  tl (skipn n xs) = skipn (S n) xs.
Proof.
  revert xs. induction n as [|n IH]; intros [|x xs]; try reflexivity.
  cbn [skipn] in *. rewrite IH. destruct xs; reflexivity.
Qed.

Lemma plus_extra_columns s l :
  lookahead l = chr "+" ->
  plus_extra s l = whitespace_columns (u8 (column s + 1)) (tl (rest l)).
Proof.
  intros Hl. unfold plus_extra, advance. cbv zeta.
  assert (He : eof l = false)
    by (apply lookahead_nonzero; rewrite Hl; discriminate).
  destruct (count_whitespace _ _) as [[e s1] l1] eqn:E.
  apply count_whitespace_columns in E. destruct E as [E _].
  cbn [fst column set_column] in *.
  rewrite advance_size_other in E
    by (rewrite lookahead_mark_end_unless, Hl; discriminate).
  rewrite (rest_advance_tl _ l) in E by (reflexivity || exact He).
  exact E.
Qed.

Lemma digit_extra_columns tok s l l1 a s1 :
  digits_loop s (mark_end_unless false l) = (a, s1, l1) ->
  lookahead l1 = chr "." \/ lookahead l1 = chr ")" ->
  digit_extra tok s l
  = whitespace_columns (u8 (column s + Z.of_nat (digit_run (rest l)) + 1))
      (skipn (S (digit_run (rest l))) (rest l)).
Proof.
  intros Hd Hl. unfold digit_extra. rewrite Hd. unfold advance. cbv zeta.
  apply digits_loop_digits in Hd. destruct Hd as (H1 & H2 & H3).
  change (rest (mark_end_unless false l)) with (rest l) in *.
  assert (He : eof l1 = false)
    by (apply lookahead_nonzero; destruct Hl as [-> | ->]; discriminate).
  destruct (count_whitespace _ _) as [[e s2] l2] eqn:E.
  apply count_whitespace_columns in E. destruct E as [E _].
  cbn [fst column set_column] in *.
  rewrite advance_size_other in E
    by (destruct Hl as [-> | ->]; discriminate).
  change (rest (set_result_symbol (lexer_advance l1 false) tok))
    with (rest (lexer_advance l1 false)) in E.
  rewrite (rest_advance_tl _ l1) in E by (reflexivity || exact He).
  rewrite H2, tl_skipn in E.
  rewrite <- u8_add_l, H3, u8_add_l, H1 in E. exact E.
Qed.

(** What the code measures behind a marker is what the text of the line
    holds there. *)
Lemma marker_extra_columns tok s l :
  LIST_MARKER_MINUS <= tok <= LIST_MARKER_DOT ->
  marker_chars tok s l = true ->
  marker_extra s l tok = post_marker_columns tok s l.
Proof.
  intros Htok Hc.
  assert (Hcases : tok = LIST_MARKER_MINUS \/ tok = LIST_MARKER_PLUS
                   \/ tok = LIST_MARKER_STAR
                   \/ tok = LIST_MARKER_PARENTHETHIS
                   \/ tok = LIST_MARKER_DOT)
    by (unfold LIST_MARKER_MINUS, LIST_MARKER_PLUS, LIST_MARKER_STAR,
          LIST_MARKER_PARENTHETHIS, LIST_MARKER_DOT in *; lia).
  unfold marker_extra, post_marker_columns, marker_chars in *.
  destruct Hcases as [-> | [-> | [-> | [-> | ->]]]];
    cbn [Z.eqb Pos.eqb LIST_MARKER_PLUS LIST_MARKER_MINUS LIST_MARKER_STAR
         LIST_MARKER_DOT LIST_MARKER_PARENTHETHIS orb negb andb] in *.
  - apply minus_extra_columns. lia.
  - apply plus_extra_columns. lia.
  - apply star_extra_columns. lia.
  - destruct (digits_loop s (mark_end_unless false l)) as [[a s1] l1] eqn:E.
    apply (digit_extra_columns _ _ _ _ _ _ E). right. lia.
  - destruct (digits_loop s (mark_end_unless false l)) as [[a s1] l1] eqn:E.
    apply (digit_extra_columns _ _ _ _ _ _ E). left. lia.
Qed.

(** C7 fails behind more than four columns of whitespace and at a marker
    alone on its line: ["+      a"] and ["-"] both open an item of
    content indent 2, where the rule as worded gives 5 and 1. *)
Lemma content_indent_counterexample :
  (exists s' l' block,
     scan (valid_of [LIST_MARKER_PLUS]) false fresh_scanner
       (lexer_of ["+"; " "; " "; " "; " "; " "; " "; "a"]%char)
     = Returns true s' l'
     /\ result_symbol l' = LIST_MARKER_PLUS
     /\ open_blocks s' = [block]
     /\ list_item_indentation block = 2
     /\ claimed_content_indent 0 1 6 = 5)
  /\ (exists s' l' block,
        scan (valid_of [LIST_MARKER_MINUS]) false fresh_scanner
          (lexer_of ["-"; "010"]%char)
        = Returns true s' l'
        /\ result_symbol l' = LIST_MARKER_MINUS
        /\ open_blocks s' = [block]
        /\ list_item_indentation block = 2
        /\ claimed_content_indent 0 1 0 = 1).
Proof.
  split; do 3 eexists; repeat split.
Qed.

(** The block a list marker pushes, by the columns of whitespace that
    [post_marker_columns] finds behind the marker. *)
Lemma list_item_block_pushed valid s l s' l' :
  wf_scanner s ->
  scan valid false s l = Returns true s' l' ->
  LIST_MARKER_MINUS <= result_symbol l' <= LIST_MARKER_DOT ->
  exists block,
    open_blocks s' = open_blocks s ++ [block]
    /\ is_tight_list_item block = true
    /\ 1 <= post_marker_columns (result_symbol l') s l
    /\ list_item_indentation block
       = indentation s + 1
         + (if post_marker_columns (result_symbol l') s l <=? 4
            then post_marker_columns (result_symbol l') s l else 1)
    /\ 2 <= list_item_indentation block <= 8
    /\ indentation s'
       = (if post_marker_columns (result_symbol l') s l <=? 4 then 0
          else u8 (post_marker_columns (result_symbol l') s l - 1)).
Proof.
  intros Hwf H Htok.
  assert (H0 : 0 <= matched s /\ 0 <= indentation s)
    by (destruct Hwf as [_ Hm Hi _ _ _ _ _]; unfold is_byte in *; lia).
  pose proof (scan_transition valid s l (proj1 H0)) as T.
  rewrite H in T. destruct T as [T _]. clear H.
  revert T Htok. generalize (result_symbol l'). intros tok T Htok.
  inversion T; subst;
    try match goal with
      | H : context [close_symbol ?b] |- _ =>
          destruct (close_symbol_cases b) as [E | E]; rewrite E in *
      end;
    try (exfalso; token_numbers; lia).
  match goal with
  | Hc : marker_chars _ _ _ = true |- _ =>
      rewrite (marker_extra_columns _ _ _ Htok Hc) in *
  end.
  set (e := post_marker_columns tok s l) in *.
  destruct (list_item_block_tight (indentation s) e) as [Ht Hi];
    [lia | assumption |].
  eexists. split; [eassumption|]. split; [exact Ht|].
  split; [assumption|]. rewrite Hi.
  destruct (e <=? 4) eqn:E4; (split; [lia|]); (split; [lia|]).
  - replace (e - 1 <=? 3) with true in * by lia. assumption.
  - replace (e - 1 <=? 3) with false in * by lia. assumption.
Qed.

(** C7, amended: a call that emits a list marker pushes a tight list item
    whose content indent lies between 2 and 8.  For a bullet the content
    indent is the indentation of the line plus one for the marker plus
    [s], the columns of whitespace behind the marker, when [s <= 4], and
    plus one when [s > 4]; the other [s - 1] columns are left as the
    indentation.  A ['-'] or ['*'] alone on its line counts as [s = 1].
    Nothing is said of the content indent behind an ordered marker. *)
Theorem list_item_content_indent valid s l s' l' :
  wf_scanner s ->
  scan valid false s l = Returns true s' l' ->
  LIST_MARKER_MINUS <= result_symbol l' <= LIST_MARKER_DOT ->
  exists block,
    open_blocks s' = open_blocks s ++ [block]
    /\ is_tight_list_item block = true
    /\ 2 <= list_item_indentation block <= 8
    /\ (result_symbol l' = LIST_MARKER_PLUS
        \/ result_symbol l' = LIST_MARKER_MINUS
        \/ result_symbol l' = LIST_MARKER_STAR ->
        1 <= post_marker_columns (result_symbol l') s l
        /\ list_item_indentation block
           = indentation s + 1
             + (if post_marker_columns (result_symbol l') s l <=? 4
                then post_marker_columns (result_symbol l') s l else 1)
        /\ indentation s'
           = (if post_marker_columns (result_symbol l') s l <=? 4 then 0
              else u8 (post_marker_columns (result_symbol l') s l - 1))).
Proof.
  intros Hwf H Htok.
  destruct (list_item_block_pushed valid s l s' l' Hwf H Htok)
    as (block & H1 & H2 & H3 & H4 & H5 & H6).
  exists block. repeat split; assumption || apply H5.
Qed.

(** The theorem at ["-  a"] on a line indented by one column. *)
Lemma list_item_content_indent_witness :
  let valid := valid_of [LIST_MARKER_MINUS] in
  let s := mkScanner [] 0 1 1 0 0 0 0 in
  let l := lexer_of ["-"; " "; " "; "a"]%char in
  let s' := mkScanner [4] 1 0 4 0 0 0 0 in
  let l' := mkLexer (text l) 3 0 (Some 3%nat) LIST_MARKER_MINUS in
  (wf_scanner s /\ scan valid false s l = Returns true s' l'
   /\ LIST_MARKER_MINUS <= result_symbol l' <= LIST_MARKER_DOT)
  /\ exists block,
       open_blocks s' = open_blocks s ++ [block]
       /\ is_tight_list_item block = true
       /\ 2 <= list_item_indentation block <= 8
       /\ list_item_indentation block = 4.
Proof.
  cbv zeta.
  assert (W : wf_scanner (mkScanner [] 0 1 1 0 0 0 0))
    by (constructor; cbn; unfold is_byte; try constructor; lia).
  assert (Htok : LIST_MARKER_MINUS <= LIST_MARKER_MINUS <= LIST_MARKER_DOT)
    by (unfold LIST_MARKER_MINUS, LIST_MARKER_DOT; lia).
  split; [split; [exact W | split; [reflexivity | exact Htok]]|].
  destruct (list_item_content_indent
              (valid_of [LIST_MARKER_MINUS])
              (mkScanner [] 0 1 1 0 0 0 0)
              (lexer_of ["-"; " "; " "; "a"]%char)
              (mkScanner [4] 1 0 4 0 0 0 0)
              (mkLexer (map chr ["-"; " "; " "; "a"]%char)
                 3 0 (Some 3%nat) LIST_MARKER_MINUS)
              W eq_refl Htok)
    as (block & H1 & H2 & H3 & H4).
  exists block. split; [exact H1|]. split; [exact H2|].
  split; [exact H3|].
  destruct (H4 (or_intror (or_introl eq_refl))) as (_ & H5 & _).
  exact H5.
Defined.

(** ** Emphasis *)

Lemma run_length_tl (c : Z) (l : Lexer) :
  lookahead l = c -> eof l = false ->
  run_length c (rest l) = S (run_length c (tl (rest l))).
Proof.
  intros Hl He. rewrite (rest_lookahead l He). cbn [run_length tl].
  rewrite Hl, Z.eqb_refl. reflexivity.
Qed.

(** The loop at the head of a run counts the delimiters into
    [num_emphasis_delimiters] and stops behind the run. *)
Lemma emphasis_loop_count c u s' l' :
  c <> 0 ->
  forall n s l,
    remaining l = n ->
    emphasis_loop c s l = (u, s', l') ->
    0 <= num_emphasis_delimiters s ->
    num_emphasis_delimiters s + Z.of_nat (run_length c (rest l)) <= 255 ->
    num_emphasis_delimiters s'
    = num_emphasis_delimiters s + Z.of_nat (run_length c (rest l))
    /\ position l' = (position l + run_length c (rest l))%nat
    /\ text l' = text l /\ token_end l' = token_end l
    /\ result_symbol l' = result_symbol l
    /\ indentation s' = indentation s
    /\ num_emphasis_delimiters_left s' = num_emphasis_delimiters_left s
    /\ emphasis_delimiters_is_open s' = emphasis_delimiters_is_open s.
Proof.
  intros Hc. unfold emphasis_loop.
  induction n as [|n IH]; intros s l Hn H H0 Hk;
    destruct (lookahead l =? c) eqn:E.
  - exfalso. assert (He : eof l = false) by (apply lookahead_nonzero; lia).
    unfold eof in He. apply Nat.leb_gt in He. unfold remaining in Hn. lia.
  - rewrite while_lookahead_stop in H by exact E. injection H as _ <- <-.
    destruct (rest_cases l) as [(_ & _ & ->) | (_ & ->)];
      cbn [run_length]; rewrite ?E; cbn [Z.of_nat];
      rewrite ?Z.add_0_r, ?Nat.add_0_r; repeat split; reflexivity.
  - assert (He : eof l = false) by (apply lookahead_nonzero; lia).
    assert (Hr : run_length c (rest l)
                 = S (run_length c (rest (lexer_advance l true))))
      by (rewrite (rest_advance_tl l l) by (reflexivity || exact He);
          apply run_length_tl; [lia | exact He]).
    rewrite (while_lookahead_step _ _ _ _ _ tt
               (set_column
                  (set_num_emphasis_delimiters s
                     (u8 (num_emphasis_delimiters s + 1)))
                  (u8 (column s
                       + advance_size
                           (set_num_emphasis_delimiters s
                              (u8 (num_emphasis_delimiters s + 1))) l)))
               (lexer_advance l true)) in H;
      [| exact E | exact He | reflexivity
       | apply remaining_advance; exact He].
    rewrite Hr in Hk |- *.
    apply IH in H;
      [ | rewrite remaining_advance by exact He; lia
        | cbn [num_emphasis_delimiters set_column
               set_num_emphasis_delimiters]; apply u8_byte
        | cbn [num_emphasis_delimiters set_column
               set_num_emphasis_delimiters];
          rewrite u8_id by (unfold is_byte; lia); lia ].
    cbn [num_emphasis_delimiters set_column set_num_emphasis_delimiters
         indentation num_emphasis_delimiters_left
         emphasis_delimiters_is_open] in H.
    rewrite u8_id in H by (unfold is_byte; lia).
    destruct H as (H1 & H2 & H3 & H4 & H5 & H6 & H7 & H8).
    set (r := run_length c (rest (lexer_advance l true))) in *.
    unfold lexer_advance in H2, H3, H4, H5. rewrite He in H2, H3, H4, H5.
    cbn [position text token_end result_symbol] in H2, H3, H4, H5.
    repeat split; lia || assumption.
  - rewrite while_lookahead_stop in H by exact E. injection H as _ <- <-.
    destruct (rest_cases l) as [(_ & _ & ->) | (_ & ->)];
      cbn [run_length]; rewrite ?E; cbn [Z.of_nat];
      rewrite ?Z.add_0_r, ?Nat.add_0_r; repeat split; reflexivity.
Qed.

Lemma run_at_lookahead (c : Z) (l : Lexer) :
  c <> 0 -> (1 <= run_length c (rest l))%nat ->
  lookahead l = c /\ eof l = false.
Proof.
  intros Hc H.
  destruct (rest_cases l) as [(_ & _ & E) | (He & E)]; rewrite E in H;
    cbn [run_length] in H; [lia|].
  destruct (lookahead l =? c) eqn:El; [|lia]. split; [lia | exact He].
Qed.

(** The head of a run: the whole run is consumed, the end of the token is
    marked behind its first delimiter, and the two counters hold the
    length of the run. *)
Lemma emphasis_run_count c s l s1 l1 :
  c <> 0 -> c <> TAB -> lookahead l = c ->
  (run_length c (rest l) <= 255)%nat ->
  emphasis_run c s l = (s1, l1) ->
  num_emphasis_delimiters s1 = Z.of_nat (run_length c (rest l))
  /\ num_emphasis_delimiters_left s1 = Z.of_nat (run_length c (rest l))
  /\ position l1 = (position l + run_length c (rest l))%nat
  /\ text l1 = text l /\ token_end l1 = Some (S (position l))
  /\ indentation s1 = indentation s
  /\ emphasis_delimiters_is_open s1 = emphasis_delimiters_is_open s
  /\ quiet s s1.
Proof.
  intros Hc Ht Hl Hk H.
  pose proof (emphasis_run_quiet _ _ _ _ _ H) as [Hq _].
  assert (He : eof l = false)
    by (apply lookahead_nonzero; rewrite Hl; exact Hc).
  unfold emphasis_run, advance in H. cbv zeta in H.
  destruct (emphasis_loop _ _ _) as [[u s2] l2] eqn:El.
  injection H as <- <-.
  rewrite (run_length_tl c l Hl He) in Hk |- *.
  apply (emphasis_loop_count _ _ _ _ Hc _ _ _ eq_refl) in El;
    cbn [num_emphasis_delimiters set_num_emphasis_delimiters set_column]
    in *; try lia.
  - change (rest (mark_end (lexer_advance l true)))
      with (rest (lexer_advance l true)) in El.
    rewrite (rest_advance_tl l l) in El by (reflexivity || exact He).
    destruct El as (H1 & H2 & H3 & H4 & H5 & H6 & H7 & H8).
    unfold lexer_advance in H2, H3, H4. rewrite He in H2, H3, H4.
    cbn [position text token_end mark_end] in H2, H3, H4.
    cbn [num_emphasis_delimiters num_emphasis_delimiters_left
         set_num_emphasis_delimiters_left indentation
         emphasis_delimiters_is_open set_num_emphasis_delimiters set_column]
      in *.
    repeat split; try (lia || assumption); apply Hq.
  - change (rest (mark_end (lexer_advance l true)))
      with (rest (lexer_advance l true)).
    rewrite (rest_advance_tl l l) by (reflexivity || exact He). lia.
Qed.

(** In the middle of a line, at a delimiter, a call that owes no
    [VIRTUAL_SPACE] is the emphasis case of its [switch]. *)
Lemma scan_at_delimiter c OPEN CLOSE valid s l :
  emphasis_tokens c OPEN CLOSE ->
  lookahead l = c -> matched s > size s ->
  valid VIRTUAL_SPACE && (indentation s >? 0) = false ->
  scan valid false s l
  = match (if c =? chr "*" then case_star_inline valid s l
           else case_underscore_inline valid s l) with
    | Return o => o
    | Break s l => Returns false s l
    end.
Proof.
  intros Hc Hl Hm Hi.
  assert (He : eof l = false)
    by (apply lookahead_nonzero; rewrite Hl;
        destruct Hc as [(-> & _) | (-> & _)]; discriminate).
  unfold scan, scan_body. rewrite He.
  replace (matched s >? size s) with true by lia.
  unfold scan_inline. rewrite Hi. unfold inline_switch. cbv zeta.
  rewrite Hl.
  destruct Hc as [(-> & _) | (-> & _)]; reflexivity.
Qed.

(** A later delimiter of a run: the token of the polarity recorded, when
    the mask holds it. *)
Lemma scan_next_delimiter c OPEN CLOSE tok valid s l :
  emphasis_tokens c OPEN CLOSE ->
  lookahead l = c -> matched s > size s ->
  valid VIRTUAL_SPACE && (indentation s >? 0) = false ->
  0 < num_emphasis_delimiters_left s ->
  (tok = OPEN /\ emphasis_delimiters_is_open s <> 0)
  \/ (tok = CLOSE /\ emphasis_delimiters_is_open s = 0) ->
  valid tok = true ->
  scan valid false s l
  = Returns true (dec_left (set_column s (u8 (column s + 1))))
      (set_result_symbol (lexer_advance l true) tok).
Proof.
  intros Hc Hl Hm Hi Hn Hp Hv.
  rewrite (scan_at_delimiter c OPEN CLOSE) by assumption.
  assert (Hs : advance_size s l = 1)
    by (apply advance_size_other; rewrite Hl;
        destruct Hc as [(-> & _) | (-> & _)]; discriminate).
  destruct Hc as [(-> & -> & ->) | (-> & -> & ->)];
    cbn [Z.eqb Pos.eqb chr Z.of_nat nat_of_ascii];
    [ change (chr "*" =? chr "*") with true
    | change (chr "_" =? chr "*") with false ];
    cbv iota; unfold case_star_inline, case_underscore_inline;
    replace (num_emphasis_delimiters_left s >? 0) with true by lia;
    unfold emphasis_next, advance; cbv zeta; rewrite Hs;
    destruct Hp as [[-> Ho] | [-> Ho]].
  all: try (replace (emphasis_delimiters_is_open s =? 0) with false by lia;
            rewrite Hv; reflexivity).
  all: rewrite Ho, Hv; reflexivity.
Qed.

(** The rest of a run: one token for each delimiter left, all of the
    polarity recorded, from calls whose masks hold that token and owe no
    [VIRTUAL_SPACE]. *)
Lemma emphasis_rest c OPEN CLOSE tok (indent : Z) :
  emphasis_tokens c OPEN CLOSE ->
  forall masks s l,
    token_end l = None -> matched s > size s -> indentation s = indent ->
    num_emphasis_delimiters_left s = Z.of_nat (length masks) ->
    (length masks <= 255)%nat ->
    (length masks <= run_length c (rest l))%nat ->
    (tok = OPEN /\ emphasis_delimiters_is_open s <> 0)
    \/ (tok = CLOSE /\ emphasis_delimiters_is_open s = 0) ->
    Forall (fun valid : ValidSymbols =>
              valid tok = true
              /\ valid VIRTUAL_SPACE && (indent >? 0) = false) masks ->
    exists s2 l2,
      run_calls masks s l = (repeat tok (length masks), s2, l2)
      /\ num_emphasis_delimiters_left s2 = 0
      /\ position l2 = (position l + length masks)%nat
      /\ quiet s s2.
Proof.
  intros Hc.
  assert (Hc0 : c <> 0) by (destruct Hc as [(-> & _) | (-> & _)]; discriminate).
  induction masks as [|valid masks IH];
    intros s l Hte Hm Hi Hn Hk Hr Hp Hv.
  - exists s, l. cbn. repeat split; [exact Hn | lia].
  - cbn [length] in *.
    destruct (run_at_lookahead c l Hc0 ltac:(lia)) as [Hl He].
    apply Forall_cons_iff in Hv as [[Hv1 Hvs] Hv2].
    cbn [run_calls repeat].
    rewrite (scan_next_delimiter c OPEN CLOSE tok)
      by (assumption || lia || (rewrite Hi; exact Hvs)).
    specialize (IH (dec_left (set_column s (u8 (column s + 1))))
                  (host_resume (set_result_symbol (lexer_advance l true) tok))).
    destruct IH as (s2 & l2 & H1 & H2 & H3 & H4).
    + reflexivity.
    + exact Hm.
    + exact Hi.
    + cbn. rewrite u8_id by (unfold is_byte; lia). lia.
    + lia.
    + unfold host_resume, rest, lexer_advance. rewrite He.
      cbn [token_end set_result_symbol text position]. rewrite Hte.
      rewrite <- (rest_advance l false He).
      rewrite (rest_advance_tl l l) by (reflexivity || exact He).
      rewrite (run_length_tl c l Hl He) in Hr. lia.
    + exact Hp.
    + exact Hv2.
    + rewrite H1. exists s2, l2. split; [reflexivity|].
      split; [exact H2|]. split; [|exact H4].
      rewrite H3. unfold host_resume, lexer_advance. rewrite He.
      cbn [token_end set_result_symbol text position]. rewrite Hte. lia.
Qed.

(** The head of a run: the counters, the polarity by the flanking rules
    and the token; where the rules choose neither polarity the call
    returns [false]. *)
Lemma emphasis_head c OPEN CLOSE valid s l :
  emphasis_tokens c OPEN CLOSE ->
  lookahead l = c -> matched s > size s ->
  valid VIRTUAL_SPACE && (indentation s >? 0) = false ->
  num_emphasis_delimiters_left s = 0 ->
  (run_length c (rest l) <= 255)%nat ->
  match head_token c OPEN CLOSE valid
          (nth (position l + run_length c (rest l)) (text l) 0) with
  | Some tok =>
      valid tok = true ->
      exists s1 l1,
        scan valid false s l = Returns true s1 l1
        /\ result_symbol l1 = tok
        /\ num_emphasis_delimiters s1 = Z.of_nat (run_length c (rest l))
        /\ num_emphasis_delimiters_left s1
           = Z.of_nat (run_length c (rest l)) - 1
        /\ emphasis_delimiters_is_open s1 = (if tok =? CLOSE then 0 else 1)
        /\ token_end l1 = Some (S (position l))
        /\ text l1 = text l /\ indentation s1 = indentation s
        /\ quiet s s1
  | None => exists s1 l1, scan valid false s l = Returns false s1 l1
  end.
Proof.
  intros Hc Hl Hm Hi Hn Hk.
  rewrite (scan_at_delimiter c OPEN CLOSE) by assumption.
  assert (Hc0 : c <> 0 /\ c <> TAB)
    by (destruct Hc as [(-> & _) | (-> & _)]; split; discriminate).
  assert (He : eof l = false)
    by (apply lookahead_nonzero; rewrite Hl; tauto).
  destruct (emphasis_run c s l) as [s0 l0] eqn:Er.
  pose proof Er as Er'.
  apply emphasis_run_count in Er'; try tauto; try assumption.
  destruct Er' as (E1 & E2 & E3 & E4 & E5 & E6 & E7 & E8).
  assert (Hnext : lookahead l0
                  = nth (position l + run_length c (rest l)) (text l) 0)
    by (unfold lookahead; rewrite E3, E4; reflexivity).
  assert (Hleft : u8 (num_emphasis_delimiters_left s0 - 1)
                  = Z.of_nat (run_length c (rest l)) - 1).
  { pose proof (run_length_tl c l Hl He).
    rewrite E2. apply u8_id. unfold is_byte. lia. }
  rewrite <- Hnext.
  unfold head_token, head_closes, head_opens, right_flanking, left_flanking.
  assert (Hdone : forall is_open tok,
             exists s1 l1,
               Returns true
                 (dec_left (set_emphasis_delimiters_is_open s0 is_open))
                 (set_result_symbol l0 tok) = Returns true s1 l1
               /\ result_symbol l1 = tok
               /\ num_emphasis_delimiters s1
                  = Z.of_nat (run_length c (rest l))
               /\ num_emphasis_delimiters_left s1
                  = Z.of_nat (run_length c (rest l)) - 1
               /\ emphasis_delimiters_is_open s1 = is_open
               /\ token_end l1 = Some (S (position l))
               /\ text l1 = text l /\ indentation s1 = indentation s
               /\ quiet s s1).
  { intros is_open tok. do 2 eexists. split; [reflexivity|].
    cbn [num_emphasis_delimiters num_emphasis_delimiters_left dec_left
         set_num_emphasis_delimiters_left set_emphasis_delimiters_is_open
         emphasis_delimiters_is_open result_symbol set_result_symbol
         token_end text indentation].
    rewrite Hleft.
    repeat split; first [assumption | reflexivity | apply E8]. }
  clear Hleft E1 E2 E3 E4 E5 E6 E7 E8 Hnext.
  destruct Hc as [(-> & -> & ->) | (-> & -> & ->)];
    [ change (chr "*" =? chr "*") with true
    | change (chr "_" =? chr "*") with false ];
    cbv iota; unfold case_star_inline, case_underscore_inline;
    rewrite Hn; cbn [Z.gtb Z.compare];
    [ destruct (valid EMPHASIS_OPEN_STAR) eqn:Eo,
        (valid EMPHASIS_CLOSE_STAR) eqn:Ecl
    | destruct (valid EMPHASIS_OPEN_UNDERSCORE) eqn:Eo,
        (valid EMPHASIS_CLOSE_UNDERSCORE) eqn:Ecl ];
    cbn [orb]; rewrite ?Er; cbv zeta; unfold emit_polarity;
    destruct (valid LAST_TOKEN_WHITESPACE),
      (valid LAST_TOKEN_PUNCTUATION),
      (is_punctuation (lookahead l0)), (is_whitespace (lookahead l0));
    cbn [negb andb orb];
    try intros Hv;
    first [ congruence | apply Hdone | do 2 eexists; reflexivity ].
Qed.

(** C9 fails on the polarity, on the counter left, on long runs and on
    the calls in between: of the two delimiters of ["**a"] the first is
    emitted as an opening and the second as a closing one when the mask
    of the second call holds [EMPHASIS_CLOSE_STAR] alone; the call for
    the head returns with [num_emphasis_delimiters_left] at 1, not 2; a
    run of 256 is recorded as 0; and the call behind the head emits a
    [VIRTUAL_SPACE] where one is valid and indentation is left. *)
Lemma emphasis_run_counterexample :
  let head := valid_of [EMPHASIS_OPEN_STAR; LAST_TOKEN_WHITESPACE] in
  let s := mkScanner [] 1 0 0 0 0 0 0 in
  (exists s2 l2,
     run_calls [head; valid_of [EMPHASIS_CLOSE_STAR]] s
       (lexer_of ["*"; "*"; "a"]%char)
     = ([EMPHASIS_OPEN_STAR; EMPHASIS_CLOSE_STAR], s2, l2))
  /\ (exists s1 l1,
        scan head false s (lexer_of ["*"; "*"; "a"]%char)
        = Returns true s1 l1
        /\ num_emphasis_delimiters s1 = 2
        /\ num_emphasis_delimiters_left s1 = 1)
  /\ (exists s1 l1,
        scan head false s (lexer_of (repeat "*"%char 256 ++ ["a"]%char))
        = Returns true s1 l1
        /\ num_emphasis_delimiters s1 = 0)
  /\ (exists s2 l2,
        run_calls [head; valid_of [EMPHASIS_OPEN_STAR; VIRTUAL_SPACE]]
          (mkScanner [] 1 1 0 0 0 0 0) (lexer_of ["*"; "*"; "a"]%char)
        = ([EMPHASIS_OPEN_STAR; VIRTUAL_SPACE], s2, l2)).
Proof.
  cbv zeta. split; [|split; [|split]].
  - do 2 eexists. vm_compute. reflexivity.
  - do 2 eexists. split; [vm_compute; reflexivity|]. split; reflexivity.
  - do 2 eexists. split; [vm_compute; reflexivity|]. reflexivity.
  - do 2 eexists. vm_compute. reflexivity.
Qed.

(** C9, amended: at the head of a run of [k <= 255] delimiters in the
    middle of a line, with no run unfinished and no [VIRTUAL_SPACE] due,
    the flanking rules choose the token: the closing one where
    [head_closes], else the opening one where [head_opens], else none,
    and then the call returns [false].  Where the mask holds the token
    chosen, the call emits it and records [num_emphasis_delimiters = k]
    and [num_emphasis_delimiters_left = k - 1]; the [k - 1] calls that
    follow emit one token each, of the same polarity, as long as each of
    their masks holds that token and none owes a [VIRTUAL_SPACE]. *)
Theorem emphasis_run_tokens c OPEN CLOSE valid masks s l :
  emphasis_tokens c OPEN CLOSE ->
  lookahead l = c -> matched s > size s ->
  valid VIRTUAL_SPACE && (indentation s >? 0) = false ->
  num_emphasis_delimiters_left s = 0 ->
  run_length c (rest l) = S (length masks) -> (length masks < 255)%nat ->
  match head_token c OPEN CLOSE valid
          (nth (position l + S (length masks)) (text l) 0) with
  | Some tok =>
      valid tok = true ->
      exists s1 l1,
        scan valid false s l = Returns true s1 l1
        /\ result_symbol l1 = tok
        /\ num_emphasis_delimiters s1 = Z.of_nat (S (length masks))
        /\ num_emphasis_delimiters_left s1 = Z.of_nat (length masks)
        /\ emphasis_delimiters_is_open s1 = (if tok =? CLOSE then 0 else 1)
        /\ (Forall (fun v : ValidSymbols =>
                      v tok = true
                      /\ v VIRTUAL_SPACE && (indentation s >? 0) = false)
              masks ->
            exists s2 l2,
              run_calls masks s1 (host_resume l1)
              = (repeat tok (length masks), s2, l2)
              /\ num_emphasis_delimiters_left s2 = 0
              /\ position l2 = (position l + S (length masks))%nat)
  | None => exists s1 l1, scan valid false s l = Returns false s1 l1
  end.
Proof.
  intros Hc Hl Hm Hi Hn Hk Hlen.
  assert (Hc0 : c <> 0)
    by (destruct Hc as [(-> & _) | (-> & _)]; discriminate).
  assert (He : eof l = false)
    by (apply lookahead_nonzero; rewrite Hl; exact Hc0).
  pose proof (emphasis_head c OPEN CLOSE valid s l Hc Hl Hm Hi Hn
                ltac:(lia)) as H.
  rewrite Hk in H.
  assert (Htok : forall tok,
             head_token c OPEN CLOSE valid
               (nth (position l + S (length masks)) (text l) 0) = Some tok ->
             tok = OPEN /\ (tok =? CLOSE) = false \/ tok = CLOSE).
  { intros tok. unfold head_token.
    destruct (head_closes _ _ _); [intros [= <-]; right; reflexivity|].
    destruct (head_opens _ _ _); [|discriminate].
    intros [= <-]. left. split; [reflexivity|].
    destruct Hc as [(_ & -> & ->) | (_ & -> & ->)]; reflexivity. }
  destruct (head_token _ _ _ _ _) as [tok|]; [|exact H].
  intros Hv. destruct (H Hv) as (s1 & l1 & H0 & H1 & H2 & H3 & H4 & H5
                                  & H6 & H7 & H8).
  exists s1, l1. split; [exact H0|]. split; [exact H1|].
  split; [exact H2|]. split; [lia|]. split; [exact H4|].
  intros Hmasks.
  destruct (emphasis_rest c OPEN CLOSE tok (indentation s) Hc masks s1
              (host_resume l1)) as (s2 & l2 & R1 & R2 & R3 & _).
  - reflexivity.
  - destruct H8 as [Hb Hmm]. unfold size in *. rewrite Hb, Hmm. exact Hm.
  - exact H7.
  - lia.
  - lia.
  - unfold host_resume, rest. rewrite H5, H6. cbn [text position].
    rewrite <- (rest_advance l false He).
    rewrite (rest_advance_tl l l) by (reflexivity || exact He).
    rewrite (run_length_tl c l Hl He) in Hk. lia.
  - destruct (Htok tok eq_refl) as [[-> E] | ->].
    + left. split; [reflexivity|]. rewrite H4, E. discriminate.
    + right. split; [reflexivity|]. rewrite H4, Z.eqb_refl. reflexivity.
  - exact Hmasks.
  - exists s2, l2. split; [exact R1|]. split; [exact R2|].
    rewrite R3. unfold host_resume. rewrite H5. cbn [position]. lia.
Qed.

(** The theorem at ["***a"], opened behind whitespace. *)
Lemma emphasis_run_tokens_witness :
  let head := valid_of [EMPHASIS_OPEN_STAR; LAST_TOKEN_WHITESPACE] in
  let later := valid_of [EMPHASIS_OPEN_STAR; EMPHASIS_CLOSE_STAR] in
  let s := mkScanner [BLOCK_QUOTE] 2 0 2 0 0 0 0 in
  let l := lexer_of ["*"; "*"; "*"; "a"]%char in
  (emphasis_tokens (chr "*") EMPHASIS_OPEN_STAR EMPHASIS_CLOSE_STAR
   /\ matched s > size s
   /\ head_token (chr "*") EMPHASIS_OPEN_STAR EMPHASIS_CLOSE_STAR head
        (nth (position l + S (length [later; later])) (text l) 0)
      = Some EMPHASIS_OPEN_STAR
   /\ Forall (fun v : ValidSymbols =>
                v EMPHASIS_OPEN_STAR = true
                /\ v VIRTUAL_SPACE && (indentation s >? 0) = false)
        [later; later])
  /\ exists s1 l1 s2 l2,
       scan head false s l = Returns true s1 l1
       /\ result_symbol l1 = EMPHASIS_OPEN_STAR
       /\ num_emphasis_delimiters s1 = 3
       /\ run_calls [later; later] s1 (host_resume l1)
          = ([EMPHASIS_OPEN_STAR; EMPHASIS_OPEN_STAR], s2, l2)
       /\ num_emphasis_delimiters_left s2 = 0
       /\ position l2 = 3%nat.
Proof.
  cbv zeta.
  assert (Hc : emphasis_tokens (chr "*") EMPHASIS_OPEN_STAR
                 EMPHASIS_CLOSE_STAR)
    by (left; repeat split).
  assert (Ht : head_token (chr "*") EMPHASIS_OPEN_STAR EMPHASIS_CLOSE_STAR
                 (valid_of [EMPHASIS_OPEN_STAR; LAST_TOKEN_WHITESPACE])
                 (nth (position (lexer_of ["*"; "*"; "*"; "a"]%char)
                       + S (length
                              [valid_of [EMPHASIS_OPEN_STAR;
                                         EMPHASIS_CLOSE_STAR];
                               valid_of [EMPHASIS_OPEN_STAR;
                                         EMPHASIS_CLOSE_STAR]]))
                    (text (lexer_of ["*"; "*"; "*"; "a"]%char)) 0)
               = Some EMPHASIS_OPEN_STAR) by reflexivity.
  assert (Hv : Forall
                 (fun v : ValidSymbols =>
                    v EMPHASIS_OPEN_STAR = true
                    /\ v VIRTUAL_SPACE
                       && (indentation
                             (mkScanner [BLOCK_QUOTE] 2 0 2 0 0 0 0) >? 0)
                       = false)
                 [valid_of [EMPHASIS_OPEN_STAR; EMPHASIS_CLOSE_STAR];
                  valid_of [EMPHASIS_OPEN_STAR; EMPHASIS_CLOSE_STAR]])
    by (repeat constructor).
  split; [split; [exact Hc | split; [cbn; lia | split; [exact Ht|exact Hv]]]|].
  pose proof (emphasis_run_tokens (chr "*") EMPHASIS_OPEN_STAR
                EMPHASIS_CLOSE_STAR
                (valid_of [EMPHASIS_OPEN_STAR; LAST_TOKEN_WHITESPACE])
                [valid_of [EMPHASIS_OPEN_STAR; EMPHASIS_CLOSE_STAR];
                 valid_of [EMPHASIS_OPEN_STAR; EMPHASIS_CLOSE_STAR]]
                (mkScanner [BLOCK_QUOTE] 2 0 2 0 0 0 0)
                (lexer_of ["*"; "*"; "*"; "a"]%char)
                Hc eq_refl ltac:(cbn; lia) eq_refl eq_refl eq_refl
                ltac:(cbn; lia)) as H.
  rewrite Ht in H.
  destruct (H eq_refl) as (s1 & l1 & H0 & H1 & H2 & _ & _ & H5).
  destruct (H5 Hv) as (s2 & l2 & R1 & R2 & R3).
  exists s1, l1, s2, l2. repeat split; assumption.
Defined.

(** * Further properties of the scanner *)

(** ** The other round trip *)

(** X1: [deserialize] accepts every buffer of bytes at every length from 7 to
    255 that the buffer covers: it reads the [length] first bytes and no
    others, the scalar fields are the first seven and the stack is the
    rest, and [serialize] writes the same bytes back. *)
Theorem deserialize_serialize (buffer : list Z) (length : Z) :
  7 <= length <= 255 -> length <= Z.of_nat (List.length buffer) ->
  Forall is_byte buffer ->
  exists s,
    deserialize buffer length = Restored s length
    /\ wf_scanner s /\ size s = length - 7
    /\ serialize s = (firstn (Z.to_nat length) buffer, length).
Proof.
  intros Hl Hb Hw.
  destruct buffer as [|b0 [|b1 [|b2 [|b3 [|b4 [|b5 [|b6 tail]]]]]]];
    cbn [List.length] in Hb; try lia.
  repeat match goal with
    | H : Forall _ (_ :: _) |- _ =>
        apply Forall_cons_iff in H; let Hx := fresh "Hx" in destruct H as [Hx H]
    end.
  set (n := Z.to_nat (length - 7)).
  assert (Hn : (n <= List.length tail)%nat) by (unfold n; lia).
  assert (Hc : copy_blocks (b0 :: b1 :: b2 :: b3 :: b4 :: b5 :: b6 :: tail)
                 7 (length - 7) = firstn n tail) by reflexivity.
  assert (Hlen : List.length (firstn n tail) = n)
    by (rewrite length_firstn; lia).
  exists (mkScanner (firstn n tail) b0 b1 b2 b3 b4 b5 b6).
  split; [|split; [|split]].
  - unfold deserialize.
    replace (length >? 0) with true by lia.
    replace (size_t (length - 7)) with (length - 7)
      by (unfold size_t; rewrite Z.mod_small; lia).
    replace (length - 7 >? vector_max_size) with false
      by (unfold vector_max_size; lia).
    cbv zeta.
    replace (7 + (length - 7) >? _) with false
      by (cbn [List.length]; lia).
    rewrite Hc, !u8_id by assumption.
    f_equal. lia.
  - constructor; cbn; try assumption.
    rewrite <- (firstn_skipn n tail) in Hw.
    apply Forall_app in Hw. exact (proj1 Hw).
  - unfold size. cbn [open_blocks]. rewrite Hlen. unfold n. lia.
  - rewrite serialize_eq. unfold size. cbn [open_blocks matched indentation
      column code_span_delimiter_length num_emphasis_delimiters
      num_emphasis_delimiters_left emphasis_delimiters_is_open].
    rewrite Hlen.
    replace (Z.min (Z.of_nat n) 248) with (Z.of_nat n) by (unfold n; lia).
    rewrite Nat2Z.id, firstn_firstn, Nat.min_id.
    replace (Z.to_nat length) with (7 + n)%nat by (unfold n; lia).
    f_equal. unfold n. lia.
Qed.

(** The theorem at a buffer of nine bytes, read at length nine and at
    length eight. *)
Lemma deserialize_serialize_witness :
  let buffer := [1; 0; 4; 3; 2; 1; 1; BLOCK_QUOTE; FENCED_CODE_BLOCK_TILDE] in
  (Forall is_byte buffer
   /\ deserialize buffer 9
      = Restored (mkScanner [BLOCK_QUOTE; FENCED_CODE_BLOCK_TILDE]
                    1 0 4 3 2 1 1) 9)
  /\ exists s,
       deserialize buffer 8 = Restored s 8
       /\ wf_scanner s /\ size s = 8 - 7
       /\ serialize s = (firstn (Z.to_nat 8) buffer, 8).
Proof.
  cbv zeta.
  assert (W : Forall is_byte
                [1; 0; 4; 3; 2; 1; 1; BLOCK_QUOTE; FENCED_CODE_BLOCK_TILDE])
    by (repeat constructor;
        unfold BLOCK_QUOTE, FENCED_CODE_BLOCK_TILDE, is_byte; lia).
  split; [split; [exact W | reflexivity]|].
  apply (deserialize_serialize
           [1; 0; 4; 3; 2; 1; 1; BLOCK_QUOTE; FENCED_CODE_BLOCK_TILDE] 8);
    [lia | cbn; lia | exact W].
Defined.

(** ** [advance] and the tab stops *)

(** X2: [advance] takes between one and four columns and one character (none
    at the end of the input); behind a tab the column is a multiple of
    four, also when it wraps around at 256; nothing but [column] changes
    in the scanner. *)
Theorem advance_tab_stops (s : Scanner) (l : Lexer) (skip : bool) n s' l' :
  is_byte (column s) ->
  advance s l skip = (n, s', l') ->
  1 <= n <= 4
  /\ column s' = (column s + n) mod 256
  /\ (lookahead l = TAB -> column s' mod 4 = 0)
  /\ (lookahead l <> TAB -> n = 1)
  /\ position l' = (if eof l then position l else S (position l))
  /\ frame s s'.
Proof.
  intros Hc H. apply advance_spec in H as (Hf & -> & -> & Hcol).
  pose proof (advance_size_bounds s l) as Hb.
  split; [exact Hb|]. split; [exact Hcol|].
  split; [|split; [|split; [|exact Hf]]].
  - intros Ht. rewrite Hcol. unfold u8, advance_size.
    rewrite Ht, Z.eqb_refl.
    rewrite Z.mod_mod_divide by (exists 64; reflexivity).
    pose proof (Z.div_mod (column s) 4 ltac:(lia)) as Hd.
    pose proof (Z.mod_pos_bound (column s) 4 ltac:(lia)) as Hm.
    destruct (column s mod 4 =? 0) eqn:E.
    + replace (column s + 4) with (column s + 1 * 4) by lia.
      rewrite Z_mod_plus_full. lia.
    + replace (column s + (4 - column s mod 4))
        with (0 + (column s / 4 + 1) * 4) by lia.
      rewrite Z_mod_plus_full. reflexivity.
  - intros Ht. apply advance_size_other. exact Ht.
  - unfold lexer_advance. destruct (eof l); reflexivity.
Qed.

(** The theorem at a tab in column 254: the column wraps to 0. *)
Lemma advance_tab_stops_witness :
  let s := mkScanner [] 0 0 254 0 0 0 0 in
  let l := lexer_of ["009"; "a"]%char in
  is_byte (column s)
  /\ (fst (fst (advance s l false)) = 2
      /\ column (snd (fst (advance s l false))) = 0)
  /\ (lookahead l = TAB
      -> column (snd (fst (advance s l false))) mod 4 = 0).
Proof.
  cbv zeta. split; [cbn; unfold is_byte; lia|].
  split; [split; reflexivity|].
  exact (proj1 (proj2 (proj2
           (advance_tab_stops (mkScanner [] 0 0 254 0 0 0 0)
              (lexer_of ["009"; "a"]%char) false _ _ _
              ltac:(cbn; unfold is_byte; lia) eq_refl)))).
Defined.

(** ** The indentation of a line *)

Lemma indentation_loop_columns u s' l' :
  forall n s l,
    remaining l = n -> is_byte (indentation s) ->
    indentation_loop s l = (u, s', l') ->
    indentation s'
    = u8 (indentation s + whitespace_columns (column s) (rest l))
    /\ rest l' = skip_spaces (rest l)
    /\ (l' = l \/ token_start l' = position l').
Proof.
  unfold indentation_loop.
  induction n as [|n IH]; intros s l Hn Hi H;
    destruct (is_space_or_tab (lookahead l)) eqn:E.
  - apply space_or_tab_nonzero, lookahead_nonzero in E.
    unfold eof in E. apply Nat.leb_gt in E. unfold remaining in Hn. lia.
  - rewrite while_lookahead_stop in H by exact E. injection H as _ <- <-.
    destruct (rest_cases l) as [(_ & _ & ->) | (_ & ->)];
      cbn [whitespace_columns skip_spaces]; rewrite ?E, Z.add_0_r;
      rewrite u8_id by exact Hi; auto.
  - pose proof (lookahead_nonzero _ (space_or_tab_nonzero _ E)) as He.
    rewrite (while_lookahead_step _ _ _ _ _ tt
               (set_indentation
                  (set_column s (u8 (column s + advance_size s l)))
                  (u8 (indentation s + advance_size s l)))
               (lexer_advance l true)) in H;
      [| exact E | exact He | reflexivity
       | apply remaining_advance; exact He].
    apply IH in H;
      [| rewrite remaining_advance by exact He; lia | apply u8_byte].
    rewrite (rest_advance_tl l l) in H by (reflexivity || exact He).
    destruct (rest_cases l) as [(He' & _) | (_ & Hr)]; [congruence|].
    rewrite Hr. cbn [whitespace_columns skip_spaces tl]. rewrite E.
    rewrite Hr in H. cbn [tl] in H.
    rewrite (rest_advance_tl l l) by (reflexivity || exact He).
    rewrite Hr. cbn [tl].
    cbn [column indentation set_column set_indentation] in H.
    unfold advance_size in H. cbv zeta.
    destruct H as (H1 & H2 & H3). rewrite u8_add_l in H1.
    split; [rewrite H1; f_equal; lia|]. split; [exact H2|].
    right. destruct H3 as [-> | H3]; [|exact H3].
    unfold lexer_advance. rewrite He. reflexivity.
  - rewrite while_lookahead_stop in H by exact E. injection H as _ <- <-.
    destruct (rest_cases l) as [(_ & _ & ->) | (_ & ->)];
      cbn [whitespace_columns skip_spaces]; rewrite ?E, Z.add_0_r;
      rewrite u8_id by exact Hi; auto.
Qed.

(** X3: at the start of a line, with [INDENTATION] valid and a space or tab at
    the lookahead, a call emits [INDENTATION] whatever the open blocks
    are: it skips the whole run of spaces and tabs, so that the token is
    empty and ends before the first other character, and adds their
    columns - tabs counted to the next multiple of four - to
    [indentation], modulo 256. *)
Theorem scan_indentation_columns valid s l :
  matched s <= size s -> is_byte (indentation s) ->
  valid INDENTATION = true -> is_space_or_tab (lookahead l) = true ->
  exists s' l',
    scan valid false s l = Returns true s' l'
    /\ result_symbol l' = INDENTATION
    /\ indentation s'
       = u8 (indentation s + whitespace_columns (column s) (rest l))
    /\ rest l' = skip_spaces (rest l)
    /\ token_start l' = position l'
    /\ open_blocks s' = open_blocks s /\ matched s' = matched s.
Proof.
  intros Hm Hi Hv Hl.
  pose proof (lookahead_nonzero _ (space_or_tab_nonzero _ Hl)) as He.
  unfold scan, scan_body. rewrite He, Hv, Hl.
  replace (matched s >? size s) with false by lia.
  cbn [andb]. unfold scan_indentation.
  destruct (indentation_loop s l) as [[u s1] l1] eqn:E.
  pose proof (indentation_loop_quiet _ _ _ _ _ E) as Hq.
  pose proof (indentation_loop_exit _ _ _ _ _ E) as Hx.
  apply (indentation_loop_columns _ _ _ _ _ _ eq_refl Hi) in E.
  destruct E as (E1 & E2 & E3).
  exists s1, (set_result_symbol l1 INDENTATION).
  split; [reflexivity|]. split; [reflexivity|]. split; [exact E1|].
  split; [exact E2|]. split; [|exact (proj1 Hq)].
  destruct E3 as [-> | E3]; [congruence | exact E3].
Qed.

(** The theorem at a line that starts with a space and a tab. *)
Lemma scan_indentation_columns_witness :
  let s := mkScanner [BLOCK_QUOTE] 1 0 2 0 0 0 0 in
  let l := lexer_of [" "; "009"; "a"]%char in
  (matched s <= size s /\ is_byte (indentation s)
   /\ whitespace_columns (column s) (rest l) = 2)
  /\ exists s' l',
       scan (valid_of [INDENTATION]) false s l = Returns true s' l'
       /\ result_symbol l' = INDENTATION
       /\ indentation s'
          = u8 (indentation s + whitespace_columns (column s) (rest l))
       /\ rest l' = skip_spaces (rest l)
       /\ token_start l' = position l'
       /\ open_blocks s' = open_blocks s /\ matched s' = matched s.
Proof.
  cbv zeta. split; [repeat split; cbn; unfold is_byte; lia|].
  apply (scan_indentation_columns (valid_of [INDENTATION])
           (mkScanner [BLOCK_QUOTE] 1 0 2 0 0 0 0)
           (lexer_of [" "; "009"; "a"]%char));
    first [reflexivity | cbn; unfold is_byte; lia].
Defined.

(** ** The end of the input *)

(** X4: at the end of the input every call closes the deepest open block,
    whatever its mask, with [BLOCK_CLOSE_LOOSE] for a loose list item and
    [BLOCK_CLOSE] for every other block; as many calls as there are open
    blocks empty the stack, deepest block first, and the call after them
    returns [false]. *)
Theorem eof_closes_every_block (masks : list ValidSymbols) :
  forall s l,
    eof l = true -> token_end l = None ->
    length masks = length (open_blocks s) ->
    exists l',
      run_calls masks s l
      = (map close_symbol (rev (open_blocks s)), set_open_blocks s [], l')
      /\ forall valid,
           scan valid false (set_open_blocks s []) l'
           = Returns false (set_open_blocks s []) l'.
Proof.
  induction masks as [|valid masks IH]; intros s l He Ht Hlen.
  - destruct (open_blocks s) eqn:E; [|discriminate].
    exists l. replace (set_open_blocks s []) with s
      by (destruct s; cbn in E; subst; reflexivity).
    split; [reflexivity|]. intros valid.
    unfold scan, scan_body. rewrite He. unfold scan_eof, size. rewrite E.
    reflexivity.
  - destruct (exists_last (l:=open_blocks s)) as (xs & x & E);
      [intros E; rewrite E in Hlen; discriminate|].
    cbn [run_calls]. unfold scan, scan_body. rewrite He.
    unfold scan_eof, size, block_at, pop_back. rewrite E.
    replace (Z.of_nat (length (xs ++ [x])) >? 0) with true
      by (rewrite length_app; cbn; lia).
    rewrite removelast_last.
    replace (nth _ (xs ++ [x]) 0) with x
      by (rewrite app_nth2 by (rewrite length_app; cbn; lia);
          rewrite length_app; cbn [length];
          replace (Z.to_nat (Z.of_nat (length xs + 1) - 1) - length xs)%nat
            with 0%nat by lia; reflexivity).
    cbv zeta.
    destruct (IH (set_open_blocks s xs)
                (host_resume (set_result_symbol l (close_symbol x))))
      as (l' & H1 & H2).
    + unfold host_resume, eof in *. cbn. rewrite Ht. exact He.
    + reflexivity.
    + rewrite E, length_app in Hlen. cbn in *. lia.
    + cbn [open_blocks set_open_blocks] in H1.
      change (scan_body (scan_probe valid)) with (scan valid) in *.
      rewrite H1. exists l'. rewrite rev_app_distr. cbn [rev app map].
      split; [reflexivity | exact H2].
Qed.

(** The theorem at the end of a document inside a loose list item of a
    block quote. *)
Lemma eof_closes_every_block_witness :
  let s := mkScanner [BLOCK_QUOTE; 11] 3 0 4 0 0 0 0 in
  let l := mkLexer [97; 10] 2 2 None BLOCK_CONTINUATION in
  (eof l = true /\ token_end l = None)
  /\ exists l',
       run_calls [valid_of []; valid_of []] s l
       = ([BLOCK_CLOSE_LOOSE; BLOCK_CLOSE], set_open_blocks s [], l')
       /\ forall valid,
            scan valid false (set_open_blocks s []) l'
            = Returns false (set_open_blocks s []) l'.
Proof.
  cbv zeta. split; [split; reflexivity|].
  exact (eof_closes_every_block [valid_of []; valid_of []]
           (mkScanner [BLOCK_QUOTE; 11] 3 0 4 0 0 0 0)
           (mkLexer [97; 10] 2 2 None BLOCK_CONTINUATION)
           eq_refl eq_refl eq_refl).
Defined.

(** ** Code spans *)

(** X5: in the middle of a line, a run of [k] backticks is consumed whole.
    It closes a code span only if [k] is the length recorded when the
    span was opened (and [CODE_SPAN_CLOSE] is valid); otherwise, where
    [CODE_SPAN_START] is valid, it opens one and records [k] modulo 256;
    otherwise the call returns [false], the backticks consumed. *)
Theorem code_span_delimiter_run valid s l :
  matched s > size s -> lookahead l = chr "`" ->
  valid VIRTUAL_SPACE && (indentation s >? 0) = false ->
  valid CODE_SPAN_START || valid CODE_SPAN_CLOSE = true ->
  exists b s' l',
    scan valid false s l = Returns b s' l'
    /\ position l' = (position l + run_length (chr "`") (rest l))%nat
    /\ open_blocks s' = open_blocks s /\ matched s' = matched s
    /\ if (Z.of_nat (run_length (chr "`") (rest l))
           =? code_span_delimiter_length s) && valid CODE_SPAN_CLOSE
       then b = true /\ result_symbol l' = CODE_SPAN_CLOSE
            /\ code_span_delimiter_length s' = code_span_delimiter_length s
       else if valid CODE_SPAN_START
       then b = true /\ result_symbol l' = CODE_SPAN_START
            /\ code_span_delimiter_length s'
               = u8 (Z.of_nat (run_length (chr "`") (rest l)))
       else b = false
            /\ code_span_delimiter_length s' = code_span_delimiter_length s.
Proof.
  intros Hm Hl Hvs Hv.
  assert (He : eof l = false)
    by (apply lookahead_nonzero; rewrite Hl; discriminate).
  unfold scan, scan_body, scan_inline, inline_switch.
  rewrite He, Hvs, Hl. replace (matched s >? size s) with true by lia.
  cbv zeta.
  change (chr "`" =? CR) with false. change (chr "`" =? LF) with false.
  change (chr "`" =? chr "`") with true. cbv iota.
  unfold case_code_span. rewrite Hv.
  destruct (count_run (chr "`") false s l) as [[level s1] l1] eqn:Ec.
  pose proof (count_run_frames _ _ _ _ _ _ _ Ec) as [Hf _].
  apply count_run_spec in Ec as (-> & Hp & _); [|discriminate].
  destruct Hf as [Hb Hma _ Hcs _ _ _]. rewrite Hcs.
  destruct ((Z.of_nat (run_length (chr "`") (rest l))
             =? code_span_delimiter_length s) && valid CODE_SPAN_CLOSE);
    [|destruct (valid CODE_SPAN_START)];
    do 3 eexists; (split; [reflexivity|]);
    cbn [position set_result_symbol open_blocks matched result_symbol
         code_span_delimiter_length set_code_span_delimiter_length];
    repeat split; assumption.
Qed.

(** The theorem at three backticks inside a span opened by two. *)
Lemma code_span_delimiter_run_witness :
  let valid := valid_of [CODE_SPAN_START; CODE_SPAN_CLOSE] in
  let s := mkScanner [] 1 0 5 2 0 0 0 in
  let l := lexer_of ["`"; "`"; "`"; "a"]%char in
  (matched s > size s /\ lookahead l = chr "`")
  /\ exists b s' l',
       scan valid false s l = Returns b s' l'
       /\ position l' = 3%nat
       /\ open_blocks s' = open_blocks s /\ matched s' = matched s
       /\ b = true /\ result_symbol l' = CODE_SPAN_START
       /\ code_span_delimiter_length s' = 3.
Proof.
  cbv zeta. split; [split; [cbn; lia | reflexivity]|].
  destruct (code_span_delimiter_run
              (valid_of [CODE_SPAN_START; CODE_SPAN_CLOSE])
              (mkScanner [] 1 0 5 2 0 0 0)
              (lexer_of ["`"; "`"; "`"; "a"]%char)
              ltac:(cbn; lia) eq_refl eq_refl eq_refl)
    as (b & s' & l' & H1 & H2 & H3 & H4 & H5).
  exists b, s', l'. repeat split; try assumption; apply H5.
Defined.

(** ** The start of a block *)

(** With every open block matched, and where no indented chunk can
    start, a call is the [switch] on the lookahead; what the [switch]
    leaves alone ends the matching. *)
Lemma scan_at_block_start valid s l :
  eof l = false -> matched s = size s ->
  indentation s <= 3 \/ valid INDENTED_CHUNK_START = false
  \/ valid LAZY_CONTINUATION = true ->
  valid INDENTATION && is_space_or_tab (lookahead l) = false ->
  scan valid false s l
  = match block_switch valid false s l with
    | Return o => o
    | Break s1 l1 =>
        Returns true (set_matched s1 (u8 (matched s1 + 1)))
          (set_result_symbol l1 MATCHING_DONE)
    end.
Proof.
  intros He Hm Hi Hind. unfold scan, scan_body. rewrite He, Hind.
  replace (matched s >? size s) with false by lia. cbv zeta.
  assert (Hmt : matching_of false s = false)
    by (unfold matching_of; cbn [negb andb]; lia).
  assert (E1 : indented_chunk valid false s l = Break s l).
  { unfold indented_chunk. rewrite Hmt. cbn [negb andb].
    rewrite !andb_false_r, orb_false_r, andb_true_r.
    destruct Hi as [Hi | [-> | ->]]; [|reflexivity|].
    - replace (indentation s >=? 4) with false by lia.
      destruct (valid INDENTED_CHUNK_START); reflexivity.
    - cbn [negb].
      repeat match goal with
        | |- context [if ?c then _ else _] => destruct c
        end; reflexivity. }
  assert (E2 : list_item_continuation valid false s l = Break s l).
  { unfold list_item_continuation. rewrite Hmt.
    rewrite andb_false_r. reflexivity. }
  rewrite E1, E2, Hmt.
  destruct (block_switch valid false s l) as [o | s1 l1]; reflexivity.
Qed.

Lemma block_switch_at c valid s l :
  lookahead l = c ->
  (c =? LF) || (c =? CR) = false -> (c =? chr ">") = false ->
  (c =? chr "~") = false -> (c =? chr "`") = false ->
  block_switch valid false s l
  = if c =? chr "#" then case_atx valid false s l
    else if c =? chr "=" then case_setext_h1 valid false s l
    else if c =? chr "+" then case_plus valid false s l
    else if (c >=? chr "0") && (c <=? chr "9")
    then case_digit valid false s l
    else if c =? chr "-" then case_minus valid false s l
    else if c =? chr "*" then case_star valid false s l
    else if c =? chr "_" then case_underscore valid false s l
    else Break s l.
Proof.
  intros Hl H1 H2 H3 H4. unfold block_switch. cbv zeta.
  rewrite Hl, H1, H2, H3, H4. reflexivity.
Qed.

(** ** ATX headings *)

(** The loop of an ATX heading counts at most seven ['#']. *)
Lemma atx_loop_count level s' l' :
  forall n a s l,
    remaining l = n -> 0 <= a <= 7 ->
    while_lookahead (fun level la => (la =? chr "#") && (level <=? 6))
      (fun level s l =>
         let '(_, s, l) := advance s l false in (level + 1, s, l))
      a s l = (level, s', l') ->
    level = Z.min 7 (a + Z.of_nat (run_length (chr "#") (rest l)))
    /\ position l' = (position l + Z.to_nat (level - a))%nat
    /\ text l' = text l /\ token_end l' = token_end l.
Proof.
  induction n as [|n IH]; intros a s l Hn Ha H;
    destruct ((lookahead l =? chr "#") && (a <=? 6)) eqn:E.
  - exfalso. assert (He : eof l = false)
      by (apply lookahead_nonzero; change (chr "#") with 35 in E; lia).
    unfold eof in He. apply Nat.leb_gt in He. unfold remaining in Hn. lia.
  - rewrite while_lookahead_stop in H by exact E. injection H as <- <- <-.
    replace (Z.to_nat (a - a)) with 0%nat by lia. rewrite Nat.add_0_r.
    repeat split.
    destruct (rest_cases l) as [(_ & _ & ->) | (_ & ->)];
      cbn [run_length]; [lia|].
    destruct (lookahead l =? chr "#"); lia.
  - assert (He : eof l = false)
      by (apply lookahead_nonzero; change (chr "#") with 35 in E; lia).
    rewrite (while_lookahead_step _ _ _ _ _ (a + 1)
               (set_column s (u8 (column s + advance_size s l)))
               (lexer_advance l false)) in H;
      [| exact E | exact He | reflexivity
       | apply remaining_advance; exact He].
    apply IH in H; [|rewrite remaining_advance by exact He; lia | lia].
    rewrite (rest_advance_tl l l) in H by (reflexivity || exact He).
    rewrite (run_length_tl (chr "#") l) by (lia || exact He).
    destruct H as (H1 & H2 & H3 & H4).
    unfold lexer_advance in H2, H3, H4. rewrite He in H2, H3, H4.
    cbn [position text token_end] in H2, H3, H4.
    repeat split; try assumption; lia.
  - rewrite while_lookahead_stop in H by exact E. injection H as <- <- <-.
    replace (Z.to_nat (a - a)) with 0%nat by lia. rewrite Nat.add_0_r.
    repeat split.
    destruct (rest_cases l) as [(_ & _ & ->) | (_ & ->)];
      cbn [run_length]; [lia|].
    destruct (lookahead l =? chr "#"); lia.
Qed.

(** X6: at the start of a block, with at most three columns of indentation
    and [ATX_H1_MARKER] valid, a run of [k] characters ['#'] is a heading
    marker exactly when [k <= 6] and a space, a tab or a line end
    follows: the token is the marker of level [k], it ends behind the
    run, and [indentation] is reset.  Otherwise nothing is opened and the
    call ends the matching with an empty [MATCHING_DONE]. *)
Theorem atx_heading_level valid s l :
  matched s = size s -> indentation s <= 3 ->
  valid ATX_H1_MARKER = true -> lookahead l = chr "#" ->
  exists s' l',
    scan valid false s l = Returns true s' l'
    /\ open_blocks s' = open_blocks s /\ matched s' = u8 (matched s + 1)
    /\ if (Z.of_nat (run_length (chr "#") (rest l)) <=? 6)
          && (is_space_or_tab
                (nth (position l + run_length (chr "#") (rest l))
                   (text l) 0)
              || is_line_end
                   (nth (position l + run_length (chr "#") (rest l))
                      (text l) 0))
       then result_symbol l'
            = ATX_H1_MARKER + (Z.of_nat (run_length (chr "#") (rest l)) - 1)
            /\ token_end l'
               = Some (position l + run_length (chr "#") (rest l))%nat
            /\ indentation s' = 0
       else result_symbol l' = MATCHING_DONE
            /\ token_end l' = Some (position l)
            /\ indentation s' = indentation s.
Proof.
  intros Hm Hi Hv Hl.
  assert (He : eof l = false)
    by (apply lookahead_nonzero; rewrite Hl; discriminate).
  rewrite scan_at_block_start;
    [| exact He | exact Hm | left; exact Hi
     | rewrite Hl; apply andb_false_r].
  rewrite (block_switch_at (chr "#")) by (exact Hl || reflexivity).
  change (chr "#" =? chr "#") with true. cbv iota.
  unfold case_atx, matching_of. rewrite Hv. cbn [negb andb].
  replace (indentation s <=? 3) with true by lia.
  replace (matched s <? size s) with false by lia. cbn [negb andb].
  unfold mark_end_unless.
  destruct (atx_loop s (mark_end l)) as [[level s1] l1] eqn:Ea.
  pose proof (atx_loop_frames _ _ _ _ _ Ea) as [Hf _].
  unfold atx_loop in Ea.
  apply (atx_loop_count _ _ _ _ _ _ _ eq_refl) in Ea; [|lia].
  change (rest (mark_end l)) with (rest l) in Ea.
  cbn [position text token_end mark_end] in Ea.
  destruct Ea as (H1 & H2 & H3 & H4).
  pose proof (run_length_tl (chr "#") l Hl He) as Hk.
  set (k := run_length (chr "#") (rest l)) in *.
  destruct Hf as [Hb Hma Hin _ _ _ _].
  destruct (Z.of_nat k <=? 6) eqn:Ek.
  - assert (Hlev : level = Z.of_nat k) by lia.
    assert (Hla : lookahead l1 = nth (position l + k) (text l) 0)
      by (unfold lookahead; rewrite H2, H3; f_equal; lia).
    rewrite Hlev, Ek, Hla. cbn [andb].
    destruct (_ || _); do 2 eexists; (split; [reflexivity|]);
      cbn [open_blocks matched indentation set_matched set_indentation
           result_symbol token_end mark_end set_result_symbol position];
      rewrite ?Hb, ?Hma, ?Hin, ?H2, ?H4; repeat split; try reflexivity.
    f_equal. lia.
  - replace (level <=? 6) with false by lia. cbn [andb].
    do 2 eexists. split; [reflexivity|].
    cbn [open_blocks matched indentation set_matched set_indentation
         result_symbol token_end mark_end set_result_symbol position].
    rewrite ?Hb, ?Hma, ?Hin, ?H4. repeat split; reflexivity.
Qed.

(** The theorem at ["### a"] and at seven ['#']. *)
Lemma atx_heading_level_witness :
  let valid := valid_of [ATX_H1_MARKER] in
  let s := mkScanner [BLOCK_QUOTE] 1 3 5 0 0 0 0 in
  (matched s = size s /\ indentation s <= 3)
  /\ (exists s' l',
        scan valid false s (lexer_of ["#"; "#"; "#"; " "; "a"]%char)
        = Returns true s' l'
        /\ result_symbol l' = ATX_H3_MARKER
        /\ token_end l' = Some 3%nat /\ indentation s' = 0)
  /\ (exists s' l',
        scan valid false s
          (lexer_of ["#"; "#"; "#"; "#"; "#"; "#"; "#"; " "]%char)
        = Returns true s' l'
        /\ result_symbol l' = MATCHING_DONE
        /\ token_end l' = Some 0%nat /\ indentation s' = 3).
Proof.
  cbv zeta. split; [split; [reflexivity | cbn; lia]|]. split.
  - destruct (atx_heading_level (valid_of [ATX_H1_MARKER])
                (mkScanner [BLOCK_QUOTE] 1 3 5 0 0 0 0)
                (lexer_of ["#"; "#"; "#"; " "; "a"]%char)
                eq_refl ltac:(cbn; lia) eq_refl eq_refl)
      as (s' & l' & H1 & _ & _ & H2).
    exists s', l'. split; [exact H1 | exact H2].
  - destruct (atx_heading_level (valid_of [ATX_H1_MARKER])
                (mkScanner [BLOCK_QUOTE] 1 3 5 0 0 0 0)
                (lexer_of ["#"; "#"; "#"; "#"; "#"; "#"; "#"; " "]%char)
                eq_refl ltac:(cbn; lia) eq_refl eq_refl)
      as (s' & l' & H1 & _ & _ & H2).
    exists s', l'. split; [exact H1 | exact H2].
Defined.

(** ** Opening a fenced code block *)

Lemma count_run_token_end c skip s l level s' l' :
  count_run c skip s l = (level, s', l') -> token_end l' = token_end l.
Proof.
  intros H.
  apply (while_lookahead_invariant _ _
           (fun _ _ l1 => token_end l1 = token_end l)) in H;
    [exact H | | reflexivity].
  intros a s0 l0 a' s0' l0' Hi _ Hb. unfold advance in Hb.
  cbv beta zeta in Hb. injection Hb as _ _ <-. rewrite <- Hi.
  unfold lexer_advance. destruct (eof l0); reflexivity.
Qed.

(** X7: at the start of a block, with at most three columns of indentation
    and [FENCED_CODE_BLOCK_START] valid, a run of [k] tildes opens a
    fenced code block when [k >= 3], whatever follows; a run of [k]
    backticks opens one only when [k >= 3] and the line ends behind the
    run.  The block is pushed, [k] is recorded modulo 256 in
    [code_span_delimiter_length], and the token ends behind the run.
    Any other run opens nothing: the call ends the matching. *)
Theorem fence_opens valid s l :
  matched s = size s -> indentation s <= 3 ->
  valid FENCED_CODE_BLOCK_START = true ->
  lookahead l = chr "~" \/ lookahead l = chr "`" ->
  exists s' l',
    scan valid false s l = Returns true s' l'
    /\ if (3 <=? Z.of_nat (run_length (lookahead l) (rest l)))
          && ((lookahead l =? chr "~")
              || is_line_end
                   (nth (position l + run_length (lookahead l) (rest l))
                      (text l) 0))
       then result_symbol l' = FENCED_CODE_BLOCK_START
            /\ open_blocks s'
               = open_blocks s
                 ++ [if lookahead l =? chr "~" then FENCED_CODE_BLOCK_TILDE
                     else FENCED_CODE_BLOCK_BACKTICK]
            /\ code_span_delimiter_length s'
               = u8 (Z.of_nat (run_length (lookahead l) (rest l)))
            /\ matched s' = u8 (matched s + 2) /\ indentation s' = 0
            /\ token_end l'
               = Some (position l + run_length (lookahead l) (rest l))%nat
       else result_symbol l' = MATCHING_DONE
            /\ open_blocks s' = open_blocks s
            /\ matched s' = u8 (matched s + 1)
            /\ token_end l' = Some (position l).
Proof.
  intros Hm Hi Hv Hl.
  assert (He : eof l = false)
    by (apply lookahead_nonzero; destruct Hl as [-> | ->]; discriminate).
  assert (Hmt : matching_of false s = false)
    by (unfold matching_of; cbn [negb andb]; lia).
  rewrite scan_at_block_start;
    [| exact He | exact Hm | left; exact Hi
     | destruct Hl as [-> | ->]; apply andb_false_r].
  unfold block_switch. cbv zeta.
  destruct Hl as [Hl | Hl]; rewrite Hl.
  - change ((chr "~" =? LF) || (chr "~" =? CR)) with false.
    change (chr "~" =? chr ">") with false.
    change (chr "~" =? chr "~") with true. cbv iota.
    unfold case_tilde. rewrite Hmt, Hv. cbn [negb andb orb].
    unfold mark_end_unless.
    destruct (count_run (chr "~") false s (mark_end l))
      as [[level s1] l1] eqn:Ec.
    pose proof (count_run_frames _ _ _ _ _ _ _ Ec) as [Hf _].
    pose proof (count_run_token_end _ _ _ _ _ _ _ Ec) as Hte.
    cbn [token_end mark_end] in Hte.
    apply count_run_spec in Ec as (-> & Hp & Ht); [|discriminate].
    change (rest (mark_end l)) with (rest l) in *.
    cbn [position text mark_end] in Hp, Ht.
    destruct Hf as [Hb Hma Hin Hcs _ _ _].
    replace (Z.of_nat (run_length (chr "~") (rest l)) >=? 3)
      with (3 <=? Z.of_nat (run_length (chr "~") (rest l))) by lia.
    destruct (3 <=? _); cbn [andb orb]; unfold open_fence;
      cbn [negb]; do 2 eexists; (split; [reflexivity|]);
      cbn [result_symbol set_result_symbol open_blocks matched indentation
           set_matched set_indentation code_span_delimiter_length
           set_code_span_delimiter_length push_back set_open_blocks
           token_end mark_end position];
      rewrite ?Hb, ?Hma, ?Hp, ?Hte; repeat split.
  - change ((chr "`" =? LF) || (chr "`" =? CR)) with false.
    change (chr "`" =? chr ">") with false.
    change (chr "`" =? chr "~") with false.
    change (chr "`" =? chr "`") with true. cbv iota.
    unfold case_backtick. rewrite Hmt, Hv. cbn [negb andb orb].
    unfold mark_end_unless.
    destruct (count_run (chr "`") false s (mark_end l))
      as [[level s1] l1] eqn:Ec.
    pose proof (count_run_frames _ _ _ _ _ _ _ Ec) as [Hf _].
    pose proof (count_run_token_end _ _ _ _ _ _ _ Ec) as Hte.
    cbn [token_end mark_end] in Hte.
    apply count_run_spec in Ec as (-> & Hp & Ht); [|discriminate].
    change (rest (mark_end l)) with (rest l) in *.
    cbn [position text mark_end] in Hp, Ht.
    destruct Hf as [Hb Hma Hin Hcs _ _ _].
    replace (Z.of_nat (run_length (chr "`") (rest l)) >=? 3)
      with (3 <=? Z.of_nat (run_length (chr "`") (rest l))) by lia.
    assert (Hla : lookahead l1
                  = nth (position l + run_length (chr "`") (rest l))
                      (text l) 0)
      by (unfold lookahead; rewrite Hp, Ht; reflexivity).
    rewrite Hla.
    destruct ((3 <=? _) && is_line_end _); unfold open_fence;
      cbn [negb]; do 2 eexists; (split; [reflexivity|]);
      cbn [result_symbol set_result_symbol open_blocks matched indentation
           set_matched set_indentation code_span_delimiter_length
           set_code_span_delimiter_length push_back set_open_blocks
           token_end mark_end position];
      rewrite ?Hb, ?Hma, ?Hp, ?Hte; repeat split.
Qed.

(** The theorem at three backticks with an info string behind them (no
    block opens) and at four tildes with one (a block opens). *)
Lemma fence_opens_witness :
  let valid := valid_of [FENCED_CODE_BLOCK_START] in
  (matched fresh_scanner = size fresh_scanner
   /\ indentation fresh_scanner <= 3)
  /\ (exists s' l',
        scan valid false fresh_scanner
          (lexer_of ["`"; "`"; "`"; "c"; "010"]%char) = Returns true s' l'
        /\ result_symbol l' = MATCHING_DONE /\ open_blocks s' = [])
  /\ (exists s' l',
        scan valid false fresh_scanner
          (lexer_of ["~"; "~"; "~"; "~"; "c"; "010"]%char)
        = Returns true s' l'
        /\ result_symbol l' = FENCED_CODE_BLOCK_START
        /\ open_blocks s' = [FENCED_CODE_BLOCK_TILDE]
        /\ code_span_delimiter_length s' = 4).
Proof.
  cbv zeta. split; [split; [reflexivity | cbn; lia]|]. split.
  - destruct (fence_opens (valid_of [FENCED_CODE_BLOCK_START])
                fresh_scanner (lexer_of ["`"; "`"; "`"; "c"; "010"]%char)
                eq_refl ltac:(cbn; lia) eq_refl (or_intror eq_refl))
      as (s' & l' & H1 & H2).
    exists s', l'. split; [exact H1|]. split; apply H2.
  - destruct (fence_opens (valid_of [FENCED_CODE_BLOCK_START])
                fresh_scanner
                (lexer_of ["~"; "~"; "~"; "~"; "c"; "010"]%char)
                eq_refl ltac:(cbn; lia) eq_refl (or_introl eq_refl))
      as (s' & l' & H1 & H2).
    exists s', l'. split; [exact H1|]. repeat split; apply H2.
Defined.

(** ** Thematic breaks of underscores *)

Lemma rest_hd (l : Lexer) : hd 0 (rest l) = lookahead l.
Proof.
  destruct (rest_cases l) as [(_ & -> & ->) | (_ & ->)]; reflexivity.
Qed.

(** The loop of the ['_'] case runs over the underscores, spaces and tabs
    of the line and counts the underscores. *)
Lemma underscore_loop_count count s' l' :
  forall n a s l,
    remaining l = n ->
    while_lookahead (fun _ la => (la =? chr "_") || is_space_or_tab la)
      (fun underscore_count s l =>
         if lookahead l =? chr "_" then
           let '(_, s, l) := advance s l false in
           (underscore_count + 1, s, l)
         else
           let '(_, s, l) := advance s l false in (underscore_count, s, l))
      a s l = (count, s', l') ->
    count = a + Z.of_nat (marker_count (chr "_") (rest l))
    /\ rest l' = skip_markers (chr "_") (rest l)
    /\ token_end l' = token_end l.
Proof.
  induction n as [|n IH]; intros a s l Hn H;
    destruct ((lookahead l =? chr "_") || is_space_or_tab (lookahead l))
      eqn:E.
  - exfalso. assert (He : eof l = false)
      by (apply lookahead_nonzero; change (chr "_") with 95 in E;
          unfold is_space_or_tab, SPACE, TAB in E; lia).
    unfold eof in He. apply Nat.leb_gt in He. unfold remaining in Hn. lia.
  - rewrite while_lookahead_stop in H by exact E. injection H as <- <- <-.
    destruct (rest_cases l) as [(_ & _ & ->) | (_ & ->)];
      cbn [marker_count skip_markers]; [repeat split; lia|].
    rewrite E. apply orb_false_elim in E as [-> ->].
    repeat split; lia.
  - assert (He : eof l = false)
      by (apply lookahead_nonzero; change (chr "_") with 95 in E;
          unfold is_space_or_tab, SPACE, TAB in E; lia).
    rewrite (while_lookahead_step _ _ _ _ _
               (if lookahead l =? chr "_" then a + 1 else a)
               (set_column s (u8 (column s + advance_size s l)))
               (lexer_advance l false)) in H;
      [| exact E | exact He
       | destruct (lookahead l =? chr "_"); reflexivity
       | apply remaining_advance; exact He].
    apply IH in H; [|rewrite remaining_advance by exact He; lia].
    rewrite (rest_advance_tl l l) in H by (reflexivity || exact He).
    destruct (rest_cases l) as [(He' & _) | (_ & Hr)]; [congruence|].
    rewrite Hr in *. cbn [tl marker_count skip_markers] in *. rewrite E.
    destruct H as (H1 & H2 & H3).
    unfold lexer_advance in H3. rewrite He in H3. cbn [token_end] in H3.
    destruct (lookahead l =? chr "_") eqn:Eu.
    + repeat split; try assumption. lia.
    + cbn [orb] in E. rewrite E. repeat split; assumption.
  - rewrite while_lookahead_stop in H by exact E. injection H as <- <- <-.
    destruct (rest_cases l) as [(_ & _ & ->) | (_ & ->)];
      cbn [marker_count skip_markers]; [repeat split; lia|].
    rewrite E. apply orb_false_elim in E as [-> ->].
    repeat split; lia.
Qed.

(** X8: at the start of a block, with at most three columns of indentation
    and [THEMATIC_BREAK] valid, a line that starts with ['_'] is a
    thematic break exactly when it holds three underscores at least and
    nothing but underscores, spaces and tabs up to its line end: the
    token then reaches to the line end and [indentation] is reset.
    Otherwise the call ends the matching with an empty token. *)
Theorem underscore_thematic_break valid s l :
  matched s = size s -> indentation s <= 3 ->
  valid THEMATIC_BREAK = true -> lookahead l = chr "_" ->
  exists s' l',
    scan valid false s l = Returns true s' l'
    /\ open_blocks s' = open_blocks s /\ matched s' = u8 (matched s + 1)
    /\ rest l' = skip_markers (chr "_") (rest l)
    /\ if (3 <=? Z.of_nat (marker_count (chr "_") (rest l)))
          && is_line_end (hd 0 (skip_markers (chr "_") (rest l)))
       then result_symbol l' = THEMATIC_BREAK
            /\ token_end l' = Some (position l') /\ indentation s' = 0
       else result_symbol l' = MATCHING_DONE
            /\ token_end l' = Some (position l)
            /\ indentation s' = indentation s.
Proof.
  intros Hm Hi Hv Hl.
  assert (He : eof l = false)
    by (apply lookahead_nonzero; rewrite Hl; discriminate).
  rewrite scan_at_block_start;
    [| exact He | exact Hm | left; exact Hi
     | rewrite Hl; apply andb_false_r].
  rewrite (block_switch_at (chr "_")) by (exact Hl || reflexivity).
  change (chr "_" =? chr "#") with false.
  change (chr "_" =? chr "=") with false.
  change (chr "_" =? chr "+") with false.
  change ((chr "_" >=? chr "0") && (chr "_" <=? chr "9")) with false.
  change (chr "_" =? chr "-") with false.
  change (chr "_" =? chr "*") with false.
  change (chr "_" =? chr "_") with true. cbv iota.
  unfold case_underscore, matching_of. rewrite Hv. cbn [negb andb].
  replace (indentation s <=? 3) with true by lia.
  replace (matched s <? size s) with false by lia. cbn [negb andb].
  unfold mark_end_unless.
  destruct (underscore_loop s (mark_end l)) as [[count s1] l1] eqn:Eu.
  pose proof (underscore_loop_frames _ _ _ _ _ Eu) as [Hf _].
  unfold underscore_loop in Eu.
  apply (underscore_loop_count _ _ _ _ _ _ _ eq_refl) in Eu.
  change (rest (mark_end l)) with (rest l) in Eu.
  cbn [token_end mark_end] in Eu. destruct Eu as (-> & H2 & H3).
  rewrite <- H2, rest_hd.
  replace (0 + Z.of_nat (marker_count (chr "_") (rest l)) >=? 3)
    with (3 <=? Z.of_nat (marker_count (chr "_") (rest l))) by lia.
  destruct Hf as [Hb Hma Hin _ _ _ _].
  destruct ((3 <=? _) && is_line_end (lookahead l1));
    unfold emit_line_token; do 2 eexists; (split; [reflexivity|]);
    cbn [open_blocks matched indentation set_matched set_indentation
         result_symbol token_end mark_end set_result_symbol position];
    rewrite ?Hb, ?Hma, ?Hin, ?H3; repeat split; reflexivity.
Qed.

(** The theorem at ["_ _ _"] before a line end and at ["__"]. *)
Lemma underscore_thematic_break_witness :
  let valid := valid_of [THEMATIC_BREAK] in
  (matched fresh_scanner = size fresh_scanner
   /\ indentation fresh_scanner <= 3)
  /\ (exists s' l',
        scan valid false fresh_scanner
          (lexer_of ["_"; " "; "_"; " "; "_"; "010"; "a"]%char)
        = Returns true s' l'
        /\ result_symbol l' = THEMATIC_BREAK
        /\ token_end l' = Some 5%nat)
  /\ (exists s' l',
        scan valid false fresh_scanner (lexer_of ["_"; "_"; "010"]%char)
        = Returns true s' l'
        /\ result_symbol l' = MATCHING_DONE
        /\ token_end l' = Some 0%nat).
Proof.
  cbv zeta. split; [split; [reflexivity | cbn; lia]|]. split.
  - destruct (underscore_thematic_break (valid_of [THEMATIC_BREAK])
                fresh_scanner
                (lexer_of ["_"; " "; "_"; " "; "_"; "010"; "a"]%char)
                eq_refl ltac:(cbn; lia) eq_refl eq_refl)
      as (s' & l' & H1 & _ & _ & H2 & H3).
    exists s', l'. split; [exact H1|]. vm_compute in H1.
    injection H1 as <- <-. split; reflexivity.
  - destruct (underscore_thematic_break (valid_of [THEMATIC_BREAK])
                fresh_scanner (lexer_of ["_"; "_"; "010"]%char)
                eq_refl ltac:(cbn; lia) eq_refl eq_refl)
      as (s' & l' & H1 & _ & _ & H2 & H3).
    exists s', l'. split; [exact H1|]. vm_compute in H1.
    injection H1 as <- <-. split; reflexivity.
Defined.

(** ** Setext underlines *)

Lemma skip_whitespace_rest u s' l' :
  forall n s l,
    remaining l = n ->
    skip_whitespace s l = (u, s', l') ->
    rest l' = skip_spaces (rest l) /\ token_end l' = token_end l.
Proof.
  unfold skip_whitespace.
  induction n as [|n IH]; intros s l Hn H;
    destruct (is_space_or_tab (lookahead l)) eqn:E.
  - apply space_or_tab_nonzero, lookahead_nonzero in E.
    unfold eof in E. apply Nat.leb_gt in E. unfold remaining in Hn. lia.
  - rewrite while_lookahead_stop in H by exact E. injection H as _ <- <-.
    destruct (rest_cases l) as [(_ & _ & ->) | (_ & ->)];
      cbn [skip_spaces]; rewrite ?E; auto.
  - pose proof (lookahead_nonzero _ (space_or_tab_nonzero _ E)) as He.
    rewrite (while_lookahead_step _ _ _ _ _ tt
               (set_column s (u8 (column s + advance_size s l)))
               (lexer_advance l true)) in H;
      [| exact E | exact He | reflexivity
       | apply remaining_advance; exact He].
    apply IH in H; [|rewrite remaining_advance by exact He; lia].
    rewrite (rest_advance_tl l l) in H by (reflexivity || exact He).
    destruct (rest_cases l) as [(He' & _) | (_ & Hr)]; [congruence|].
    rewrite Hr in *. cbn [tl skip_spaces] in *. rewrite E.
    destruct H as [H1 H2]. split; [exact H1|]. rewrite H2.
    unfold lexer_advance. rewrite He. reflexivity.
  - rewrite while_lookahead_stop in H by exact E. injection H as _ <- <-.
    destruct (rest_cases l) as [(_ & _ & ->) | (_ & ->)];
      cbn [skip_spaces]; rewrite ?E; auto.
Qed.

(** X9: at the start of a block, where no indented chunk can start and
    [SETEXT_H1_UNDERLINE] is valid, a line that starts with ['='] is an
    underline exactly when only spaces and tabs stand between its first
    run of ['='] and the line end.  The token reaches to the line end;
    [indentation] is left as it is, and it is not looked at: an
    underline may be indented by any number of columns. *)
Theorem setext_h1_underline valid s l :
  matched s = size s ->
  indentation s <= 3 \/ valid INDENTED_CHUNK_START = false
  \/ valid LAZY_CONTINUATION = true ->
  valid SETEXT_H1_UNDERLINE = true -> lookahead l = chr "=" ->
  exists s' l',
    scan valid false s l = Returns true s' l'
    /\ open_blocks s' = open_blocks s /\ matched s' = u8 (matched s + 1)
    /\ indentation s' = indentation s
    /\ rest l'
       = skip_spaces (skipn (run_length (chr "=") (rest l)) (rest l))
    /\ if is_line_end
            (hd 0 (skip_spaces
                     (skipn (run_length (chr "=") (rest l)) (rest l))))
       then result_symbol l' = SETEXT_H1_UNDERLINE
            /\ token_end l' = Some (position l')
       else result_symbol l' = MATCHING_DONE
            /\ token_end l' = Some (position l).
Proof.
  intros Hm Hi Hv Hl.
  assert (He : eof l = false)
    by (apply lookahead_nonzero; rewrite Hl; discriminate).
  rewrite scan_at_block_start;
    [| exact He | exact Hm | exact Hi
     | rewrite Hl; apply andb_false_r].
  rewrite (block_switch_at (chr "=")) by (exact Hl || reflexivity).
  change (chr "=" =? chr "#") with false.
  change (chr "=" =? chr "=") with true. cbv iota.
  unfold case_setext_h1, matching_of. rewrite Hv. cbn [negb andb].
  replace (matched s <? size s) with false by lia. cbn [negb andb].
  destruct (count_run (chr "=") false s (mark_end l))
    as [[level s1] l1] eqn:Ec.
  pose proof (count_run_frames _ _ _ _ _ _ _ Ec) as [Hf1 _].
  pose proof (count_run_token_end _ _ _ _ _ _ _ Ec) as Hte.
  cbn [token_end mark_end] in Hte.
  apply count_run_spec in Ec as (_ & Hp & Ht); [|discriminate].
  change (rest (mark_end l)) with (rest l) in *.
  cbn [position text mark_end] in Hp, Ht.
  assert (Hr1 : rest l1 = skipn (run_length (chr "=") (rest l)) (rest l))
    by (unfold rest; rewrite Hp, Ht, skipn_skipn; f_equal;
        apply Nat.add_comm).
  destruct (skip_whitespace s1 l1) as [[u s2] l2] eqn:Ew.
  pose proof (skip_whitespace_frames _ _ _ _ _ Ew) as [Hf2 _].
  apply (skip_whitespace_rest _ _ _ _ _ _ eq_refl) in Ew.
  destruct Ew as [Hr2 Hte2]. rewrite Hr1 in Hr2. rewrite <- Hr2, rest_hd.
  pose proof (frame_trans _ _ _ Hf1 Hf2) as [Hb Hma Hin _ _ _ _].
  destruct (is_line_end (lookahead l2));
    do 2 eexists; (split; [reflexivity|]);
    cbn [open_blocks matched indentation set_matched set_indentation
         result_symbol token_end mark_end set_result_symbol position];
    rewrite ?Hb, ?Hma, ?Hin, ?Hte2, ?Hte; repeat split; reflexivity.
Qed.

(** The theorem at ["==  "] before a line end, indented by five columns
    in a paragraph. *)
Lemma setext_h1_underline_witness :
  let valid := valid_of [SETEXT_H1_UNDERLINE; LAZY_CONTINUATION;
                         INDENTED_CHUNK_START] in
  let s := mkScanner [] 0 5 5 0 0 0 0 in
  let l := mkLexer (map chr [" "; " "; " "; " "; " "; "="; "="; " "; " ";
                             "010"]%char) 5 5 None 0 in
  (matched s = size s /\ lookahead l = chr "=")
  /\ exists s' l',
       scan valid false s l = Returns true s' l'
       /\ result_symbol l' = SETEXT_H1_UNDERLINE
       /\ token_end l' = Some 9%nat /\ indentation s' = 5.
Proof.
  cbv zeta. split; [split; reflexivity|].
  destruct (setext_h1_underline
              (valid_of [SETEXT_H1_UNDERLINE; LAZY_CONTINUATION;
                         INDENTED_CHUNK_START])
              (mkScanner [] 0 5 5 0 0 0 0)
              (mkLexer (map chr [" "; " "; " "; " "; " "; "="; "="; " ";
                                 " "; "010"]%char) 5 5 None 0)
              eq_refl (or_intror (or_intror eq_refl)) eq_refl eq_refl)
    as (s' & l' & H1 & _).
  exists s', l'. split; [exact H1|]. vm_compute in H1.
  injection H1 as <- <-. repeat split.
Defined.

(** ** Indented code blocks *)

(** X10: a line that is not blank and is indented by four columns or more
    belongs to an indented code block, whatever it starts with: inside
    an open one it goes on ([BLOCK_CONTINUATION]); with every block
    matched it opens one ([INDENTED_CHUNK_START]), unless
    [LAZY_CONTINUATION] is valid - an indented chunk does not interrupt a
    paragraph.  Four columns are taken off [indentation], no character is
    consumed, and [matched] goes up by two: the rest of the line is
    scanned as the inside of a line. *)
Theorem indented_chunk_line valid s l :
  eof l = false -> 0 <= matched s <= size s -> 4 <= indentation s ->
  is_line_end (lookahead l) = false ->
  valid INDENTATION && is_space_or_tab (lookahead l) = false ->
  (if matched s <? size s
   then block_at s (matched s) = INDENTED_CODE_BLOCK
        /\ valid BLOCK_CONTINUATION = true
   else valid INDENTED_CHUNK_START = true
        /\ valid LAZY_CONTINUATION = false) ->
  exists s' l',
    scan valid false s l = Returns true s' l'
    /\ position l' = position l
    /\ indentation s' = u8 (indentation s - 4)
    /\ matched s' = u8 (matched s + 2)
    /\ if matched s <? size s
       then result_symbol l' = BLOCK_CONTINUATION
            /\ open_blocks s' = open_blocks s
       else result_symbol l' = INDENTED_CHUNK_START
            /\ open_blocks s' = open_blocks s ++ [INDENTED_CODE_BLOCK].
Proof.
  intros He Hm Hi Hle Hind Hcase.
  unfold scan, scan_body. rewrite He, Hind.
  replace (matched s >? size s) with false by lia. cbv zeta.
  unfold indented_chunk, matching_of. cbn [negb andb].
  replace (indentation s >=? 4) with true by lia.
  unfold is_line_end in Hle. apply orb_false_elim in Hle as [-> ->].
  cbn [negb andb].
  destruct (matched s <? size s); destruct Hcase as [H1 H2].
  - rewrite H1, H2. change (INDENTED_CODE_BLOCK =? INDENTED_CODE_BLOCK)
      with true.
    cbn [negb andb orb]. rewrite orb_true_r.
    do 2 eexists. split; [reflexivity|]. repeat split.
  - rewrite H1, H2. cbn [negb andb orb].
    do 2 eexists. split; [reflexivity|]. repeat split.
Qed.

(** The theorem at ["# a"] behind four columns of indentation. *)
Lemma indented_chunk_line_witness :
  let valid := valid_of [INDENTED_CHUNK_START; ATX_H1_MARKER] in
  let s := mkScanner [] 0 4 4 0 0 0 0 in
  let l := mkLexer (map chr [" "; " "; " "; " "; "#"; " "; "a"]%char)
             4 4 None 0 in
  (eof l = false /\ 0 <= matched s <= size s /\ 4 <= indentation s)
  /\ exists s' l',
       scan valid false s l = Returns true s' l'
       /\ position l' = position l
       /\ indentation s' = u8 (indentation s - 4)
       /\ matched s' = u8 (matched s + 2)
       /\ result_symbol l' = INDENTED_CHUNK_START
       /\ open_blocks s' = open_blocks s ++ [INDENTED_CODE_BLOCK].
Proof.
  cbv zeta. split; [repeat split; cbn; lia|].
  exact (indented_chunk_line
           (valid_of [INDENTED_CHUNK_START; ATX_H1_MARKER])
           (mkScanner [] 0 4 4 0 0 0 0)
           (mkLexer (map chr [" "; " "; " "; " "; "#"; " "; "a"]%char)
              4 4 None 0)
           eq_refl ltac:(cbn; lia) ltac:(cbn; lia) eq_refl eq_refl
           (conj eq_refl eq_refl)).
Defined.

(** ** Matching a list item *)

(** While a list item is being matched no case of the [switch] applies. *)
Lemma block_switch_list_item valid s l :
  matched s < size s -> is_list_item (block_at s (matched s)) = true ->
  block_switch valid false s l = Break s l.
Proof.
  intros Hm Hli.
  assert (Hmt : matching_of false s = true)
    by (unfold matching_of; cbn [negb andb]; lia).
  assert (Hq : (block_at s (matched s) =? BLOCK_QUOTE) = false
               /\ (block_at s (matched s) =? FENCED_CODE_BLOCK_TILDE) = false
               /\ (block_at s (matched s) =? FENCED_CODE_BLOCK_BACKTICK)
                  = false)
    by (revert Hli; generalize (block_at s (matched s)); intro;
        block_classes; lia).
  destruct Hq as (Hq1 & Hq2 & Hq3).
  unfold block_switch. cbv zeta.
  repeat match goal with
    | |- context [if ?c then _ else _] => destruct c
    end;
    first
      [ reflexivity
      | unfold case_blank_line, case_block_quote, case_tilde, case_backtick,
          case_atx, case_setext_h1, case_plus, case_digit, case_minus,
          case_star, case_underscore;
        rewrite Hmt, ?Hq1, ?Hq2, ?Hq3; cbn [negb andb orb];
        rewrite ?andb_false_r; cbn [negb andb orb]; reflexivity ].
Qed.

(** X11: a line goes on in an open list item when it is indented by the
    content indent of the item at least: the call takes that much off
    [indentation] and emits [BLOCK_CONTINUATION]; so it does, with
    [indentation] reset, for a blank line.  Any other line leaves the
    item: the call emits [LAZY_CONTINUATION] where that is valid and the
    line starts no block of its own, and closes the deepest open block
    otherwise.  No character is consumed in either case. *)
Theorem list_item_continuation_line valid s l :
  eof l = false -> 0 <= matched s < size s ->
  is_list_item (block_at s (matched s)) = true ->
  valid BLOCK_CONTINUATION = true ->
  valid INDENTATION && is_space_or_tab (lookahead l) = false ->
  exists s' l',
    scan valid false s l = Returns true s' l'
    /\ if indentation s >=? list_item_indentation (block_at s (matched s))
       then result_symbol l' = BLOCK_CONTINUATION
            /\ indentation s'
               = u8 (indentation s
                     - list_item_indentation (block_at s (matched s)))
            /\ matched s' = u8 (matched s + 1)
            /\ open_blocks s' = open_blocks s /\ position l' = position l
       else if is_line_end (lookahead l)
       then result_symbol l' = BLOCK_CONTINUATION /\ indentation s' = 0
            /\ matched s' = u8 (matched s + 1)
            /\ open_blocks s' = open_blocks s /\ position l' = position l
       else (result_symbol l' = LAZY_CONTINUATION
             /\ valid LAZY_CONTINUATION = true /\ indentation s' = 0
             /\ matched s' = u8 (size s + 1)
             /\ open_blocks s' = open_blocks s)
            \/ (result_symbol l' = close_symbol (block_at s (size s - 1))
                /\ matched s' = matched s
                /\ open_blocks s' = removelast (open_blocks s)).
Proof.
  intros He Hm Hli Hv Hind.
  assert (Hmt : matching_of false s = true)
    by (unfold matching_of; cbn [negb andb]; lia).
  assert (Hq : (block_at s (matched s) =? INDENTED_CODE_BLOCK) = false
               /\ (block_at s (matched s) =? FENCED_CODE_BLOCK_TILDE) = false
               /\ (block_at s (matched s) =? FENCED_CODE_BLOCK_BACKTICK)
                  = false)
    by (revert Hli; generalize (block_at s (matched s)); intro;
        block_classes; lia).
  destruct Hq as (Hq1 & Hq2 & Hq3).
  unfold scan, scan_body. rewrite He, Hind.
  replace (matched s >? size s) with false by lia. cbv zeta.
  assert (E1 : indented_chunk valid false s l = Break s l).
  { unfold indented_chunk. rewrite Hmt, Hq1. cbn [negb andb].
    rewrite !andb_false_r. reflexivity. }
  rewrite E1. unfold list_item_continuation. rewrite Hmt, Hv, Hli.
  cbn [andb].
  destruct (indentation s >=? _) eqn:Ei.
  { do 2 eexists. split; [reflexivity|]. repeat split. }
  destruct (is_line_end (lookahead l)) eqn:El.
  { do 2 eexists. split; [reflexivity|]. repeat split. }
  rewrite block_switch_list_item by (lia || exact Hli).
  unfold scan_tail. rewrite Hv, Hq2, Hq3. cbn [negb andb orb].
  assert (Hclose : forall s1 l1,
             quiet s s1 ->
             exists s' l',
               close_block s1 l1 = Returns true s' l'
               /\ result_symbol l' = close_symbol (block_at s (size s - 1))
               /\ matched s' = matched s
               /\ open_blocks s' = removelast (open_blocks s)).
  { intros s1 l1 Hq. pose proof (quiet_size _ _ Hq) as Hs.
    unfold close_block. replace (size s1 >? 0) with true by lia.
    rewrite Hs, (quiet_block_at _ _ _ Hq). destruct Hq as [Hb Hma].
    do 2 eexists. split; [reflexivity|]. cbn. rewrite Hb, Hma.
    repeat split. }
  destruct (valid LAZY_CONTINUATION) eqn:Elz.
  - destruct (scan_probe_quiet valid s (mark_end l) He ltac:(lia))
      as (b & s1 & l1 & Hp & Hq & _).
    rewrite Hp. destruct b.
    + destruct (Hclose s1 l1 Hq) as (s' & l' & H1 & H2).
      exists s', l'. split; [exact H1 | right; exact H2].
    + pose proof (quiet_size _ _ Hq) as Hs. destruct Hq as [Hb Hma].
      do 2 eexists. split; [reflexivity|]. left.
      cbn [result_symbol set_result_symbol indentation matched open_blocks
           set_matched set_indentation size].
      unfold size. cbn [open_blocks set_indentation]. rewrite Hb.
      repeat split.
  - destruct (Hclose s (mark_end l) (quiet_refl s)) as (s' & l' & H1 & H2).
    exists s', l'. split; [exact H1 | right; exact H2].
Qed.

(** The theorem at a line indented by three columns inside an item of
    content indent 2. *)
Lemma list_item_continuation_line_witness :
  let valid := valid_of [BLOCK_CONTINUATION] in
  let s := mkScanner [TIGHT_LIST_ITEM] 0 3 3 0 0 0 0 in
  let l := lexer_of ["a"]%char in
  (eof l = false /\ 0 <= matched s < size s
   /\ is_list_item (block_at s (matched s)) = true)
  /\ exists s' l',
       scan valid false s l = Returns true s' l'
       /\ result_symbol l' = BLOCK_CONTINUATION
       /\ indentation s' = 1 /\ matched s' = 1
       /\ open_blocks s' = open_blocks s /\ position l' = position l.
Proof.
  cbv zeta. split; [repeat split; cbn; lia|].
  destruct (list_item_continuation_line (valid_of [BLOCK_CONTINUATION])
              (mkScanner [TIGHT_LIST_ITEM] 0 3 3 0 0 0 0)
              (lexer_of ["a"]%char)
              eq_refl ltac:(cbn; lia) eq_refl eq_refl eq_refl)
    as (s' & l' & H1 & H2).
  exists s', l'. split; [exact H1 | exact H2].
Defined.

(** ** Block quotes *)

(** X12: inside an open block quote a line that starts with ['>'] goes on in
    it: the call emits [BLOCK_CONTINUATION] and consumes the ['>'] and
    one space or tab behind it.  The indentation before the marker is
    dropped; of a tab behind the marker the columns beyond the first stay
    as [indentation]. *)
Theorem block_quote_continuation valid s l :
  lookahead l = chr ">" -> 0 <= matched s < size s ->
  block_at s (matched s) = BLOCK_QUOTE ->
  valid BLOCK_CONTINUATION = true ->
  exists s' l',
    scan valid false s l = Returns true s' l'
    /\ result_symbol l' = BLOCK_CONTINUATION
    /\ open_blocks s' = open_blocks s /\ matched s' = u8 (matched s + 1)
    /\ if is_space_or_tab (nth (S (position l)) (text l) 0)
       then position l' = S (S (position l))
            /\ indentation s'
               = whitespace_columns (u8 (column s + 1))
                   [nth (S (position l)) (text l) 0] - 1
       else position l' = S (position l) /\ indentation s' = 0.
Proof.
  intros Hl Hm Hb Hv.
  assert (He : eof l = false)
    by (apply lookahead_nonzero; rewrite Hl; discriminate).
  assert (Hmt : matching_of false s = true)
    by (unfold matching_of; cbn [negb andb]; lia).
  unfold scan, scan_body. rewrite He, Hl.
  replace (matched s >? size s) with false by lia.
  replace (is_space_or_tab (chr ">")) with false by reflexivity.
  rewrite andb_false_r. cbv zeta.
  assert (E1 : indented_chunk valid false s l = Break s l).
  { unfold indented_chunk. rewrite Hmt, Hb. cbn [negb andb].
    change (BLOCK_QUOTE =? INDENTED_CODE_BLOCK) with false.
    rewrite !andb_false_r. reflexivity. }
  assert (E2 : list_item_continuation valid false s l = Break s l).
  { unfold list_item_continuation. rewrite Hmt, Hb.
    change (is_list_item BLOCK_QUOTE) with false.
    rewrite !andb_false_r. reflexivity. }
  rewrite E1, E2. unfold block_switch. cbv zeta. rewrite Hl.
  change ((chr ">" =? LF) || (chr ">" =? CR)) with false.
  change (chr ">" =? chr ">") with true. cbv iota.
  unfold case_block_quote. rewrite Hmt, Hv, Hb.
  change (BLOCK_QUOTE =? BLOCK_QUOTE) with true.
  cbn [negb andb orb]. rewrite andb_false_r. cbn [orb].
  unfold advance. cbv zeta.
  rewrite (advance_size_other s l) by (rewrite Hl; discriminate).
  assert (Hla : lookahead (lexer_advance l false)
                = nth (S (position l)) (text l) 0)
    by (unfold lexer_advance; rewrite He; reflexivity).
  rewrite Hla.
  destruct (is_space_or_tab (nth (S (position l)) (text l) 0)) eqn:En.
  - assert (He2 : eof (lexer_advance l false) = false)
      by (apply lookahead_nonzero; rewrite Hla;
          apply space_or_tab_nonzero; exact En).
    do 2 eexists. split; [reflexivity|].
    cbn [result_symbol set_result_symbol open_blocks matched indentation
         set_matched set_indentation set_column column position].
    repeat split.
    + unfold lexer_advance at 1. rewrite He2.
      unfold lexer_advance. rewrite He. reflexivity.
    + cbn [whitespace_columns]. rewrite En. unfold advance_size.
      rewrite Hla. cbn [column set_column set_indentation].
      pose proof (Z.mod_pos_bound (u8 (column s + 1)) 4 ltac:(lia)).
      rewrite Z.add_0_l, Z.add_0_r. apply u8_id. unfold is_byte.
      destruct (_ =? TAB); [destruct (_ =? 0) eqn:E0|]; lia.
  - do 2 eexists. split; [reflexivity|].
    cbn [result_symbol set_result_symbol open_blocks matched indentation
         set_matched set_indentation set_column column position].
    repeat split. unfold lexer_advance. rewrite He. reflexivity.
Qed.

(** The theorem at ["  >" tab "a"]: a ['>'] in column 2, and a tab that
    ends at column 4. *)
Lemma block_quote_continuation_witness :
  let valid := valid_of [BLOCK_CONTINUATION] in
  let s := mkScanner [BLOCK_QUOTE] 0 2 2 0 0 0 0 in
  let l := mkLexer (map chr [" "; " "; ">"; "009"; "a"]%char) 2 2 None 0 in
  (lookahead l = chr ">" /\ 0 <= matched s < size s)
  /\ exists s' l',
       scan valid false s l = Returns true s' l'
       /\ result_symbol l' = BLOCK_CONTINUATION
       /\ open_blocks s' = open_blocks s /\ matched s' = 1
       /\ position l' = 4%nat /\ indentation s' = 0.
Proof.
  cbv zeta. split; [split; [reflexivity | cbn; lia]|].
  destruct (block_quote_continuation (valid_of [BLOCK_CONTINUATION])
              (mkScanner [BLOCK_QUOTE] 0 2 2 0 0 0 0)
              (mkLexer (map chr [" "; " "; ">"; "009"; "a"]%char)
                 2 2 None 0)
              eq_refl ltac:(cbn; lia) eq_refl eq_refl)
    as (s' & l' & H1 & H2 & H3 & H4 & H5).
  exists s', l'. repeat split; try assumption; apply H5.
Defined.

(** ** Pending indentation *)

(** X13: in the middle of a line, the indentation that is pending is handed
    out before anything else: as long as [VIRTUAL_SPACE] is valid, each
    call takes one column off [indentation] and emits [VIRTUAL_SPACE]
    without consuming a character, whatever the lookahead is. *)
Theorem virtual_spaces valid (n : nat) :
  forall s l,
    eof l = false -> token_end l = None -> matched s > size s ->
    valid VIRTUAL_SPACE = true ->
    indentation s = Z.of_nat n -> (n <= 255)%nat ->
    exists l',
      run_calls (repeat valid n) s l
      = (repeat VIRTUAL_SPACE n, set_indentation s 0, l')
      /\ position l' = position l /\ text l' = text l.
Proof.
  induction n as [|n IH]; intros s l He Ht Hm Hv Hi Hn.
  - exists l. cbn [repeat run_calls].
    replace (set_indentation s 0) with s
      by (destruct s; cbn in Hi; subst; reflexivity).
    repeat split.
  - cbn [repeat run_calls]. unfold scan, scan_body, scan_inline.
    rewrite He, Hv. replace (matched s >? size s) with true by lia.
    replace (indentation s >? 0) with true by lia. cbn [andb].
    destruct (IH (set_indentation s (u8 (indentation s - 1)))
                (host_resume (set_result_symbol l VIRTUAL_SPACE)))
      as (l' & H1 & H2 & H3).
    + unfold host_resume, eof in *. cbn. rewrite Ht. exact He.
    + reflexivity.
    + exact Hm.
    + exact Hv.
    + cbn. rewrite u8_id by (unfold is_byte; lia). lia.
    + lia.
    + change (scan_body (scan_probe valid)) with (scan valid) in *.
      rewrite H1. exists l'. split; [reflexivity|].
      rewrite H2, H3. unfold host_resume. cbn. rewrite Ht.
      split; reflexivity.
Qed.

(** The theorem at two pending columns before a letter. *)
Lemma virtual_spaces_witness :
  let valid := valid_of [VIRTUAL_SPACE; LINE_ENDING] in
  let s := mkScanner [TIGHT_LIST_ITEM] 2 2 6 0 0 0 0 in
  let l := mkLexer (map chr ["-"; " "; " "; " "; "a"]%char) 4 4 None 0 in
  (eof l = false /\ matched s > size s /\ indentation s = Z.of_nat 2)
  /\ exists l',
       run_calls [valid; valid] s l
       = ([VIRTUAL_SPACE; VIRTUAL_SPACE], set_indentation s 0, l')
       /\ position l' = position l /\ text l' = text l.
Proof.
  cbv zeta. split; [repeat split; cbn; lia|].
  exact (virtual_spaces (valid_of [VIRTUAL_SPACE; LINE_ENDING]) 2
           (mkScanner [TIGHT_LIST_ITEM] 2 2 6 0 0 0 0)
           (mkLexer (map chr ["-"; " "; " "; " "; "a"]%char) 4 4 None 0)
           eq_refl eq_refl ltac:(cbn; lia) eq_refl eq_refl ltac:(lia)).
Defined.

(** ** Calls with [check_block] set *)

(** X14: the call that [scan] makes of itself, with [check_block] set, only
    looks whether the line starts a block: inside the input it returns
    without pushing or popping a block and without moving [matched], and
    it makes no call of its own.  At the end of the input [check_block]
    is not looked at: that call closes the deepest block as any other
    does. *)
Theorem scan_check_block valid s l :
  matched s <= size s ->
  if eof l then scan valid true s l = scan valid false s l
  else exists b s' l',
         scan valid true s l = Returns b s' l'
         /\ open_blocks s' = open_blocks s /\ matched s' = matched s
         /\ forall probe, scan_body probe valid true s l = Returns b s' l'.
Proof.
  intros Hm. destruct (eof l) eqn:He.
  - unfold scan, scan_body. rewrite He. reflexivity.
  - destruct (scan_probe_quiet valid s l He Hm)
      as (b & s' & l' & H & [Hb Hma] & _).
    exists b, s', l'.
    assert (Hp : forall probe,
               scan_body probe valid true s l = Returns b s' l')
      by (intros probe; rewrite <- H; apply probe_never_recurses).
    split; [apply Hp|]. split; [exact Hb|]. split; [exact Hma | exact Hp].
Qed.

(** The theorem at a list marker in a block quote. *)
Lemma scan_check_block_witness :
  let valid := valid_of [LIST_MARKER_MINUS; BLOCK_QUOTE_START] in
  let s := mkScanner [BLOCK_QUOTE] 0 0 0 0 0 0 0 in
  let l := lexer_of ["-"; " "; "a"]%char in
  matched s <= size s
  /\ exists b s' l',
       scan valid true s l = Returns b s' l'
       /\ b = true
       /\ open_blocks s' = open_blocks s /\ matched s' = matched s.
Proof.
  cbv zeta. split; [cbn; lia|].
  pose proof (scan_check_block
                (valid_of [LIST_MARKER_MINUS; BLOCK_QUOTE_START])
                (mkScanner [BLOCK_QUOTE] 0 0 0 0 0 0 0)
                (lexer_of ["-"; " "; "a"]%char) ltac:(cbn; lia)) as H.
  change (eof (lexer_of ["-"; " "; "a"]%char)) with false in H.
  cbv iota in H. destruct H as (b & s' & l' & H1 & H2 & H3 & _).
  exists b, s', l'. split; [exact H1|]. split; [|split; assumption].
  vm_compute in H1. injection H1 as <- _ _. reflexivity.
Defined.

(** ** The blocks of the stack *)

Lemma Forall_removelast {A : Type} (P : A -> Prop) (xs : list A) :
  Forall P xs -> Forall P (removelast xs).
Proof.
  intros H. rewrite removelast_firstn_len.
  rewrite <- (firstn_skipn (pred (length xs)) xs) in H.
  apply Forall_app in H. exact (proj1 H).
Qed.

Lemma is_block_loosen (b : Block) : is_block b -> is_block (loosen b).
Proof.
  unfold is_block. block_classes.
  destruct ((b >=? 2) && (b <=? 8)) eqn:E; [|tauto].
  intros _. rewrite Z.mod_small; lia.
Qed.

Lemma transition_blocks valid s l s' tok :
  Transition valid s l s' tok -> 0 <= indentation s ->
  Forall is_block (open_blocks s) -> Forall is_block (open_blocks s').
Proof.
  intros T Hi Hall.
  assert (Hpush : forall b, is_block b ->
                            Forall is_block (open_blocks s ++ [b]))
    by (intros b Hb; apply Forall_app; split; [exact Hall|];
        apply Forall_cons; [exact Hb | apply Forall_nil]).
  inversion T; subst;
    repeat match goal with
      | Hq : quiet _ _ |- _ => destruct Hq
      end;
    match goal with
    | E : open_blocks s' = _ |- _ => rewrite E
    end;
    auto using Forall_removelast;
    try (apply Forall_map; revert Hall; apply Forall_impl;
         exact is_block_loosen);
    apply Hpush.
  - unfold is_block. block_classes. lia.
  - unfold is_block. block_classes. lia.
  - match goal with
    | Hf : is_fence _ = true |- _ =>
        revert Hf; unfold is_block; block_classes; lia
    end.
  - match goal with
    | He : 1 <= ?e |- is_block (list_item_block ?i ?e) =>
        destruct (list_item_block_tight i e ltac:(lia) He) as [Ht _];
        revert Ht; generalize (list_item_block i e); intro;
        unfold is_block; block_classes; lia
    end.
Qed.

(** X15: every state that calls of [scan] reach from a new scanner holds
    values of [enum Block] only on its stack - the indices of
    [BLOCK_NAME] in the output of lines 323-327 are in bounds - and an
    indented or fenced code block is nowhere but at the top of the
    stack. *)
Theorem reachable_blocks (s : Scanner) :
  reachable s ->
  Forall is_block (open_blocks s)
  /\ forall i, 0 <= i < size s - 1 -> is_leaf (block_at s i) = false.
Proof.
  intros Hr. split; [|exact (shape_inner _ (reachable_stack_shape _ Hr))].
  induction Hr as [|s tok s' Hr IH (valid & l & b & l' & H & _)];
    [constructor|].
  pose proof (reachable_stack_shape _ Hr) as [Hm Hi _ _].
  unfold is_byte in Hm, Hi.
  pose proof (scan_transition valid s l ltac:(lia)) as T.
  unfold external_scanner_scan in H. rewrite H in T. destruct b.
  - destruct T as [T _]. eapply transition_blocks; [exact T | lia | exact IH].
  - destruct T as [[Hb _] _]. rewrite Hb. exact IH.
Qed.

(** The theorem after the three calls for ["- a"] under a block quote
    marker. *)
Lemma reachable_blocks_witness :
  let s := mkScanner [BLOCK_QUOTE; TIGHT_LIST_ITEM] 2 0 4 0 0 0 0 in
  reachable s
  /\ Forall is_block (open_blocks s)
  /\ forall i, 0 <= i < size s - 1 -> is_leaf (block_at s i) = false.
Proof.
  cbv zeta.
  assert (R : reachable (mkScanner [BLOCK_QUOTE; TIGHT_LIST_ITEM] 2 0 4 0 0 0 0)).
  { apply (reachable_call (mkScanner [BLOCK_QUOTE] 1 0 2 0 0 0 0)
             (Some LIST_MARKER_MINUS)).
    - apply (reachable_call fresh_scanner (Some BLOCK_QUOTE_START)).
      + apply reachable_fresh.
      + exists (valid_of [BLOCK_QUOTE_START]),
          (lexer_of [">"; " "; "-"; " "; "a"]%char), true.
        eexists. split; reflexivity.
    - exists (valid_of [LIST_MARKER_MINUS]),
        (mkLexer (map chr [">"; " "; "-"; " "; "a"]%char) 2 2 None 0), true.
      eexists. split; reflexivity. }
  split; [exact R|]. exact (reachable_blocks _ R).
Defined.

(** ** Calls that emit nothing *)

(** Where a call returns [false], and what it leaves as it was. *)
Lemma scan_false_cases valid s l s' l' :
  0 <= matched s ->
  scan valid false s l = Returns false s' l' ->
  (if eof l then size s = 0 else matched s > size s)
  /\ open_blocks s' = open_blocks s /\ matched s' = matched s
  /\ indentation s' = indentation s.
Proof.
  intros H0 H.
  pose proof (scan_transition valid s l H0) as T. rewrite H in T.
  destruct T as [[Hb Hm] Hi].
  split; [|repeat split; assumption].
  clear Hb Hm Hi. revert H. unfold scan, scan_body.
  destruct (eof l) eqn:He.
  { unfold scan_eof. destruct (size s >? 0) eqn:E; [discriminate|].
    pose proof (size_nonneg s). lia. }
  destruct (matched s >? size s) eqn:Ep; [lia|].
  assert (Hm : matched s <= size s) by lia.
  destruct (valid INDENTATION && is_space_or_tab (lookahead l));
    [unfold scan_indentation;
     destruct (indentation_loop s l) as [[u s1] l1]; discriminate|].
  cbv zeta. unfold matching_of. cbn [negb andb].
  pose proof (indented_chunk_transition valid s l He Hm) as H1.
  destruct (indented_chunk valid false s l) as [[b s1 l1|]|s1 l1] eqn:E1;
    cbn in H1; try contradiction.
  { destruct H1 as [-> _]. discriminate. }
  apply indented_chunk_break in E1 as [-> ->]. clear H1.
  pose proof (list_item_continuation_transition valid s l He Hm) as H2.
  destruct (list_item_continuation valid false s l) as [[b s2 l2|]|s2 l2]
    eqn:E2; cbn in H2; try contradiction.
  { destruct H2 as [-> _]. discriminate. }
  apply list_item_continuation_break in E2 as [-> ->]. clear H2.
  pose proof (block_switch_transition valid s l He Hm) as H3.
  destruct (block_switch valid false s l) as [[b s3 l3|]|s3 l3];
    cbn in H3; try contradiction.
  { destruct H3 as [-> _]. discriminate. }
  destruct H3 as [Hf Hbr].
  pose proof (scan_tail_transition valid s l s3 l3 He ltac:(lia) Hf Hbr) as H4.
  destruct (scan_tail _ _ _ _ _ _) as [[] s4 l4|];
    first [discriminate | contradiction].
Qed.

(** X16: at the start of a line - the lexer inside the input and
    [matched <= open_blocks.size()] - and at the end of the input with a
    block open, a call emits a token, unless it is one that
    [undefined_call] describes, of which nothing is said.  A call returns
    [false] only in the middle of a line
    ([matched > open_blocks.size()]) or at the end of the input with no
    block open, and it has then left the stack, [matched] and
    [indentation] as they were. *)
Theorem scan_false_inside_line valid s l :
  0 <= matched s ->
  ((if eof l then 0 < size s else matched s <= size s) ->
   ~ undefined_call valid s ->
   exists s' l', scan valid false s l = Returns true s' l')
  /\ (forall s' l',
        scan valid false s l = Returns false s' l' ->
        (if eof l then size s = 0 else matched s > size s)
        /\ open_blocks s' = open_blocks s /\ matched s' = matched s
        /\ indentation s' = indentation s).
Proof.
  intros H0. split; [|intros s' l'; apply scan_false_cases; exact H0].
  intros Hstart Hdef.
  pose proof (scan_transition valid s l H0) as T.
  destruct (scan valid false s l) as [[] s' l'|] eqn:E.
  - exists s', l'. reflexivity.
  - exfalso. apply (scan_false_cases valid s l s' l' H0) in E as [E _].
    destruct (eof l); lia.
  - contradiction.
Qed.

(** The theorem at a letter in the middle of a line, where the call
    returns [false], and at the same letter at the start of a line. *)
Lemma scan_false_inside_line_witness :
  let valid := valid_of [LINE_ENDING; CODE_SPAN_START] in
  let s := mkScanner [BLOCK_QUOTE] 2 0 2 0 0 0 0 in
  let s0 := mkScanner [BLOCK_QUOTE] 1 0 2 0 0 0 0 in
  let l := lexer_of ["a"; "b"]%char in
  (0 <= matched s /\ 0 <= matched s0
   /\ (if eof l then 0 < size s0 else matched s0 <= size s0)
   /\ ~ undefined_call valid s0
   /\ scan valid false s l = Returns false s l)
  /\ (exists s' l', scan valid false s0 l = Returns true s' l')
  /\ (if eof l then size s = 0 else matched s > size s).
Proof.
  cbv zeta.
  assert (Hdef : ~ undefined_call (valid_of [LINE_ENDING; CODE_SPAN_START])
                     (mkScanner [BLOCK_QUOTE] 1 0 2 0 0 0 0))
    by (intros (_ & Hm & _); cbn in Hm; lia).
  split; [repeat split; first [exact Hdef | reflexivity | cbn; lia]|].
  split.
  - apply (proj1 (scan_false_inside_line
                    (valid_of [LINE_ENDING; CODE_SPAN_START])
                    (mkScanner [BLOCK_QUOTE] 1 0 2 0 0 0 0)
                    (lexer_of ["a"; "b"]%char) ltac:(cbn; lia)));
      [cbn; lia | exact Hdef].
  - apply (proj2 (scan_false_inside_line
                    (valid_of [LINE_ENDING; CODE_SPAN_START])
                    (mkScanner [BLOCK_QUOTE] 2 0 2 0 0 0 0)
                    (lexer_of ["a"; "b"]%char) ltac:(cbn; lia))
             (mkScanner [BLOCK_QUOTE] 2 0 2 0 0 0 0)
             (lexer_of ["a"; "b"]%char) eq_refl).
Defined.

(** ** The classes of characters *)

(** X17: [is_punctuation] and [is_whitespace] take a [char]: of the 32-bit
    lookahead only the low byte counts, so that U+0121 is punctuation as
    ['!'] is and U+2009 is whitespace as the tab is; no character is in
    both classes, and none above 126 modulo 256 is in either. *)
Theorem character_classes (c : Z) :
  is_punctuation c = is_punctuation (c mod 256)
  /\ is_whitespace c = is_whitespace (c mod 256)
  /\ is_punctuation c && is_whitespace c = false
  /\ (is_punctuation c || is_whitespace c = true -> 9 <= c mod 256 <= 126)
  /\ is_punctuation 289 = true /\ is_whitespace 8201 = true.
Proof.
  unfold is_punctuation, is_whitespace, to_char. cbv zeta.
  rewrite Zmod_mod.
  pose proof (Z.mod_pos_bound c 256 ltac:(lia)) as Hb.
  generalize dependent (c mod 256). intros b Hb.
  change (chr "!") with 33. change (chr "/") with 47.
  change (chr ":") with 58. change (chr "@") with 64.
  change (chr "[") with 91. change (chr "`") with 96.
  change (chr "{") with 123. change (chr "~") with 126.
  unfold SPACE, TAB, LF, CR.
  repeat split; try reflexivity; lia.
Qed.

(** ** Leaving a block quote *)

(** While a block quote is being matched, only a ['>'] is looked at. *)
Lemma block_switch_block_quote valid s l :
  matched s < size s -> block_at s (matched s) = BLOCK_QUOTE ->
  lookahead l <> chr ">" ->
  block_switch valid false s l = Break s l.
Proof.
  intros Hm Hb Hl.
  assert (Hmt : matching_of false s = true)
    by (unfold matching_of; cbn [negb andb]; lia).
  unfold block_switch. cbv zeta.
  destruct (lookahead l =? chr ">") eqn:E; [lia|].
  repeat match goal with
    | |- context [if ?c then _ else _] => destruct c
    end;
    first
      [ reflexivity
      | unfold case_blank_line, case_block_quote, case_tilde, case_backtick,
          case_atx, case_setext_h1, case_plus, case_digit, case_minus,
          case_star, case_underscore;
        rewrite Hmt, ?Hb; cbn [negb andb orb];
        change (BLOCK_QUOTE =? FENCED_CODE_BLOCK_TILDE) with false;
        change (BLOCK_QUOTE =? FENCED_CODE_BLOCK_BACKTICK) with false;
        rewrite ?andb_false_r; cbn [negb andb orb]; reflexivity ].
Qed.

Lemma scan_leaves_block_quote valid s l :
  eof l = false -> 0 <= matched s < size s ->
  block_at s (matched s) = BLOCK_QUOTE -> lookahead l <> chr ">" ->
  valid LAZY_CONTINUATION = false ->
  valid INDENTATION && is_space_or_tab (lookahead l) = false ->
  scan valid false s l
  = Returns true (pop_back s)
      (set_result_symbol (mark_end l)
         (close_symbol (block_at s (size s - 1)))).
Proof.
  intros He Hm Hb Hl Hlz Hind.
  assert (Hmt : matching_of false s = true)
    by (unfold matching_of; cbn [negb andb]; lia).
  unfold scan, scan_body. rewrite He, Hind.
  replace (matched s >? size s) with false by lia. cbv zeta.
  assert (E1 : indented_chunk valid false s l = Break s l).
  { unfold indented_chunk. rewrite Hmt, Hb. cbn [negb andb].
    change (BLOCK_QUOTE =? INDENTED_CODE_BLOCK) with false.
    rewrite !andb_false_r. reflexivity. }
  assert (E2 : list_item_continuation valid false s l = Break s l).
  { unfold list_item_continuation. rewrite Hmt, Hb.
    change (is_list_item BLOCK_QUOTE) with false.
    rewrite !andb_false_r. reflexivity. }
  rewrite E1, E2, block_switch_block_quote by (lia || assumption).
  unfold scan_tail. rewrite Hmt, Hb, Hlz.
  change (BLOCK_QUOTE =? FENCED_CODE_BLOCK_TILDE) with false.
  change (BLOCK_QUOTE =? FENCED_CODE_BLOCK_BACKTICK) with false.
  cbn [negb andb orb]. rewrite andb_false_r.
  unfold close_block. replace (size s >? 0) with true by lia. reflexivity.
Qed.

(** X18: a line that does not start with ['>'] leaves the block quote
    that is being matched.  Where [LAZY_CONTINUATION] is not valid, the
    calls that follow close the open blocks one by one, the deepest
    first, down to that block quote; each call emits the close token of
    the block it pops, none consumes a character, and [matched] stays
    where it is, at the size the stack has in the end. *)
Theorem block_quote_unwinds valid (n : nat) :
  forall s l,
    eof l = false -> 0 <= matched s ->
    size s = matched s + Z.of_nat n ->
    (n <> O -> block_at s (matched s) = BLOCK_QUOTE) ->
    lookahead l <> chr ">" -> valid LAZY_CONTINUATION = false ->
    valid INDENTATION && is_space_or_tab (lookahead l) = false ->
    exists l',
      run_calls (repeat valid n) s l
      = (map close_symbol
           (rev (skipn (Z.to_nat (matched s)) (open_blocks s))),
         set_open_blocks s (firstn (Z.to_nat (matched s)) (open_blocks s)),
         l')
      /\ position l' = position l /\ text l' = text l.
Proof.
  induction n as [|n IH]; intros s l He H0 Hs Hb Hl Hlz Hind.
  - exists l. cbn [repeat run_calls]. unfold size in Hs.
    rewrite skipn_all2, firstn_all2 by lia.
    replace (set_open_blocks s (open_blocks s)) with s
      by (destruct s; reflexivity).
    repeat split.
  - cbn [repeat run_calls].
    rewrite scan_leaves_block_quote; try assumption; [|lia | auto].
    destruct (exists_last (l:=open_blocks s)) as (xs & x & E);
      [intros E; unfold size in Hs; rewrite E in Hs; cbn in Hs; lia|].
    assert (Hlen : Z.of_nat (length xs) = matched s + Z.of_nat n)
      by (unfold size in Hs; rewrite E, length_app in Hs; cbn in Hs; lia).
    destruct (IH (pop_back s)
                (host_resume
                   (set_result_symbol (mark_end l)
                      (close_symbol (block_at s (size s - 1))))))
      as (l' & H1 & H2 & H3).
    + exact He.
    + exact H0.
    + unfold size, pop_back. cbn [open_blocks set_open_blocks matched].
      rewrite E, removelast_last. lia.
    + intros Hn. unfold block_at, pop_back.
      cbn [open_blocks set_open_blocks matched]. rewrite E, removelast_last.
      rewrite <- (Hb ltac:(lia)). unfold block_at. rewrite E.
      rewrite app_nth1 by lia. reflexivity.
    + exact Hl.
    + exact Hlz.
    + exact Hind.
    + rewrite H1. exists l'.
      cbn [matched open_blocks pop_back set_open_blocks].
      unfold size, block_at. rewrite E, removelast_last.
      rewrite skipn_app, firstn_app, rev_app_distr.
      replace (Z.to_nat (matched s) - length xs)%nat with 0%nat by lia.
      cbn [skipn firstn rev app map]. rewrite app_nil_r.
      replace (nth _ (xs ++ [x]) 0) with x
        by (rewrite app_nth2 by (rewrite length_app; cbn; lia);
            rewrite length_app; cbn [length];
            replace (Z.to_nat (Z.of_nat (length xs + 1) - 1) - length xs)%nat
              with 0%nat by lia; reflexivity).
      split; [reflexivity|]. rewrite H2, H3. split; reflexivity.
Qed.

(** The theorem at a paragraph line after a list item in a block quote. *)
Lemma block_quote_unwinds_witness :
  let valid := valid_of [BLOCK_CONTINUATION; BLOCK_CLOSE] in
  let s := mkScanner [BLOCK_QUOTE; 11] 0 0 0 0 0 0 0 in
  let l := mkLexer (map chr [">"; "010"; "a"]%char) 2 2 None 0 in
  (eof l = false /\ size s = matched s + Z.of_nat 2
   /\ lookahead l <> chr ">")
  /\ exists l',
       run_calls [valid; valid] s l
       = ([BLOCK_CLOSE_LOOSE; BLOCK_CLOSE], set_open_blocks s [], l')
       /\ position l' = position l /\ text l' = text l.
Proof.
  cbv zeta. split; [repeat split; discriminate|].
  exact (block_quote_unwinds (valid_of [BLOCK_CONTINUATION; BLOCK_CLOSE]) 2
           (mkScanner [BLOCK_QUOTE; 11] 0 0 0 0 0 0 0)
           (mkLexer (map chr [">"; "010"; "a"]%char) 2 2 None 0)
           eq_refl ltac:(cbn; lia) eq_refl (fun _ => eq_refl)
           ltac:(discriminate) eq_refl eq_refl).
Defined.

(** ** Ordered list markers *)

(** X19: at the start of a block, with at most three columns of
    indentation and one of [LIST_MARKER_PLUS], [LIST_MARKER_PARENTHETHIS]
    and [LIST_MARKER_DOT] valid, a line that starts with a digit starts
    an ordered list item exactly when it has nine digits at most, then
    ['.'] or [')'], then one column of whitespace at least: a marker at
    the very end of its line starts none.  The token is
    [LIST_MARKER_DOT] or [LIST_MARKER_PARENTHETHIS] by the delimiter -
    whichever of the three bits is set - and one block is pushed.
    Otherwise the call ends the matching. *)
Theorem ordered_list_marker valid s l :
  matched s = size s -> 0 <= indentation s <= 3 ->
  valid LIST_MARKER_PLUS || valid LIST_MARKER_PARENTHETHIS
  || valid LIST_MARKER_DOT = true ->
  (lookahead l >=? chr "0") && (lookahead l <=? chr "9") = true ->
  exists s' l',
    scan valid false s l = Returns true s' l'
    /\ if (Z.of_nat (digit_run (rest l)) <=? 9)
          && ((hd 0 (skipn (digit_run (rest l)) (rest l)) =? chr ".")
              || (hd 0 (skipn (digit_run (rest l)) (rest l)) =? chr ")"))
          && (1 <=? whitespace_columns
                      (u8 (column s + Z.of_nat (digit_run (rest l)) + 1))
                      (skipn (S (digit_run (rest l))) (rest l)))
       then result_symbol l'
            = (if hd 0 (skipn (digit_run (rest l)) (rest l)) =? chr "."
               then LIST_MARKER_DOT else LIST_MARKER_PARENTHETHIS)
            /\ size s' = size s + 1
            /\ is_tight_list_item (block_at s' (size s)) = true
       else result_symbol l' = MATCHING_DONE
            /\ open_blocks s' = open_blocks s.
Proof.
  intros Hm Hi Hv Hl.
  change (chr "0") with 48 in Hl. change (chr "9") with 57 in Hl.
  assert (He : eof l = false) by (apply lookahead_nonzero; lia).
  rewrite scan_at_block_start;
    [| exact He | exact Hm | left; lia
     | unfold is_space_or_tab, SPACE, TAB;
       replace (lookahead l =? 32) with false by lia;
       replace (lookahead l =? 9) with false by lia; apply andb_false_r].
  rewrite (block_switch_at (lookahead l))
    by (reflexivity
        || (unfold LF, CR; change (chr ">") with 62;
            change (chr "~") with 126; change (chr "`") with 96; lia)).
  replace (lookahead l =? chr "#") with false
    by (change (chr "#") with 35; lia).
  replace (lookahead l =? chr "=") with false
    by (change (chr "=") with 61; lia).
  replace (lookahead l =? chr "+") with false
    by (change (chr "+") with 43; lia).
  change (chr "0") with 48. change (chr "9") with 57. rewrite Hl.
  unfold case_digit, matching_of. rewrite Hv. cbn [negb andb].
  replace (indentation s <=? 3) with true by lia.
  replace (matched s <? size s) with false by lia. cbn [negb andb].
  unfold mark_end_unless.
  destruct (digits_loop s (mark_end l)) as [[digits s1] l1] eqn:Ed.
  pose proof (digits_loop_frames _ _ _ _ _ Ed) as [Hf1 _].
  pose proof Ed as Ed'.
  apply digits_loop_digits in Ed as (-> & Hr & Hc).
  change (rest (mark_end l)) with (rest l) in *.
  assert (Hd1 : (1 <= digit_run (rest l))%nat).
  { rewrite (rest_lookahead l He). cbn [digit_run].
    change (chr "0") with 48. change (chr "9") with 57. rewrite Hl. lia. }
  replace (Z.of_nat (digit_run (rest l)) >=? 1) with true by lia.
  cbn [andb]. rewrite <- Hr, rest_hd.
  set (d := digit_run (rest l)) in *.
  destruct Hf1 as [Hb1 Hma1 Hin1 _ _ _ _].
  assert (Hdone : forall s2 l2,
             open_blocks s2 = open_blocks s ->
             exists s' l',
               Returns true (set_matched s2 (u8 (matched s2 + 1)))
                 (set_result_symbol l2 MATCHING_DONE) = Returns true s' l'
               /\ result_symbol l' = MATCHING_DONE
               /\ open_blocks s' = open_blocks s)
    by (intros s2 l2 H2; do 2 eexists; split; [reflexivity|];
        split; [reflexivity | exact H2]).
  destruct (Z.of_nat d <=? 9); cbn [andb]; [|apply Hdone; exact Hb1].
  assert (Hmarker : forall tok,
             lookahead l1 = chr "." \/ lookahead l1 = chr ")" ->
             exists s' l',
               match
                 (let '(extra_indentation, s0, l0) :=
                    count_whitespace
                      (set_column s1 (u8 (column s1 + advance_size s1 l1)))
                      (set_result_symbol (lexer_advance l1 false) tok) in
                  if extra_indentation >=? 1
                  then Return (Returns true
                                 (open_list_item extra_indentation s0)
                                 (mark_end l0))
                  else Break s0 l0)
               with
               | Return o => o
               | Break s2 l2 =>
                   Returns true (set_matched s2 (u8 (matched s2 + 1)))
                     (set_result_symbol l2 MATCHING_DONE)
               end = Returns true s' l'
               /\ if 1 <=? whitespace_columns
                             (u8 (column s + Z.of_nat d + 1))
                             (skipn (S d) (rest l))
                  then result_symbol l' = tok /\ size s' = size s + 1
                       /\ is_tight_list_item (block_at s' (size s)) = true
                  else result_symbol l' = MATCHING_DONE
                       /\ open_blocks s' = open_blocks s).
  { intros tok Hla.
    assert (He1 : eof l1 = false)
      by (apply lookahead_nonzero; destruct Hla as [-> | ->]; discriminate).
    destruct (count_whitespace _ _) as [[e s2] l2] eqn:Ew.
    pose proof (count_whitespace_frames _ _ _ _ _ Ew) as [Hf2 Hlf].
    apply count_whitespace_columns in Ew as [-> _].
    cbn [column set_column] in *.
    rewrite advance_size_other
      by (destruct Hla as [-> | ->]; discriminate).
    change (rest (set_result_symbol (lexer_advance l1 false) tok))
      with (rest (lexer_advance l1 false)).
    rewrite (rest_advance_tl l1 l1) by (reflexivity || exact He1).
    rewrite Hr, tl_skipn.
    rewrite <- u8_add_l, Hc, u8_add_l.
    destruct Hf2 as [Hb2 Hma2 Hin2 _ _ _ _].
    cbn [open_blocks matched indentation set_column] in Hb2, Hma2, Hin2.
    set (e := whitespace_columns _ _).
    replace (e >=? 1) with (1 <=? e) by lia.
    destruct (1 <=? e) eqn:Ee.
    - do 2 eexists. split; [reflexivity|].
      destruct (open_list_item_spec e s2) as (Ho & _ & _).
      destruct Hlf as [_ Hres _].
      cbn [result_symbol mark_end set_result_symbol] in *.
      split; [exact Hres|]. unfold size, block_at.
      rewrite Ho, Hb2, Hb1, length_app. cbn [length].
      split; [lia|].
      rewrite app_nth2 by lia.
      replace (Z.to_nat (Z.of_nat (length (open_blocks s)))
               - length (open_blocks s))%nat with 0%nat by lia.
      cbn [nth]. rewrite Hin2, Hin1.
      apply list_item_block_tight; lia.
    - apply Hdone. congruence. }
  destruct (lookahead l1 =? chr ".") eqn:E1.
  - cbn [orb andb]. unfold advance. cbv zeta.
    apply (Hmarker LIST_MARKER_DOT). left. lia.
  - destruct (lookahead l1 =? chr ")") eqn:E2.
    + cbn [orb andb]. unfold advance. cbv zeta.
      apply (Hmarker LIST_MARKER_PARENTHETHIS). right. lia.
    + cbn [orb andb]. apply Hdone. exact Hb1.
Qed.

(** The theorem at ["12) a"] and at ["1."] at the end of its line. *)
Lemma ordered_list_marker_witness :
  let valid := valid_of [LIST_MARKER_DOT] in
  (matched fresh_scanner = size fresh_scanner
   /\ 0 <= indentation fresh_scanner <= 3)
  /\ (exists s' l',
        scan valid false fresh_scanner
          (lexer_of ["1"; "2"; ")"; " "; "a"]%char) = Returns true s' l'
        /\ result_symbol l' = LIST_MARKER_PARENTHETHIS
        /\ size s' = 1)
  /\ (exists s' l',
        scan valid false fresh_scanner (lexer_of ["1"; "."; "010"]%char)
        = Returns true s' l'
        /\ result_symbol l' = MATCHING_DONE /\ open_blocks s' = []).
Proof.
  cbv zeta. split; [split; [reflexivity | cbn; lia]|]. split.
  - destruct (ordered_list_marker (valid_of [LIST_MARKER_DOT])
                fresh_scanner (lexer_of ["1"; "2"; ")"; " "; "a"]%char)
                eq_refl ltac:(cbn; lia) eq_refl eq_refl)
      as (s' & l' & H1 & H2).
    exists s', l'. split; [exact H1|]. split; apply H2.
  - destruct (ordered_list_marker (valid_of [LIST_MARKER_DOT])
                fresh_scanner (lexer_of ["1"; "."; "010"]%char)
                eq_refl ltac:(cbn; lia) eq_refl eq_refl)
      as (s' & l' & H1 & H2).
    exists s', l'. split; [exact H1|]. split; apply H2.
Defined.

(** ** Lines of dashes and of stars *)

Lemma lexer_advance_same (l0 l : Lexer) (skip : bool) :
  position l0 = position l -> text l0 = text l ->
  remaining (lexer_advance l0 skip) = remaining (lexer_advance l skip)
  /\ rest (lexer_advance l0 skip) = rest (lexer_advance l skip).
Proof.
  intros Hp Ht. unfold lexer_advance, eof, remaining, rest.
  rewrite Hp, Ht. destruct (_ <=? _)%nat; cbn [text position];
    rewrite ?Hp, ?Ht; split; reflexivity.
Qed.

(** The loop of the ['-'] case, on the text of the line. *)
Lemma minus_loop_line v' s' l' :
  forall n v s l,
    remaining l = n ->
    while_lookahead (fun _ la => (la =? chr "-") || is_space_or_tab la)
      (fun v s l =>
         if lookahead l =? chr "-" then
           let l :=
             if (minus_count v =? 1) && (minus_extra_indentation v >=? 1)
             then mark_end_unless false l else l in
           let '(_, s, l) := advance s l false in
           (mkMinusLocals (whitespace_after_minus v)
              (whitespace_after_minus v) (minus_count v + 1)
              (minus_extra_indentation v), s, l)
         else
           let '(n, s, l) := advance s l false in
           (mkMinusLocals true (minus_after_whitespace v) (minus_count v)
              (if minus_count v =? 1
               then minus_extra_indentation v + n
               else minus_extra_indentation v), s, l))
      v s l = (v', s', l') ->
    minus_count v'
    = minus_count v + Z.of_nat (marker_count (chr "-") (rest l))
    /\ minus_after_whitespace v'
       = (if (0 <? marker_count (chr "-") (rest l))%nat
          then marker_after_space (chr "-") (whitespace_after_minus v)
                 (rest l)
          else minus_after_whitespace v)
    /\ rest l' = skip_markers (chr "-") (rest l).
Proof.
  induction n as [|n IH]; intros v s l Hn H;
    destruct ((lookahead l =? chr "-") || is_space_or_tab (lookahead l))
      eqn:E.
  - exfalso. assert (He : eof l = false)
      by (apply lookahead_nonzero; change (chr "-") with 45 in E;
          unfold is_space_or_tab, SPACE, TAB in E; lia).
    unfold eof in He. apply Nat.leb_gt in He. unfold remaining in Hn. lia.
  - rewrite while_lookahead_stop in H by exact E. injection H as <- <- <-.
    destruct (rest_cases l) as [(_ & _ & ->) | (_ & ->)];
      cbn [marker_count skip_markers]; [repeat split; lia|].
    rewrite E. apply orb_false_elim in E as [-> ->]. cbn [Nat.ltb Nat.leb].
    repeat split; lia.
  - assert (He : eof l = false)
      by (apply lookahead_nonzero; change (chr "-") with 45 in E;
          unfold is_space_or_tab, SPACE, TAB in E; lia).
    destruct (rest_cases l) as [(He' & _) | (_ & Hr)]; [congruence|].
    destruct (lookahead l =? chr "-") eqn:Em.
    + set (l0 := if (minus_count v =? 1)
                    && (minus_extra_indentation v >=? 1)
                 then mark_end_unless false l else l).
      assert (Hl0 : position l0 = position l /\ text l0 = text l)
        by (unfold l0; destruct (_ && _); split; reflexivity).
      destruct (lexer_advance_same l0 l false (proj1 Hl0) (proj2 Hl0))
        as [Hrem Hrest].
      rewrite (while_lookahead_step _ _ _ _ _
                 (mkMinusLocals (whitespace_after_minus v)
                    (whitespace_after_minus v) (minus_count v + 1)
                    (minus_extra_indentation v))
                 (set_column s (u8 (column s + advance_size s l0)))
                 (lexer_advance l0 false)) in H;
        [| rewrite Em; reflexivity | exact He
         | cbv beta; rewrite Em; reflexivity
         | rewrite Hrem; apply remaining_advance; exact He].
      apply IH in H;
        [|rewrite Hrem, remaining_advance by exact He; lia].
      rewrite Hrest in H. rewrite Hr.
      cbn [marker_count skip_markers marker_after_space
           minus_count minus_after_whitespace whitespace_after_minus] in *.
      rewrite Em. cbn [orb].
      destruct H as (H1 & H2 & H3).
      change (0 <? S (marker_count (chr "-") (rest (lexer_advance l false))))%nat
        with true. cbv iota.
      repeat split; [lia | | exact H3].
      rewrite H2. reflexivity.
    + cbn [orb] in E.
      rewrite (while_lookahead_step _ _ _ _ _
                 (mkMinusLocals true (minus_after_whitespace v)
                    (minus_count v)
                    (if minus_count v =? 1
                     then minus_extra_indentation v + advance_size s l
                     else minus_extra_indentation v))
                 (set_column s (u8 (column s + advance_size s l)))
                 (lexer_advance l false)) in H;
        [| rewrite Em, E; reflexivity | exact He
         | cbv beta; rewrite Em; reflexivity
         | apply remaining_advance; exact He].
      apply IH in H; [|rewrite remaining_advance by exact He; lia].
      rewrite Hr.
      cbn [marker_count skip_markers marker_after_space
           minus_count minus_after_whitespace whitespace_after_minus] in *.
      rewrite Em, E. cbn [orb]. exact H.
  - rewrite while_lookahead_stop in H by exact E. injection H as <- <- <-.
    destruct (rest_cases l) as [(_ & _ & ->) | (_ & ->)];
      cbn [marker_count skip_markers]; [repeat split; lia|].
    rewrite E. apply orb_false_elim in E as [-> ->]. cbn [Nat.ltb Nat.leb].
    repeat split; lia.
Qed.

Lemma marker_count_head (c : Z) (l : Lexer) :
  lookahead l = c -> eof l = false ->
  (1 <= marker_count c (rest l))%nat.
Proof.
  intros Hl He. rewrite (rest_lookahead l He). cbn [marker_count].
  rewrite Hl, Z.eqb_refl. lia.
Qed.

(** X20: at the start of a block, with at most three columns of
    indentation, the token of a line that starts with ['-'] is
    [dash_line_token]: a thematic break needs three dashes, nothing but
    dashes, spaces and tabs up to the line end, and a dash behind a space
    or tab (["- - -"]); else a list marker needs whitespace behind the
    first dash, or the dash alone on its line; else an unbroken run of
    dashes before the line end is a Setext underline, which
    [SETEXT_H2_UNDERLINE_OR_THEMATIC_BREAK] names when the run has three
    dashes at least.  Only the list marker pushes a block; a line that
    is none of these ends the matching. *)
Theorem dash_line valid s l :
  matched s = size s -> 0 <= indentation s <= 3 ->
  lookahead l = chr "-" ->
  exists s' l',
    scan valid false s l = Returns true s' l'
    /\ result_symbol l'
       = dash_line_token valid (marker_count (chr "-") (rest l))
           (is_line_end (hd 0 (skip_markers (chr "-") (rest l))))
           (marker_after_space (chr "-") false (rest l))
           (post_marker_columns LIST_MARKER_MINUS s l)
    /\ matched s' = u8 (matched s + 1)
    /\ if result_symbol l' =? LIST_MARKER_MINUS
       then size s' = size s + 1
            /\ is_tight_list_item (block_at s' (size s)) = true
       else open_blocks s' = open_blocks s.
Proof.
  intros Hm Hi Hl.
  assert (He : eof l = false)
    by (apply lookahead_nonzero; rewrite Hl; discriminate).
  rewrite scan_at_block_start;
    [| exact He | exact Hm | left; lia
     | rewrite Hl; apply andb_false_r].
  rewrite (block_switch_at (chr "-")) by (exact Hl || reflexivity).
  change (chr "-" =? chr "#") with false.
  change (chr "-" =? chr "=") with false.
  change (chr "-" =? chr "+") with false.
  change ((chr "-" >=? chr "0") && (chr "-" <=? chr "9")) with false.
  change (chr "-" =? chr "-") with true. cbv iota.
  unfold case_minus, matching_of. cbn [negb andb].
  replace (indentation s <=? 3) with true by lia.
  replace (matched s <? size s) with false by lia. cbn [negb andb].
  pose proof (marker_count_head _ l Hl He) as Hk.
  unfold dash_line_token. cbv zeta.
  destruct (valid LIST_MARKER_MINUS || valid SETEXT_H2_UNDERLINE
            || valid SETEXT_H2_UNDERLINE_OR_THEMATIC_BREAK
            || valid THEMATIC_BREAK) eqn:G.
  2:{ apply orb_false_elim in G as [G ->].
      apply orb_false_elim in G as [G ->].
      apply orb_false_elim in G as [-> ->]. cbn [andb].
      do 2 eexists. split; [reflexivity|]. repeat split. }
  clear G.
  pose proof (minus_extra_columns s l Hl) as Hx.
  unfold minus_extra in Hx. unfold mark_end_unless in *.
  destruct (minus_loop false s (mark_end l)) as [[v s1] l1] eqn:El.
  pose proof (minus_loop_frames _ _ _ _ _ _ El) as [Hf _].
  unfold minus_loop in El.
  apply (minus_loop_line _ _ _ _ _ _ _ eq_refl) in El.
  change (rest (mark_end l)) with (rest l) in El.
  cbn [minus_count minus_after_whitespace whitespace_after_minus] in El.
  destruct El as (Hc & Hw & Hr).
  replace (0 <? marker_count (chr "-") (rest l))%nat with true in Hw
    by (symmetry; apply Nat.ltb_lt; lia).
  rewrite <- Hr, rest_hd.
  change (post_marker_columns LIST_MARKER_MINUS s l)
    with (if is_line_end (hd 0 (skip_spaces (tl (rest l)))) then 1
          else whitespace_columns (u8 (column s + 1)) (tl (rest l))).
  rewrite <- Hx, Hw.
  set (k := marker_count (chr "-") (rest l)) in *.
  set (sp := marker_after_space (chr "-") false (rest l)) in *.
  set (le := is_line_end (lookahead l1)) in *.
  set (e := if (minus_count v =? 1) && le then 1
            else minus_extra_indentation v) in *.
  replace (minus_count v >=? 3) with (3 <=? k)%nat
    by (destruct (3 <=? k)%nat eqn:E3;
        [apply Nat.leb_le in E3 | apply Nat.leb_gt in E3]; lia).
  replace (minus_count v >=? 1) with true by lia.
  replace (e >=? 1) with (1 <=? e) by lia.
  cbn [andb].
  destruct Hf as [Hb Hma Hin _ _ _ _].
  assert (Hline : forall tok,
             tok <> LIST_MARKER_MINUS ->
             exists s' l',
               emit_line_token tok s1 l1 = Returns true s' l'
               /\ result_symbol l' = tok
               /\ matched s' = u8 (matched s + 1)
               /\ (if result_symbol l' =? LIST_MARKER_MINUS
                   then size s' = size s + 1
                        /\ is_tight_list_item (block_at s' (size s)) = true
                   else open_blocks s' = open_blocks s)).
  { intros tok Ht. unfold emit_line_token. do 2 eexists.
    split; [reflexivity|].
    cbn [result_symbol mark_end set_result_symbol matched open_blocks
         set_matched set_indentation].
    replace (tok =? LIST_MARKER_MINUS) with false by lia.
    rewrite Hma. repeat split. exact Hb. }
  destruct (valid THEMATIC_BREAK && ((3 <=? k)%nat && le)
            && negb (negb sp && le));
    [apply Hline; discriminate|].
  destruct (valid LIST_MARKER_MINUS && (1 <=? e)) eqn:Elm.
  { apply andb_prop in Elm as [_ Ee].
    destruct (open_list_item_spec e s1) as (Ho & _ & Hmo).
    do 2 eexists. split; [reflexivity|].
    cbn [result_symbol set_result_symbol].
    change (LIST_MARKER_MINUS =? LIST_MARKER_MINUS) with true. cbv iota.
    split; [reflexivity|]. rewrite Hmo, Hma. split; [reflexivity|].
    unfold size, block_at. rewrite Ho, Hb, length_app. cbn [length].
    split; [lia|]. rewrite app_nth2 by lia.
    replace (Z.to_nat (Z.of_nat (length (open_blocks s)))
             - length (open_blocks s))%nat with 0%nat by lia.
    cbn [nth]. rewrite Hin. apply list_item_block_tight; lia. }
  destruct (valid SETEXT_H2_UNDERLINE_OR_THEMATIC_BREAK
            && ((3 <=? k)%nat && le) && (negb sp && le));
    [apply Hline; discriminate|].
  destruct (valid SETEXT_H2_UNDERLINE && (negb sp && le));
    [apply Hline; discriminate|].
  do 2 eexists. split; [reflexivity|].
  cbn [result_symbol set_result_symbol matched open_blocks set_matched].
  change (MATCHING_DONE =? LIST_MARKER_MINUS) with false. cbv iota.
  rewrite Hma. repeat split. exact Hb.
Qed.

(** The loop of the ['*'] case, on the text of the line. *)
Lemma star_loop_line v' s' l' :
  forall n (v : Z * Z) s l,
    remaining l = n ->
    while_lookahead (fun _ la => (la =? chr "*") || is_space_or_tab la)
      (fun '(star_count, extra_indentation) s l =>
         if lookahead l =? chr "*" then
           let l :=
             if (star_count =? 1) && (extra_indentation >=? 1)
             then mark_end_unless false l else l in
           let '(_, s, l) := advance s l false in
           ((star_count + 1, extra_indentation), s, l)
         else
           let '(n, s, l) := advance s l false in
           ((star_count,
             if star_count =? 1 then extra_indentation + n
             else extra_indentation), s, l))
      v s l = (v', s', l') ->
    fst v' = fst v + Z.of_nat (marker_count (chr "*") (rest l))
    /\ rest l' = skip_markers (chr "*") (rest l).
Proof.
  induction n as [|n IH]; intros [k e] s l Hn H;
    destruct ((lookahead l =? chr "*") || is_space_or_tab (lookahead l))
      eqn:E.
  - exfalso. assert (He : eof l = false)
      by (apply lookahead_nonzero; change (chr "*") with 42 in E;
          unfold is_space_or_tab, SPACE, TAB in E; lia).
    unfold eof in He. apply Nat.leb_gt in He. unfold remaining in Hn. lia.
  - rewrite while_lookahead_stop in H by exact E. injection H as <- <- <-.
    destruct (rest_cases l) as [(_ & _ & ->) | (_ & ->)];
      cbn [marker_count skip_markers fst]; [repeat split; lia|].
    rewrite E. apply orb_false_elim in E as [-> ->].
    repeat split; lia.
  - assert (He : eof l = false)
      by (apply lookahead_nonzero; change (chr "*") with 42 in E;
          unfold is_space_or_tab, SPACE, TAB in E; lia).
    destruct (rest_cases l) as [(He' & _) | (_ & Hr)]; [congruence|].
    destruct (lookahead l =? chr "*") eqn:Em.
    + set (l0 := if (k =? 1) && (e >=? 1)
                 then mark_end_unless false l else l).
      assert (Hl0 : position l0 = position l /\ text l0 = text l)
        by (unfold l0; destruct (_ && _); split; reflexivity).
      destruct (lexer_advance_same l0 l false (proj1 Hl0) (proj2 Hl0))
        as [Hrem Hrest].
      rewrite (while_lookahead_step _ _ _ _ _
                 (k + 1, e)
                 (set_column s (u8 (column s + advance_size s l0)))
                 (lexer_advance l0 false)) in H;
        [| rewrite Em; reflexivity | exact He
         | cbv beta iota; rewrite Em; reflexivity
         | rewrite Hrem; apply remaining_advance; exact He].
      apply IH in H;
        [|rewrite Hrem, remaining_advance by exact He; lia].
      rewrite Hrest in H. rewrite Hr.
      cbn [marker_count skip_markers fst] in *.
      rewrite Em. cbn [orb].
      destruct H as (H1 & H3). split; [lia | exact H3].
    + cbn [orb] in E.
      rewrite (while_lookahead_step _ _ _ _ _
                 (k, if k =? 1 then e + advance_size s l else e)
                 (set_column s (u8 (column s + advance_size s l)))
                 (lexer_advance l false)) in H;
        [| rewrite Em, E; reflexivity | exact He
         | cbv beta iota; rewrite Em; reflexivity
         | apply remaining_advance; exact He].
      apply IH in H; [|rewrite remaining_advance by exact He; lia].
      rewrite Hr.
      cbn [marker_count skip_markers fst] in *.
      rewrite Em, E. cbn [orb]. exact H.
  - rewrite while_lookahead_stop in H by exact E. injection H as <- <- <-.
    destruct (rest_cases l) as [(_ & _ & ->) | (_ & ->)];
      cbn [marker_count skip_markers fst]; [repeat split; lia|].
    rewrite E. apply orb_false_elim in E as [-> ->].
    repeat split; lia.
Qed.

(** X21: at the start of a block, with at most three columns of
    indentation, the token of a line that starts with ['*'] is
    [star_line_token]: a thematic break needs three stars and nothing
    but stars, spaces and tabs up to the line end; else a list marker
    needs whitespace behind the first star, or the star alone on its
    line.  Only the list marker pushes a block; a line that is neither
    ends the matching. *)
Theorem star_line valid s l :
  matched s = size s -> 0 <= indentation s <= 3 ->
  lookahead l = chr "*" ->
  exists s' l',
    scan valid false s l = Returns true s' l'
    /\ result_symbol l'
       = star_line_token valid (marker_count (chr "*") (rest l))
           (is_line_end (hd 0 (skip_markers (chr "*") (rest l))))
           (post_marker_columns LIST_MARKER_STAR s l)
    /\ matched s' = u8 (matched s + 1)
    /\ if result_symbol l' =? LIST_MARKER_STAR
       then size s' = size s + 1
            /\ is_tight_list_item (block_at s' (size s)) = true
       else open_blocks s' = open_blocks s.
Proof.
  intros Hm Hi Hl.
  assert (He : eof l = false)
    by (apply lookahead_nonzero; rewrite Hl; discriminate).
  rewrite scan_at_block_start;
    [| exact He | exact Hm | left; lia
     | rewrite Hl; apply andb_false_r].
  rewrite (block_switch_at (chr "*")) by (exact Hl || reflexivity).
  change (chr "*" =? chr "#") with false.
  change (chr "*" =? chr "=") with false.
  change (chr "*" =? chr "+") with false.
  change ((chr "*" >=? chr "0") && (chr "*" <=? chr "9")) with false.
  change (chr "*" =? chr "-") with false.
  change (chr "*" =? chr "*") with true. cbv iota.
  unfold case_star, matching_of. cbn [negb andb].
  replace (indentation s <=? 3) with true by lia.
  replace (matched s <? size s) with false by lia. cbn [negb andb].
  pose proof (marker_count_head _ l Hl He) as Hk.
  unfold star_line_token.
  destruct (valid LIST_MARKER_STAR || valid THEMATIC_BREAK) eqn:G.
  2:{ apply orb_false_elim in G as [-> ->]. cbn [andb].
      do 2 eexists. split; [reflexivity|]. repeat split. }
  clear G.
  pose proof (star_extra_columns s l Hl) as Hx.
  unfold star_extra in Hx. unfold mark_end_unless in *.
  destruct (star_loop false s (mark_end l)) as [[[n e0] s1] l1] eqn:El.
  pose proof (star_loop_frames _ _ _ _ _ _ El) as [Hf _].
  unfold star_loop in El.
  apply (star_loop_line _ _ _ _ _ _ _ eq_refl) in El.
  change (rest (mark_end l)) with (rest l) in El.
  cbn [fst] in El. destruct El as (Hc & Hr).
  rewrite <- Hr, rest_hd.
  change (post_marker_columns LIST_MARKER_STAR s l)
    with (if is_line_end (hd 0 (skip_spaces (tl (rest l)))) then 1
          else whitespace_columns (u8 (column s + 1)) (tl (rest l))).
  rewrite <- Hx.
  set (k := marker_count (chr "*") (rest l)) in *.
  set (le := is_line_end (lookahead l1)) in *.
  set (e := if (n =? 1) && le then 1 else e0) in *.
  replace (n >=? 3) with (3 <=? k)%nat
    by (destruct (3 <=? k)%nat eqn:E3;
        [apply Nat.leb_le in E3 | apply Nat.leb_gt in E3]; lia).
  replace (n >=? 1) with true by lia.
  replace (e >=? 1) with (1 <=? e) by lia.
  cbn [andb]. rewrite <- andb_assoc.
  destruct Hf as [Hb Hma Hin _ _ _ _].
  destruct (valid THEMATIC_BREAK && ((3 <=? k)%nat && le)).
  { unfold emit_line_token. do 2 eexists. split; [reflexivity|].
    cbn [result_symbol mark_end set_result_symbol matched open_blocks
         set_matched set_indentation].
    change (THEMATIC_BREAK =? LIST_MARKER_STAR) with false. cbv iota.
    rewrite Hma. repeat split. exact Hb. }
  destruct (valid LIST_MARKER_STAR && (1 <=? e)) eqn:Elm.
  { apply andb_prop in Elm as [_ Ee].
    destruct (open_list_item_spec e s1) as (Ho & _ & Hmo).
    do 2 eexists. split; [reflexivity|].
    assert (Hsym : forall b (x : Lexer),
               result_symbol (if b : bool then mark_end x else x)
               = result_symbol x) by (intros [] x; reflexivity).
    rewrite Hsym. cbn [result_symbol set_result_symbol].
    change (LIST_MARKER_STAR =? LIST_MARKER_STAR) with true. cbv iota.
    split; [reflexivity|]. rewrite Hmo, Hma. split; [reflexivity|].
    unfold size, block_at. rewrite Ho, Hb, length_app. cbn [length].
    split; [lia|]. rewrite app_nth2 by lia.
    replace (Z.to_nat (Z.of_nat (length (open_blocks s)))
             - length (open_blocks s))%nat with 0%nat by lia.
    cbn [nth]. rewrite Hin. apply list_item_block_tight; lia. }
  do 2 eexists. split; [reflexivity|].
  cbn [result_symbol set_result_symbol matched open_blocks set_matched].
  change (MATCHING_DONE =? LIST_MARKER_STAR) with false. cbv iota.
  rewrite Hma. repeat split. exact Hb.
Qed.

Lemma dash_line_witness :
  let valid :=
    valid_of [THEMATIC_BREAK; LIST_MARKER_MINUS; SETEXT_H2_UNDERLINE;
              SETEXT_H2_UNDERLINE_OR_THEMATIC_BREAK] in
  (matched fresh_scanner = size fresh_scanner
   /\ 0 <= indentation fresh_scanner <= 3)
  /\ (exists s' l',
        scan valid false fresh_scanner
          (lexer_of ["-"; " "; "-"; " "; "-"; "010"]%char)
        = Returns true s' l'
        /\ result_symbol l' = THEMATIC_BREAK)
  /\ (exists s' l',
        scan valid false fresh_scanner
          (lexer_of ["-"; "-"; "-"; "010"]%char)
        = Returns true s' l'
        /\ result_symbol l' = SETEXT_H2_UNDERLINE_OR_THEMATIC_BREAK)
  /\ (exists s' l',
        scan valid false fresh_scanner
          (lexer_of ["-"; "-"; " "; "010"]%char)
        = Returns true s' l'
        /\ result_symbol l' = SETEXT_H2_UNDERLINE)
  /\ (exists s' l',
        scan valid false fresh_scanner
          (lexer_of ["-"; " "; "a"; "010"]%char)
        = Returns true s' l'
        /\ result_symbol l' = LIST_MARKER_MINUS
        /\ open_blocks s' = [TIGHT_LIST_ITEM])
  /\ (exists s' l',
        scan valid false fresh_scanner
          (lexer_of ["-"; "a"; "010"]%char)
        = Returns true s' l'
        /\ result_symbol l' = MATCHING_DONE
        /\ open_blocks s' = []).
Proof.
  cbv zeta. split; [split; [reflexivity | cbn; lia]|].
  repeat split.
  - destruct (dash_line
                (valid_of [THEMATIC_BREAK; LIST_MARKER_MINUS;
                           SETEXT_H2_UNDERLINE;
                           SETEXT_H2_UNDERLINE_OR_THEMATIC_BREAK])
                fresh_scanner
                (lexer_of ["-"; " "; "-"; " "; "-"; "010"]%char)
                eq_refl ltac:(cbn; lia) eq_refl)
      as (s' & l' & H1 & H2 & _).
    exists s', l'. split; [exact H1 | exact H2].
  - destruct (dash_line
                (valid_of [THEMATIC_BREAK; LIST_MARKER_MINUS;
                           SETEXT_H2_UNDERLINE;
                           SETEXT_H2_UNDERLINE_OR_THEMATIC_BREAK])
                fresh_scanner (lexer_of ["-"; "-"; "-"; "010"]%char)
                eq_refl ltac:(cbn; lia) eq_refl)
      as (s' & l' & H1 & H2 & _).
    exists s', l'. split; [exact H1 | exact H2].
  - destruct (dash_line
                (valid_of [THEMATIC_BREAK; LIST_MARKER_MINUS;
                           SETEXT_H2_UNDERLINE;
                           SETEXT_H2_UNDERLINE_OR_THEMATIC_BREAK])
                fresh_scanner (lexer_of ["-"; "-"; " "; "010"]%char)
                eq_refl ltac:(cbn; lia) eq_refl)
      as (s' & l' & H1 & H2 & _).
    exists s', l'. split; [exact H1 | exact H2].
  - destruct (dash_line
                (valid_of [THEMATIC_BREAK; LIST_MARKER_MINUS;
                           SETEXT_H2_UNDERLINE;
                           SETEXT_H2_UNDERLINE_OR_THEMATIC_BREAK])
                fresh_scanner (lexer_of ["-"; " "; "a"; "010"]%char)
                eq_refl ltac:(cbn; lia) eq_refl)
      as (s' & l' & H1 & H2 & _).
    exists s', l'. split; [exact H1 |]. split; [exact H2|].
    vm_compute in H1. injection H1 as <- <-. reflexivity.
  - destruct (dash_line
                (valid_of [THEMATIC_BREAK; LIST_MARKER_MINUS;
                           SETEXT_H2_UNDERLINE;
                           SETEXT_H2_UNDERLINE_OR_THEMATIC_BREAK])
                fresh_scanner (lexer_of ["-"; "a"; "010"]%char)
                eq_refl ltac:(cbn; lia) eq_refl)
      as (s' & l' & H1 & H2 & _ & H4).
    exists s', l'. split; [exact H1 |]. split; [exact H2|].
    rewrite H2 in H4. exact H4.
Defined.

Lemma star_line_witness :
  let valid := valid_of [THEMATIC_BREAK; LIST_MARKER_STAR] in
  (matched fresh_scanner = size fresh_scanner
   /\ 0 <= indentation fresh_scanner <= 3)
  /\ (exists s' l',
        scan valid false fresh_scanner
          (lexer_of ["*"; " "; "*"; "*"; "010"]%char)
        = Returns true s' l'
        /\ result_symbol l' = THEMATIC_BREAK)
  /\ (exists s' l',
        scan valid false fresh_scanner
          (lexer_of ["*"; " "; "a"; "010"]%char)
        = Returns true s' l'
        /\ result_symbol l' = LIST_MARKER_STAR
        /\ open_blocks s' = [TIGHT_LIST_ITEM])
  /\ (exists s' l',
        scan valid false fresh_scanner
          (lexer_of ["*"; "*"; "a"; "010"]%char)
        = Returns true s' l'
        /\ result_symbol l' = MATCHING_DONE
        /\ open_blocks s' = []).
Proof.
  cbv zeta. split; [split; [reflexivity | cbn; lia]|].
  repeat split.
  - destruct (star_line (valid_of [THEMATIC_BREAK; LIST_MARKER_STAR])
                fresh_scanner
                (lexer_of ["*"; " "; "*"; "*"; "010"]%char)
                eq_refl ltac:(cbn; lia) eq_refl)
      as (s' & l' & H1 & H2 & _).
    exists s', l'. split; [exact H1 | exact H2].
  - destruct (star_line (valid_of [THEMATIC_BREAK; LIST_MARKER_STAR])
                fresh_scanner (lexer_of ["*"; " "; "a"; "010"]%char)
                eq_refl ltac:(cbn; lia) eq_refl)
      as (s' & l' & H1 & H2 & _).
    exists s', l'. split; [exact H1 |]. split; [exact H2|].
    vm_compute in H1. injection H1 as <- <-. reflexivity.
  - destruct (star_line (valid_of [THEMATIC_BREAK; LIST_MARKER_STAR])
                fresh_scanner (lexer_of ["*"; "*"; "a"; "010"]%char)
                eq_refl ltac:(cbn; lia) eq_refl)
      as (s' & l' & H1 & H2 & _ & H4).
    exists s', l'. split; [exact H1 |]. split; [exact H2|].
    rewrite H2 in H4. exact H4.
Defined.

(** ** Bullet list markers with ['+'] *)

(** X22: at the start of a block, with at most three columns of
    indentation, a line that starts with ['+'] starts a list item exactly
    when [LIST_MARKER_PLUS] is valid and one column of whitespace at
    least follows the ['+']: unlike a ['-'] or a ['*'], a ['+'] alone on
    its line starts none.  The item pushes one block; otherwise the call
    ends the matching. *)
Theorem plus_list_marker valid s l :
  matched s = size s -> 0 <= indentation s <= 3 ->
  lookahead l = chr "+" ->
  exists s' l',
    scan valid false s l = Returns true s' l'
    /\ if valid LIST_MARKER_PLUS
          && (1 <=? whitespace_columns (u8 (column s + 1)) (tl (rest l)))
       then result_symbol l' = LIST_MARKER_PLUS
            /\ size s' = size s + 1
            /\ is_tight_list_item (block_at s' (size s)) = true
       else result_symbol l' = MATCHING_DONE
            /\ open_blocks s' = open_blocks s.
Proof.
  intros Hm Hi Hl.
  assert (He : eof l = false)
    by (apply lookahead_nonzero; rewrite Hl; discriminate).
  rewrite scan_at_block_start;
    [| exact He | exact Hm | left; lia
     | rewrite Hl; apply andb_false_r].
  rewrite (block_switch_at (chr "+")) by (exact Hl || reflexivity).
  change (chr "+" =? chr "#") with false.
  change (chr "+" =? chr "=") with false.
  change (chr "+" =? chr "+") with true. cbv iota.
  unfold case_plus, matching_of. cbn [negb andb].
  replace (indentation s <=? 3) with true by lia.
  replace (matched s <? size s) with false by lia. cbn [negb andb].
  destruct (valid LIST_MARKER_PLUS); cbn [andb].
  2:{ do 2 eexists. split; [reflexivity|]. split; reflexivity. }
  unfold mark_end_unless, advance. cbv zeta.
  destruct (count_whitespace _ _) as [[e s2] l2] eqn:Ew.
  pose proof (count_whitespace_frames _ _ _ _ _ Ew) as [Hf2 _].
  apply count_whitespace_columns in Ew as [-> _].
  cbn [column set_column] in *.
  rewrite advance_size_other
    by (change (lookahead (mark_end l)) with (lookahead l);
        rewrite Hl; discriminate).
  rewrite (rest_advance_tl (mark_end l) l) by (reflexivity || exact He).
  destruct Hf2 as [Hb2 Hma2 Hin2 _ _ _ _].
  cbn [open_blocks matched indentation set_column] in Hb2, Hma2, Hin2.
  set (e := whitespace_columns _ _).
  replace (e >=? 1) with (1 <=? e) by lia.
  destruct (1 <=? e) eqn:Ee.
  - do 2 eexists. split; [reflexivity|].
    destruct (open_list_item_spec e s2) as (Ho & _ & _).
    cbn [result_symbol mark_end set_result_symbol].
    split; [reflexivity|]. unfold size, block_at.
    rewrite Ho, Hb2, length_app. cbn [length].
    split; [lia|].
    rewrite app_nth2 by lia.
    replace (Z.to_nat (Z.of_nat (length (open_blocks s)))
             - length (open_blocks s))%nat with 0%nat by lia.
    cbn [nth]. rewrite Hin2.
    apply list_item_block_tight; lia.
  - do 2 eexists. split; [reflexivity|].
    split; [reflexivity | exact Hb2].
Qed.

(** The theorem at ["+ a"] and at a ["+"] alone on its line. *)
Lemma plus_list_marker_witness :
  let valid := valid_of [LIST_MARKER_PLUS] in
  (matched fresh_scanner = size fresh_scanner
   /\ 0 <= indentation fresh_scanner <= 3)
  /\ (exists s' l',
        scan valid false fresh_scanner
          (lexer_of ["+"; " "; "a"; "010"]%char)
        = Returns true s' l'
        /\ result_symbol l' = LIST_MARKER_PLUS
        /\ open_blocks s' = [TIGHT_LIST_ITEM])
  /\ (exists s' l',
        scan valid false fresh_scanner (lexer_of ["+"; "010"]%char)
        = Returns true s' l'
        /\ result_symbol l' = MATCHING_DONE
        /\ open_blocks s' = []).
Proof.
  cbv zeta. split; [split; [reflexivity | cbn; lia]|].
  split.
  - destruct (plus_list_marker (valid_of [LIST_MARKER_PLUS])
                fresh_scanner (lexer_of ["+"; " "; "a"; "010"]%char)
                eq_refl ltac:(cbn; lia) eq_refl)
      as (s' & l' & H1 & H2).
    exists s', l'. split; [exact H1 |].
    split; [exact (proj1 H2)|].
    vm_compute in H1. injection H1 as <- <-. reflexivity.
  - destruct (plus_list_marker (valid_of [LIST_MARKER_PLUS])
                fresh_scanner (lexer_of ["+"; "010"]%char)
                eq_refl ltac:(cbn; lia) eq_refl)
      as (s' & l' & H1 & H2).
    exists s', l'. split; [exact H1 | exact H2].
Defined.
